(** * Lawvisory: the daily trend-following strategy engine

    A shallow embedding of [strategies/base_strategy.py] (class
    [LawvisoryBaseStrategy]) and [strategies/conservative.py], followed by
    the properties of the decision pipeline: profile selection, bar cache,
    indicators, regime dial, selector, risk sizing and the two position
    guards.

    Conventions of the embedding.
    - Python floats are idealised as exact rationals ([Q]); a NaN is an
      absent value ([None]).  Numeric results are compared with [==].
    - Calendar dates are day ordinals ([Z]); a [timedelta] is a number of days.
    - Dictionaries that are only looked up are [gmap]s; dictionaries that are
      iterated are insertion-ordered association lists.
    - The host runtime (lumibot) is a read-only snapshot [Host] per trading
      step; everything the strategy does to it is recorded as an [Event].
    - The one exception the engine does not catch (an [IndexError] from
      [.iloc[-1]] on an empty frame) is the [Raise] outcome of the monad [M]. *)

From Stdlib Require Import QArith Qround Qminmax Qabs Lqa ZArith Lia Ascii String.
From stdpp Require Import gmap strings list.

(* ================================================================= *)
(** ** Python built-ins used by the strategy *)

Module Py.

Definition Qleb (a b : Q) : bool := Qle_bool a b.
Definition Qltb (a b : Q) : bool := negb (Qle_bool b a).

(** [max(a, b)] and [min(a, b)]: the first argument wins a tie. *)
Definition max (a b : Q) : Q := if Qltb a b then b else a.
Definition min (a b : Q) : Q := if Qltb b a then b else a.

(** [int(a // b)] on floats: floor of the quotient. *)
Definition floordiv (a b : Q) : Z := Qfloor (a / b).

(** [sum(xs)]. *)
Definition sum (xs : list Q) : Q := fold_right Qplus 0%Q xs.

(** [str.lower()] on ASCII text. *)
Definition lower_ascii (c : ascii) : ascii :=
  let n := nat_of_ascii c in
  if (65 <=? n)%nat && (n <=? 90)%nat then ascii_of_nat (n + 32) else c.

Fixpoint lower (s : string) : string :=
  match s with
  | EmptyString => EmptyString
  | String c r => String (lower_ascii c) (lower r)
  end.

(** [str.isspace()] on ASCII: TAB, LF, VT, FF, CR, FS, GS, RS, US, space. *)
Definition isspace (c : ascii) : bool :=
  let n := nat_of_ascii c in
  ((9 <=? n)%nat && (n <=? 13)%nat) || ((28 <=? n)%nat && (n <=? 32)%nat).

Fixpoint lstrip (s : string) : string :=
  match s with
  | EmptyString => EmptyString
  | String c r => if isspace c then lstrip r else s
  end.

Fixpoint rstrip (s : string) : string :=
  match s with
  | EmptyString => EmptyString
  | String c r =>
      match rstrip r with
      | EmptyString => if isspace c then EmptyString else String c EmptyString
      | r' => String c r'
      end
  end.

Definition strip (s : string) : string := rstrip (lstrip s).

(** [s.replace(".", "-")]. *)
Fixpoint replace_dot (s : string) : string :=
  match s with
  | EmptyString => EmptyString
  | String c r =>
      String (if Ascii.eqb c "."%char then "-"%char else c) (replace_dot r)
  end.

(** [str.upper()] on ASCII text. *)
Definition upper_ascii (c : ascii) : ascii :=
  let n := nat_of_ascii c in
  if (97 <=? n)%nat && (n <=? 122)%nat then ascii_of_nat (n - 32) else c.

Fixpoint upper (s : string) : string :=
  match s with
  | EmptyString => EmptyString
  | String c r => String (upper_ascii c) (upper r)
  end.

(** [xs[:n]] for an integer [n >= 0]; a negative [n] counts from the end. *)
Definition slice_to {A} (n : Z) (xs : list A) : list A :=
  if (0 <=? n)%Z then take (Z.to_nat n) xs
  else take (length xs - Z.to_nat (- n)) xs.

(** [xs[:-1]]. *)
Definition drop_last {A} (xs : list A) : list A := take (length xs - 1) xs.

(** [int(x)] on a float: truncation toward zero. *)
Definition int (q : Q) : Z := Z.quot (Qnum q) (Zpos (Qden q)).

(** [d[k] = v] on an insertion-ordered dictionary. *)
Fixpoint dict_set {V} (k : string) (v : V) (d : list (string * V)) : list (string * V) :=
  match d with
  | [] => [(k, v)]
  | (k', v') :: r =>
      if bool_decide (k = k') then (k, v) :: r else (k', v') :: dict_set k v r
  end.

(** [xs.tail(n)] of a pandas series. *)
Definition tail {A} (n : nat) (xs : list A) : list A := drop (length xs - n) xs.

End Py.

(* ================================================================= *)
(** ** Profile and presets *)

Record Profile := mkProfile {
  max_positions : Z;
  rebalance_every_days : Z;
  risk_per_entry_cap : Q;
  total_risk_budget : Q;
  target_exposure_bull : Q;
  target_exposure_bear : Q;
  min_price : Q;
  vol_penalty : Q;
  max_sector_positions : Z;
  atr_period : Z;
  atr_mult_trail : Q;
  max_drawdown : Q;
  cooldown_days : Z
}.

Definition balanced : Profile := {|
  max_positions := 10;
  rebalance_every_days := 14;
  risk_per_entry_cap := 1 # 100;
  total_risk_budget := 7 # 100;
  target_exposure_bull := 98 # 100;
  target_exposure_bear := 20 # 100;
  min_price := 5;
  vol_penalty := 25 # 100;
  max_sector_positions := 3;
  atr_period := 14;
  atr_mult_trail := 27 # 10;
  max_drawdown := 20 # 100;
  cooldown_days := 10
|}.

Definition max_return : Profile := {|
  max_positions := 7;
  rebalance_every_days := 10;
  risk_per_entry_cap := 1 # 100;
  total_risk_budget := 10 # 100;
  target_exposure_bull := 99 # 100;
  target_exposure_bear := 30 # 100;
  min_price := 5;
  vol_penalty := 15 # 100;
  max_sector_positions := 2;
  atr_period := 14;
  atr_mult_trail := 3;
  max_drawdown := 20 # 100;
  cooldown_days := 7
|}.

Definition PROFILES : gmap string Profile :=
  <["balanced" := balanced]> (<["max_return" := max_return]> ∅).

(** Class constants of [LawvisoryBaseStrategy]. *)
Definition TREND_SMA_DAYS : Z := 200.
Definition MOM_12M : Z := 252.
Definition MOM_6M : Z := 126.
Definition MOM_3M : Z := 63.
Definition VOL_LOOKBACK : Z := 63.
Definition REGIME_SYMBOL : string := "SPY".
Definition MAX_UNIVERSE_FOR_SPEED : Z := 500.
Definition BREADTH_SAMPLE : Z := 150.
Definition BREADTH_LOW : Q := 35 # 100.
Definition BREADTH_HIGH : Q := 65 # 100.
Definition MIN_ORDER_DOLLARS : Q := 150.
Definition NO_LOOKAHEAD : bool := true.

(* ================================================================= *)
(** ** Bars, frames and the host runtime *)

(** A row of the frame the data source returns: any cell may be NaN. *)
Record RawBar := mkRawBar {
  raw_date : Z;
  raw_open : option Q;
  raw_high : option Q;
  raw_low : option Q;
  raw_close : option Q;
  raw_volume : option Q
}.

Record RawFrame := mkRawFrame {
  raw_datetime_index : bool;      (* isinstance(df.index, pd.DatetimeIndex) *)
  raw_columns : list string;
  raw_rows : list RawBar
}.

(** A row after [dropna()]. *)
Record Bar := mkBar {
  bar_date : Z;
  bar_open : Q;
  bar_high : Q;
  bar_low : Q;
  bar_close : Q;
  bar_volume : Q
}.

Record DataFrame := mkDataFrame {
  datetime_index : bool;
  columns : list string;
  rows : list Bar
}.

Record Position := mkPosition {
  pos_symbol : string;            (* pos.asset.symbol *)
  pos_quantity : Q                (* float(pos.quantity or 0) *)
}.

(** What the engine reads from lumibot and pandas during one trading step.
    [pandas_std_annualized rets] stands for
    [float(rets.std() * math.sqrt(252))], which is irrational in general;
    [None] is NaN. *)
Record Host := mkHost {
  get_date : Z;                                   (* get_datetime().date() *)
  is_backtesting : bool;
  get_portfolio_value : Q;
  get_positions : list Position;
  get_position : string → option Position;
  get_last_price : string → option Q;
  get_historical_prices : string → Z → option RawFrame;   (* None: the fetch raised *)
  pandas_std_annualized : list Q → option Q
}.

Inductive Side := Buy | Sell.

Record Order := mkOrder {
  order_symbol : string;
  order_quantity : Q;
  order_side : Side
}.

(** One constructor per [log_message] call site. *)
Inductive LogMsg :=
| LogInit (name : string)
| LogDataFailed (sym : string) (length : Z)
| LogRank (passed_trend scored : Z)
| LogExitTrail (sym : string) (qty px stop : Q)
| LogDDBreaker (dd : Q)
| LogCooldown (until : option Z)
| LogSelect (selected : list string) (exposure : Q)
| LogRebalanceNoneSelected
| LogRebalanceNoVols
| LogRebalanceNoTargets
| LogRebalanceDone (held : Z) (invested exposure : Q).

Inductive Event :=
| Submit (o : Order)              (* self.submit_order(self.create_order(...)) *)
| Log (m : LogMsg).

(* ================================================================= *)
(** ** Engine state *)

Record EngineState := mkState {
  profile : Profile;
  universe : list string;
  _last_rebalance_day : option Z;
  _highest_close : gmap string Q;
  _equity_peak : option Q;
  _cooldown_until : option Z;
  _cache_day : option Z;
  _hist_cache : gmap (string * Z) DataFrame;
  _sector_by_symbol : gmap string string
}.

Definition set_last_rebalance_day (d : option Z) (s : EngineState) : EngineState :=
  mkState (profile s) (universe s) d (_highest_close s) (_equity_peak s)
          (_cooldown_until s) (_cache_day s) (_hist_cache s) (_sector_by_symbol s).

Definition set_highest_close (m : gmap string Q) (s : EngineState) : EngineState :=
  mkState (profile s) (universe s) (_last_rebalance_day s) m (_equity_peak s)
          (_cooldown_until s) (_cache_day s) (_hist_cache s) (_sector_by_symbol s).

Definition set_equity_peak (p : option Q) (s : EngineState) : EngineState :=
  mkState (profile s) (universe s) (_last_rebalance_day s) (_highest_close s) p
          (_cooldown_until s) (_cache_day s) (_hist_cache s) (_sector_by_symbol s).

Definition set_cooldown_until (d : option Z) (s : EngineState) : EngineState :=
  mkState (profile s) (universe s) (_last_rebalance_day s) (_highest_close s)
          (_equity_peak s) d (_cache_day s) (_hist_cache s) (_sector_by_symbol s).

Definition set_cache (d : option Z) (c : gmap (string * Z) DataFrame)
    (s : EngineState) : EngineState :=
  mkState (profile s) (universe s) (_last_rebalance_day s) (_highest_close s)
          (_equity_peak s) (_cooldown_until s) d c (_sector_by_symbol s).

(* ================================================================= *)
(** ** The engine monad: state, event trace, uncaught exception *)

Inductive Exc (A : Type) :=
| Ok (a : A)
| Raise.
Arguments Ok {A} a.
Arguments Raise {A}.

Definition M (A : Type) : Type := EngineState → Exc A * EngineState * list Event.

Definition ret {A} (a : A) : M A := λ s, (Ok a, s, []).

Definition bind {A B} (m : M A) (k : A → M B) : M B :=
  λ s, match m s with
       | (Ok a, s1, e1) =>
           match k a s1 with (r, s2, e2) => (r, s2, e1 ++ e2) end
       | (Raise, s1, e1) => (Raise, s1, e1)
       end.

Notation "'let*' x ':=' m 'in' k" := (bind m (λ x, k))
  (at level 10, x pattern, m at level 100, k at level 200, only parsing).
Notation "m ';;' k" := (bind m (λ _, k))
  (at level 100, k at level 200, right associativity, only parsing).

Definition get_state : M EngineState := λ s, (Ok s, s, []).
Definition modify (f : EngineState → EngineState) : M unit := λ s, (Ok tt, f s, []).
Definition emit (e : Event) : M unit := λ s, (Ok tt, s, [e]).
Definition raise {A} : M A := λ s, (Raise, s, []).
Definition lift_exc {A} (r : Exc A) : M A :=
  match r with Ok a => ret a | Raise => raise end.

Definition log_message (m : LogMsg) : M unit := emit (Log m).
Definition submit_order (sym : string) (qty : Q) (side : Side) : M unit :=
  emit (Submit (mkOrder sym qty side)).

(** [for x in xs: body(x)]. *)
Fixpoint for_each {A} (xs : list A) (body : A → M unit) : M unit :=
  match xs with
  | [] => ret tt
  | x :: r => body x ;; for_each r body
  end.

(** A [for] loop that updates local variables [acc]. *)
Fixpoint for_fold {A S} (xs : list A) (acc : S) (body : S → A → M S) : M S :=
  match xs with
  | [] => ret acc
  | x :: r => let* acc' := body acc x in for_fold r acc' body
  end.

(** The orders submitted in a trace, in order. *)
Definition submitted (ev : list Event) : list Order :=
  omap (λ e, match e with Submit o => Some o | Log _ => None end) ev.

Definition result_of {A} (o : Exc A * EngineState * list Event) : Exc A := o.1.1.
Definition state_of {A} (o : Exc A * EngineState * list Event) : EngineState := o.1.2.
Definition events_of {A} (o : Exc A * EngineState * list Event) : list Event := o.2.

(* ================================================================= *)
(** ** [initialize] *)

(** The optional keyword overrides of [initialize]. *)
Record Overrides := mkOverrides {
  o_risk_per_entry_cap : option Q;
  o_total_risk_budget : option Q;
  o_atr_mult_trail : option Q;
  o_rebalance_every_days : option Z;
  o_vol_penalty : option Q;
  o_max_drawdown : option Q;
  o_target_exposure_bear : option Q;
  o_target_exposure_bull : option Q
}.

Definition no_overrides : Overrides :=
  mkOverrides None None None None None None None None.

(** What [_default_universe] and [_load_sector_map] read from the CSV files
    of the repository: the sorted ticker set and the sector column. *)
Record Repo := mkRepo {
  csv_tickers : list string;
  csv_sectors : gmap string string
}.

(** [dataclasses.replace(prof, field=value)], one per overridable field. *)
Definition replace_risk_per_entry_cap (v : Q) (p : Profile) : Profile :=
  mkProfile (max_positions p) (rebalance_every_days p) v (total_risk_budget p)
    (target_exposure_bull p) (target_exposure_bear p) (min_price p) (vol_penalty p)
    (max_sector_positions p) (atr_period p) (atr_mult_trail p) (max_drawdown p)
    (cooldown_days p).
Definition replace_total_risk_budget (v : Q) (p : Profile) : Profile :=
  mkProfile (max_positions p) (rebalance_every_days p) (risk_per_entry_cap p) v
    (target_exposure_bull p) (target_exposure_bear p) (min_price p) (vol_penalty p)
    (max_sector_positions p) (atr_period p) (atr_mult_trail p) (max_drawdown p)
    (cooldown_days p).
Definition replace_atr_mult_trail (v : Q) (p : Profile) : Profile :=
  mkProfile (max_positions p) (rebalance_every_days p) (risk_per_entry_cap p)
    (total_risk_budget p) (target_exposure_bull p) (target_exposure_bear p)
    (min_price p) (vol_penalty p) (max_sector_positions p) (atr_period p) v
    (max_drawdown p) (cooldown_days p).
Definition replace_rebalance_every_days (v : Z) (p : Profile) : Profile :=
  mkProfile (max_positions p) v (risk_per_entry_cap p) (total_risk_budget p)
    (target_exposure_bull p) (target_exposure_bear p) (min_price p) (vol_penalty p)
    (max_sector_positions p) (atr_period p) (atr_mult_trail p) (max_drawdown p)
    (cooldown_days p).
Definition replace_vol_penalty (v : Q) (p : Profile) : Profile :=
  mkProfile (max_positions p) (rebalance_every_days p) (risk_per_entry_cap p)
    (total_risk_budget p) (target_exposure_bull p) (target_exposure_bear p)
    (min_price p) v (max_sector_positions p) (atr_period p) (atr_mult_trail p)
    (max_drawdown p) (cooldown_days p).
Definition replace_max_drawdown (v : Q) (p : Profile) : Profile :=
  mkProfile (max_positions p) (rebalance_every_days p) (risk_per_entry_cap p)
    (total_risk_budget p) (target_exposure_bull p) (target_exposure_bear p)
    (min_price p) (vol_penalty p) (max_sector_positions p) (atr_period p)
    (atr_mult_trail p) v (cooldown_days p).
Definition replace_target_exposure_bear (v : Q) (p : Profile) : Profile :=
  mkProfile (max_positions p) (rebalance_every_days p) (risk_per_entry_cap p)
    (total_risk_budget p) (target_exposure_bull p) v (min_price p) (vol_penalty p)
    (max_sector_positions p) (atr_period p) (atr_mult_trail p) (max_drawdown p)
    (cooldown_days p).
Definition replace_target_exposure_bull (v : Q) (p : Profile) : Profile :=
  mkProfile (max_positions p) (rebalance_every_days p) (risk_per_entry_cap p)
    (total_risk_budget p) v (target_exposure_bear p) (min_price p) (vol_penalty p)
    (max_sector_positions p) (atr_period p) (atr_mult_trail p) (max_drawdown p)
    (cooldown_days p).

(** [if x is not None: prof = replace(prof, field=x)]. *)
Definition override {V} (o : option V) (f : V → Profile → Profile) (p : Profile) : Profile :=
  match o with Some v => f v p | None => p end.

Definition apply_overrides (o : Overrides) (prof : Profile) : Profile :=
  let prof := override (o_risk_per_entry_cap o) replace_risk_per_entry_cap prof in
  let prof := override (o_total_risk_budget o) replace_total_risk_budget prof in
  let prof := override (o_atr_mult_trail o) replace_atr_mult_trail prof in
  let prof := override (o_rebalance_every_days o) replace_rebalance_every_days prof in
  let prof := override (o_vol_penalty o) replace_vol_penalty prof in
  let prof := override (o_max_drawdown o) replace_max_drawdown prof in
  let prof := override (o_target_exposure_bear o) replace_target_exposure_bear prof in
  override (o_target_exposure_bull o) replace_target_exposure_bull prof.

(** [str(risk_profile_name or "balanced").lower().strip()]: [None] and the
    empty string are falsy. *)
Definition profile_key (risk_profile_name : option string) : string :=
  let given := match risk_profile_name with
               | None | Some EmptyString => "balanced"
               | Some n => n
               end in
  Py.strip (Py.lower given).

(** [D[k]]: a missing key raises [KeyError]. *)
Definition subscript {K V} `{Countable K} (D : gmap K V) (k : K) : Exc V :=
  match D !! k with Some v => Ok v | None => Raise end.

(** [D.get(k, d)]. *)
Definition dict_get {K V} `{Countable K} (D : gmap K V) (k : K) (d : V) : V :=
  default d (D !! k).

Definition _default_universe (repo : Repo) (limit : Z) : list string :=
  Py.slice_to limit (csv_tickers repo).

Definition _load_sector_map (repo : Repo) : gmap string string := csv_sectors repo.

Definition initialize (repo : Repo) (risk_profile_name : option string)
    (universe : option (list string)) (o : Overrides)
  : Exc (EngineState * list Event) :=
  let name := profile_key risk_profile_name in
  match subscript PROFILES "balanced" with
  | Raise => Raise
  | Ok fallback =>
      let prof := dict_get PROFILES name fallback in
      let prof := apply_overrides o prof in
      let universe := match universe with
                      | None | Some [] => _default_universe repo MAX_UNIVERSE_FOR_SPEED
                      | Some u => u
                      end in
      Ok (mkState prof universe None ∅ None None None ∅ (_load_sector_map repo),
          [Log (LogInit name)])
  end.

(** [ConservativeStrategy.initialize]:
    [super().initialize(risk_profile_name="conservative")]. *)
Definition ConservativeStrategy_initialize (repo : Repo) : Exc (EngineState * list Event) :=
  initialize repo (Some "conservative") None no_overrides.

(* ================================================================= *)
(** ** Scheduling guards and symbol mapping *)

Definition _should_rebalance_today (h : Host) (s : EngineState) : bool :=
  let today := get_date h in
  match _last_rebalance_day s with
  | None => true
  | Some d => (rebalance_every_days (profile s) <=? today - d)%Z
  end.

Definition _in_cooldown (h : Host) (s : EngineState) : bool :=
  match _cooldown_until s with
  | None => false
  | Some d => (get_date h <=? d)%Z
  end.

Definition _src_symbol (h : Host) (symbol : string) : string :=
  let s := Py.strip (Py.upper symbol) in
  if is_backtesting h then Py.replace_dot s else s.

(* ================================================================= *)
(** ** Data helpers: the per-day bar cache *)

Definition len {A} (xs : list A) : Z := Z.of_nat (length xs).

(** [xs.iloc[i]]: a negative [i] counts from the end; out of range raises
    [IndexError]. *)
Definition iloc {A} (xs : list A) (i : Z) : Exc A :=
  let j := if (0 <=? i)%Z then i else (len xs + i)%Z in
  if (0 <=? j)%Z then
    match xs !! Z.to_nat j with Some x => Ok x | None => Raise end
  else Raise.

(** [df.dropna()]: a row with a NaN cell goes. *)
Definition dropna_row (r : RawBar) : option Bar :=
  match raw_open r, raw_high r, raw_low r, raw_close r, raw_volume r with
  | Some o, Some h, Some l, Some c, Some v => Some (mkBar (raw_date r) o h l c v)
  | _, _, _, _, _ => None
  end.

Definition dropna (rs : list RawBar) : list Bar := omap dropna_row rs.

(** [df = bars.df.copy(); df.columns = [c.lower() ...]; df = df.dropna()]. *)
Definition prepare_frame (raw : RawFrame) : DataFrame :=
  mkDataFrame (raw_datetime_index raw) (map Py.lower (raw_columns raw))
              (dropna (raw_rows raw)).

(** The no-lookahead trim of [_get_daily_df]. *)
Definition trim_lookahead (today : Z) (df : DataFrame) : DataFrame :=
  if NO_LOOKAHEAD && datetime_index df && (3 <=? len (rows df))%Z then
    match last (rows df) with
    | Some b =>
        if (today <=? bar_date b)%Z
        then mkDataFrame (datetime_index df) (columns df) (Py.drop_last (rows df))
        else df
    | None => df
    end
  else df.

Definition _get_daily_df (h : Host) (symbol : string) (length : Z)
  : M (option DataFrame) :=
  let today := get_date h in
  let* s := get_state in
  (if decide (_cache_day s = Some today) then ret tt
   else modify (set_cache (Some today) ∅)) ;;
  let sym := _src_symbol h symbol in
  let key := (sym, length) in
  let* s := get_state in
  match _hist_cache s !! key with
  | Some df => ret (Some df)
  | None =>
      match get_historical_prices h sym length with
      | Some raw =>
          let df := prepare_frame raw in
          let df := trim_lookahead today df in
          modify (λ s, set_cache (_cache_day s) (<[key := df]> (_hist_cache s)) s) ;;
          ret (Some df)
      | None =>
          log_message (LogDataFailed sym length) ;;
          ret None
      end
  end.

(* ================================================================= *)
(** ** Indicators *)

Definition has_column (c : string) (df : DataFrame) : bool :=
  bool_decide (c ∈ columns df).

Definition closes (df : DataFrame) : list Q := map bar_close (rows df).

(** [series.rolling(w).mean().iloc[-1]]: NaN ([None]) while fewer than [w]
    values are in the window; [IndexError] on an empty series; pandas refuses
    a negative window. *)
Definition rolling_mean_last (w : Z) (xs : list Q) : Exc (option Q) :=
  if (w <? 0)%Z then Raise
  else match xs with
       | [] => Raise
       | _ =>
           if (w =? 0)%Z || (len xs <? w)%Z then Ok None
           else Ok (Some (Py.sum (Py.tail (Z.to_nat w) xs) / inject_Z w)%Q)
       end.

(** True range of one row; in the first row [prev_close] is NaN and
    [max(axis=1)] skips it. *)
Definition true_range_row (prev_close : option Q) (b : Bar) : Q :=
  let hl := Qabs (bar_high b - bar_low b) in
  match prev_close with
  | None => hl
  | Some pc =>
      Py.max (Py.max hl (Qabs (bar_high b - pc))) (Qabs (bar_low b - pc))
  end.

Fixpoint true_range (prev_close : option Q) (bs : list Bar) : list Q :=
  match bs with
  | [] => []
  | b :: r => true_range_row prev_close b :: true_range (Some (bar_close b)) r
  end.

(** The body of [_atr] after the frame is fetched. *)
Definition atr_of_frame (period : Z) (df : DataFrame) : Exc (option Q) :=
  let tr := true_range None (rows df) in
  match rolling_mean_last period tr with
  | Raise => Raise
  | Ok None => Ok None
  | Ok (Some atr) => if Py.Qleb atr 0 then Ok None else Ok (Some atr)
  end.

Definition atr_length (p : Profile) : Z := Z.max (atr_period p + 10) 80.

Definition _atr (h : Host) (symbol : string) : M (option Q) :=
  let* s := get_state in
  let length := atr_length (profile s) in
  let* df := _get_daily_df h symbol length in
  match df with
  | None => ret None
  | Some df =>
      if negb (has_column "high" df && has_column "low" df && has_column "close" df)
      then ret None
      else lift_exc (atr_of_frame (atr_period (profile s)) df)
  end.

(** [close.pct_change().dropna()]. *)
Fixpoint pct_change (prev : Q) (cs : list Q) : list Q :=
  match cs with
  | [] => []
  | c :: r => (c / prev - 1)%Q :: pct_change c r
  end.

Definition returns (cs : list Q) : list Q :=
  match cs with [] => [] | c :: r => pct_change c r end.

Definition _realized_vol (h : Host) (symbol : string) : M (option Q) :=
  let length := Z.max (VOL_LOOKBACK + 10) 120 in
  let* df := _get_daily_df h symbol length in
  match df with
  | None => ret None
  | Some df =>
      if negb (has_column "close" df) then ret None
      else
        let rets := returns (closes df) in
        if (len rets <? 25)%Z then ret None
        else match pandas_std_annualized h (Py.tail (Z.to_nat VOL_LOOKBACK) rets) with
             | None => ret None
             | Some vol => if Py.Qleb vol 0 then ret None else ret (Some vol)
             end
  end.

(* ================================================================= *)
(** ** Regime: SPY trend and breadth dial *)

(** The shared test of [_spy_trend_bull] and [_breadth_fraction]: [None] when
    the frame is unusable, otherwise whether the last close is above SMA200. *)
Definition above_sma (df : option DataFrame) : M (option bool) :=
  match df with
  | None => ret None
  | Some df =>
      if negb (has_column "close" df) || (len (rows df) <? TREND_SMA_DAYS)%Z
      then ret None
      else
        let close := closes df in
        let* last := lift_exc (iloc close (-1)) in
        let* sma := lift_exc (rolling_mean_last TREND_SMA_DAYS close) in
        match sma with
        | None => ret None
        | Some sma => ret (Some (Py.Qltb sma last))
        end
  end.

Definition _spy_trend_bull (h : Host) : M (option bool) :=
  let needed := (TREND_SMA_DAYS + 30)%Z in
  let* df := _get_daily_df h REGIME_SYMBOL needed in
  above_sma df.

(** One turn of the loop of [_breadth_fraction]. *)
Definition breadth_one (h : Host) (needed : Z) (acc : Z * Z) (sym : string) : M (Z * Z) :=
  let '(above, total) := acc in
  let* df := _get_daily_df h sym needed in
  let* r := above_sma df in
  match r with
  | None => ret (above, total)
  | Some up => ret (if up then (above + 1)%Z else above, (total + 1)%Z)
  end.

Definition _breadth_fraction (h : Host) : M (option Q) :=
  let needed := (TREND_SMA_DAYS + 30)%Z in
  let* s := get_state in
  let sample := Py.slice_to (Z.min (len (universe s)) BREADTH_SAMPLE) (universe s) in
  match sample with
  | [] => ret None
  | _ =>
      let* (above, total) := for_fold sample (0%Z, 0%Z) (breadth_one h needed) in
      if (total <? Z.max 30 (Qfloor ((3 # 10) * inject_Z (len sample))))%Z
      then ret None
      else ret (Some (inject_Z above / inject_Z total)%Q)
  end.

Definition clamp01 (x : Q) : Q := Py.max 0 (Py.min 1 x).

Definition breadth_dial (b : Q) : Q :=
  clamp01 ((b - BREADTH_LOW) / Py.max (1 # 1000000000) (BREADTH_HIGH - BREADTH_LOW)).

Definition _risk_on_fraction (h : Host) : M Q :=
  let* s := get_state in
  let bear := target_exposure_bear (profile s) in
  let bull := target_exposure_bull (profile s) in
  let* spy_bull := _spy_trend_bull h in
  let base := match spy_bull with
              | Some true => bull
              | Some false => bear
              | None => 1%Q
              end in
  let* s := get_state in
  if negb (_should_rebalance_today h s) then ret base
  else
    let* b := _breadth_fraction h in
    match b with
    | None => ret base
    | Some b =>
        let dial := breadth_dial b in
        let exp := (bear + dial * (bull - bear))%Q in
        ret (clamp01 exp)
    end.

(* ================================================================= *)
(** ** Ranking: trend + momentum ensemble *)

(** The local function [mom(lb)] of [_rank_candidates]; [close] and
    [last_close] are the variables it closes over. *)
Definition mom (close : list Q) (last_close : Q) (lb : Z) : Exc (option Q) :=
  if (len close <=? lb)%Z then Ok None
  else match iloc close (- lb) with
       | Raise => Raise
       | Ok past =>
           if Py.Qleb past 0 then Ok None
           else Ok (Some (last_close / past - 1)%Q)
       end.

(** [scored.sort(key=lambda x: x[1], reverse=True)]: stable, best first. *)
Fixpoint insert_desc (x : string * Q) (l : list (string * Q)) : list (string * Q) :=
  match l with
  | [] => [x]
  | y :: r => if Py.Qltb x.2 y.2 then y :: insert_desc x r else x :: l
  end.

Definition sort_desc (l : list (string * Q)) : list (string * Q) :=
  foldr insert_desc [] l.

Definition rank_one (h : Host) (needed : Z) (acc : list (string * Q) * Z) (sym : string)
  : M (list (string * Q) * Z) :=
  let '(scored, passed_trend) := acc in
  let* s := get_state in
  let* df := _get_daily_df h sym needed in
  match df with
  | None => ret acc
  | Some df =>
      if negb (has_column "close" df) || (len (rows df) <? needed - 5)%Z then ret acc
      else
        let close := closes df in
        let* last_close := lift_exc (iloc close (-1)) in
        if Py.Qltb last_close (min_price (profile s)) then ret acc
        else
          let* sma200 := lift_exc (rolling_mean_last TREND_SMA_DAYS close) in
          match sma200 with
          | None => ret acc
          | Some sma200 =>
              if Py.Qleb last_close sma200 then ret acc
              else
                let passed_trend := (passed_trend + 1)%Z in
                let* m12 := lift_exc (mom close last_close MOM_12M) in
                let* m6 := lift_exc (mom close last_close MOM_6M) in
                let* m3 := lift_exc (mom close last_close MOM_3M) in
                match m12, m6, m3 with
                | Some m12, Some m6, Some m3 =>
                    let* vol := _realized_vol h sym in
                    match vol with
                    | None => ret (scored, passed_trend)
                    | Some vol =>
                        let score := ((50 # 100) * m12 + (30 # 100) * m6 + (20 # 100) * m3
                                      - vol_penalty (profile s) * vol)%Q in
                        ret (scored ++ [(sym, score)], passed_trend)
                    end
                | _, _, _ => ret (scored, passed_trend)
                end
          end
  end.

Definition _rank_candidates (h : Host) : M (list string) :=
  let needed := (Z.max TREND_SMA_DAYS MOM_12M + 30)%Z in
  let* s := get_state in
  let* (scored, passed_trend) := for_fold (universe s) ([], 0%Z) (rank_one h needed) in
  let scored := sort_desc scored in
  let* s := get_state in
  (if _should_rebalance_today h s
   then log_message (LogRank passed_trend (len scored)) else ret tt) ;;
  ret (map fst scored).

(* ================================================================= *)
(** ** Selection under sector caps *)

(** The first loop of [_select_with_sector_caps]. *)
Fixpoint capped_pass (sectors : gmap string string) (cap max_pos : Z)
    (ranked : list string) (sector_count : gmap string Z) (selected : list string)
  : list string :=
  match ranked with
  | [] => selected
  | sym :: rest =>
      let sec := dict_get sectors sym "UNKNOWN" in
      if (cap <=? dict_get sector_count sec 0)%Z
      then capped_pass sectors cap max_pos rest sector_count selected
      else
        let selected := selected ++ [sym] in
        let sector_count := <[sec := (dict_get sector_count sec 0 + 1)%Z]> sector_count in
        if (max_pos <=? len selected)%Z then selected
        else capped_pass sectors cap max_pos rest sector_count selected
  end.

(** The fallback loop: fill without caps. *)
Fixpoint fallback_pass (max_pos : Z) (ranked : list string) (selected : list string)
  : list string :=
  match ranked with
  | [] => selected
  | sym :: rest =>
      if bool_decide (sym ∈ selected) then fallback_pass max_pos rest selected
      else
        let selected := selected ++ [sym] in
        if (max_pos <=? len selected)%Z then selected
        else fallback_pass max_pos rest selected
  end.

Definition _select_with_sector_caps (s : EngineState) (ranked : list string)
  : list string :=
  let max_pos := max_positions (profile s) in
  let cap := max_sector_positions (profile s) in
  match ranked with
  | [] => []
  | _ =>
      if decide (_sector_by_symbol s = ∅) then Py.slice_to max_pos ranked
      else
        let selected := capped_pass (_sector_by_symbol s) cap max_pos ranked ∅ [] in
        if (len selected <? max_pos)%Z then fallback_pass max_pos ranked selected
        else selected
  end.

(* ================================================================= *)
(** ** Stops and exits *)

Definition pop_highest_close (sym : string) : M unit :=
  modify (λ s, set_highest_close (delete sym (_highest_close s)) s).

Definition nonzero (q : Q) : bool := negb (Qeq_bool q 0).

(** The side that closes a position: ["sell" if qty > 0 else "buy"]. *)
Definition closing_side (qty : Q) : Side := if Py.Qltb 0 qty then Sell else Buy.

(** The running high of [_apply_trailing_stops]:
    [prev_high = self._highest_close.get(sym, px)], raised to [px] when
    [px > prev_high]. *)
Definition running_high (s : EngineState) (sym : string) (px : Q) : Q :=
  let prev_high := dict_get (_highest_close s) sym px in
  if Py.Qltb prev_high px then px else prev_high.

(** One turn of the loop of [_apply_trailing_stops]. *)
Definition trailing_stop_one (h : Host) (pos : Position) : M unit :=
  let sym := pos_symbol pos in
  let qty := pos_quantity pos in
  if Py.Qleb qty 0 then ret tt
  else
    match get_last_price h (_src_symbol h sym) with
    | None => ret tt
    | Some px =>
        if Py.Qleb px 0 then ret tt
        else
          let* s := get_state in
          let prev_high := running_high s sym px in
          modify (λ s, set_highest_close (<[sym := prev_high]> (_highest_close s)) s) ;;
          let* atr := _atr h sym in
          match atr with
          | None => ret tt
          | Some atr =>
              let* s := get_state in
              let stop := (prev_high - atr_mult_trail (profile s) * atr)%Q in
              if Py.Qleb px stop then
                log_message (LogExitTrail sym qty px stop) ;;
                submit_order (_src_symbol h sym) (Qabs qty) Sell ;;
                pop_highest_close sym
              else ret tt
          end
    end.

Definition _apply_trailing_stops (h : Host) : M unit :=
  for_each (get_positions h) (trailing_stop_one h).

(** One turn of the liquidation loop of [_apply_drawdown_breaker]. *)
Definition liquidate_one (h : Host) (pos : Position) : M unit :=
  let sym := pos_symbol pos in
  let qty := pos_quantity pos in
  (if nonzero qty
   then submit_order (_src_symbol h sym) (Qabs qty) (closing_side qty)
   else ret tt) ;;
  pop_highest_close sym.

Definition drawdown (peak pv : Q) : Q :=
  ((peak - pv) / Py.max (1 # 1000000000) peak)%Q.

Definition _apply_drawdown_breaker (h : Host) : M unit :=
  let pv := get_portfolio_value h in
  let* s := get_state in
  match _equity_peak s with
  | None => modify (set_equity_peak (Some pv))
  | Some peak =>
      if Py.Qltb peak pv then modify (set_equity_peak (Some pv))
      else
        let dd := drawdown peak pv in
        if Py.Qleb (max_drawdown (profile s)) dd then
          log_message (LogDDBreaker dd) ;;
          for_each (get_positions h) (liquidate_one h) ;;
          modify (set_cooldown_until (Some (get_date h + cooldown_days (profile s))%Z))
        else ret tt
  end.

(* ================================================================= *)
(** ** Rebalance: inverse-vol weights + ATR risk sizing *)

(** Step 1 of [_rebalance]: sell anything not in [selected]. *)
Definition sell_unselected_one (h : Host) (selected : list string) (pos : Position)
  : M unit :=
  let sym := pos_symbol pos in
  let qty := pos_quantity pos in
  if nonzero qty && negb (bool_decide (sym ∈ selected)) then
    submit_order (_src_symbol h sym) (Qabs qty) (closing_side qty) ;;
    pop_highest_close sym
  else ret tt.

(** Step 2: the [vols] dictionary. *)
Definition collect_vol (h : Host) (vols : list (string * Q)) (sym : string)
  : M (list (string * Q)) :=
  let* v := _realized_vol h sym in
  match v with
  | Some v => if Py.Qltb 0 v then ret (Py.dict_set sym v vols) else ret vols
  | None => ret vols
  end.

Definition inverse_vol_weights (vols : list (string * Q)) : list (string * Q) :=
  let inv := map (λ sv, (sv.1, (1 / sv.2)%Q)) vols in
  let inv_sum := Py.sum (map snd inv) in
  map (λ si, (si.1, (si.2 / inv_sum)%Q)) inv.

(** Step 3: the share count of one symbol. *)
Definition stop_distance (p : Profile) (atr : Q) : Q :=
  Py.max (1 # 100) (atr_mult_trail p * atr).

Definition risk_dollars (p : Profile) (pv w : Q) : Q :=
  Py.min (pv * total_risk_budget p * w) (pv * risk_per_entry_cap p).

Definition shares_by_risk (p : Profile) (pv w atr : Q) : Z :=
  Py.floordiv (risk_dollars p pv w) (stop_distance p atr).

Definition shares_by_capital (pv exposure w px : Q) : Z :=
  Py.floordiv (pv * exposure * w) px.

Definition target_shares (p : Profile) (pv exposure w px atr : Q) : Z :=
  Z.max 0 (Z.min (shares_by_risk p pv w atr) (shares_by_capital pv exposure w px)).

Definition size_one (h : Host) (pv exposure : Q) (acc : list (string * Z) * Q)
    (sw : string * Q) : M (list (string * Z) * Q) :=
  let '(desired_qty, invested) := acc in
  let '(sym, w) := sw in
  match get_last_price h (_src_symbol h sym) with
  | None => ret acc
  | Some px =>
      if Py.Qleb px 0 then ret acc
      else
        let* atr := _atr h sym in
        match atr with
        | None => ret acc
        | Some atr =>
            let* s := get_state in
            let shares := target_shares (profile s) pv exposure w px atr in
            if (shares <=? 0)%Z then ret acc
            else if Py.Qltb (inject_Z shares * px) MIN_ORDER_DOLLARS then ret acc
            else ret (Py.dict_set sym shares desired_qty,
                      (invested + inject_Z shares * px)%Q)
        end
  end.

(** Step 4: the order for the difference to the current holding. *)
Definition submit_delta (h : Host) (st : string * Z) : M unit :=
  let '(sym, target) := st in
  let cur := match get_position h (_src_symbol h sym) with
             | Some pos => Py.int (pos_quantity pos)
             | None => 0%Z
             end in
  let delta := (target - cur)%Z in
  if (delta =? 0)%Z then ret tt
  else
    match get_last_price h (_src_symbol h sym) with
    | None => ret tt
    | Some px =>
        if Py.Qleb px 0 then ret tt
        else if Py.Qltb (inject_Z (Z.abs delta) * px) MIN_ORDER_DOLLARS then ret tt
        else if (0 <? delta)%Z then
          submit_order (_src_symbol h sym) (inject_Z delta) Buy ;;
          let last := default 0%Q (get_last_price h (_src_symbol h sym)) in
          if Py.Qltb 0 last then
            modify (λ s, set_highest_close
              (<[sym := Py.max (dict_get (_highest_close s) sym last) last]>
                 (_highest_close s)) s)
          else ret tt
        else
          submit_order (_src_symbol h sym) (inject_Z (Z.abs delta)) Sell ;;
          if (cur + delta <=? 0)%Z then pop_highest_close sym else ret tt
    end.

Definition _rebalance (h : Host) (selected : list string) (exposure : Q) : M unit :=
  match selected with
  | [] => log_message LogRebalanceNoneSelected
  | _ =>
      let pv := get_portfolio_value h in
      let exposure := clamp01 exposure in
      for_each (get_positions h) (sell_unselected_one h selected) ;;
      let* vols := for_fold selected [] (collect_vol h) in
      match vols with
      | [] => log_message LogRebalanceNoVols
      | _ =>
          let weights := inverse_vol_weights vols in
          let* (desired_qty, invested) :=
            for_fold weights ([], 0%Q) (size_one h pv exposure) in
          match desired_qty with
          | [] => log_message LogRebalanceNoTargets
          | _ =>
              for_each desired_qty (submit_delta h) ;;
              if Qeq_bool pv 0 then raise
              else log_message
                     (LogRebalanceDone (len desired_qty) (invested / pv)%Q exposure)
          end
      end
  end.

(* ================================================================= *)
(** ** Main loop *)

Definition on_trading_iteration (h : Host) : M unit :=
  _apply_trailing_stops h ;;
  _apply_drawdown_breaker h ;;
  let* s := get_state in
  if _in_cooldown h s then log_message (LogCooldown (_cooldown_until s))
  else if negb (_should_rebalance_today h s) then ret tt
  else
    let* exposure := _risk_on_fraction h in
    let* ranked := _rank_candidates h in
    let* s := get_state in
    let selected := _select_with_sector_caps s ranked in
    log_message (LogSelect selected exposure) ;;
    _rebalance h selected exposure ;;
    modify (set_last_rebalance_day (Some (get_date h))).

(** A run of the engine: one host snapshot per trading step, each step
    starting from the state the previous one left.  An uncaught exception
    ends the run. *)
Fixpoint run (hs : list Host) (s : EngineState) : list (Exc unit * EngineState * list Event) :=
  match hs with
  | [] => []
  | h :: r =>
      let o := on_trading_iteration h s in
      match result_of o with
      | Ok _ => o :: run r (state_of o)
      | Raise => [o]
      end
  end.

(* ================================================================= *)
(** ** Concrete hosts and states used in the examples *)

Module Scenario.

Definition ohlcv : list string := ["Open"; "High"; "Low"; "Close"; "Volume"].

(** A bar whose high is [hi] and whose open, low and close are [c]. *)
Definition bar (d : Z) (hi c : Q) : RawBar :=
  mkRawBar d (Some c) (Some hi) (Some c) (Some c) (Some 1000%Q).

(** [n] daily bars dated [d0 + 1 .. d0 + n]. *)
Definition bars (d0 : Z) (n : nat) (hi c : Q) : list RawBar :=
  map (λ i, bar (d0 + Z.of_nat i) hi c) (seq 1 n).

Definition frame (rs : list RawBar) : RawFrame := mkRawFrame true ohlcv rs.

(** 230 flat bars at 10, and the same with a last close of 20. *)
Definition flat_frame : RawFrame := frame (bars 0 230 10 10).
Definition up_frame : RawFrame := frame (bars 0 229 10 10 ++ [bar 230 20 20]).

Definition letters : list ascii :=
  ["A"; "B"; "C"; "D"; "E"; "F"; "G"; "H"; "I"; "J"; "K"; "L"; "M"; "N"; "O"]%char.

(** Fifteen tickers above their SMA200 and fifteen at it. *)
Definition breadth_universe : list string :=
  map (λ c, String "U" (String c EmptyString)) letters ++ map (λ c, String "F" (String c EmptyString)) letters.

Definition breadth_host : Host :=
  mkHost 1000 true 100000 [] (λ _, None) (λ _, None)
    (λ sym _, Some (if String.prefix "U" sym || String.eqb sym "SPY"
                    then up_frame else flat_frame))
    (λ _, None).

Definition breadth_state : EngineState :=
  mkState balanced breadth_universe None ∅ None None None ∅ ∅.

End Scenario.

(* ================================================================= *)
(** ** Specification-side definitions *)

(** The momentum of the specification, in its words: the last close over the
    close [lookback] bars before the last bar, minus one; none when the series
    is shorter than [lookback + 1] or that close is not positive. *)
Definition Momentum_spec (close_series : list Q) (lookback : Z) : option Q :=
  if (len close_series <? lookback + 1)%Z then None
  else match last close_series,
             close_series !! Z.to_nat (len close_series - 1 - lookback) with
       | Some last_close, Some past =>
           if Py.Qleb past 0 then None else Some (last_close / past - 1)%Q
       | _, _ => None
       end.

(** A rising close series 1, 2, ..., 282. *)
Definition rising_closes : list Q := map (λ i, inject_Z (Z.of_nat i)) (seq 1 282).

(** How often a sector occurs in a selection: with the selector's bucket for
    unmapped symbols, and counting mapped symbols only. *)
Definition sector_load (sectors : gmap string string) (sec : string) (l : list string) : Z :=
  len (filter (λ x, dict_get sectors x "UNKNOWN" = sec) l).

Definition mapped_load (sectors : gmap string string) (sec : string) (l : list string) : Z :=
  len (filter (λ x, sectors !! x = Some sec) l).

(** The selector property as the specification states it: at most
    [max_positions] symbols, in rank order, and no sector above the cap except
    through the fallback pass, which runs only when the capped pass fell
    short. *)
Definition selector_claim_as_stated : Prop :=
  ∀ (s : EngineState) (ranked : list string),
    (1 <= max_positions (profile s))%Z →
    (1 <= max_sector_positions (profile s))%Z →
    let out := _select_with_sector_caps s ranked in
    (len out <= max_positions (profile s))%Z
    ∧ out `sublist_of` ranked
    ∧ ∃ first extra,
        out = first ++ extra
        ∧ (∀ sec, (mapped_load (_sector_by_symbol s) sec first
                   <= max_sector_positions (profile s))%Z)
        ∧ (extra ≠ [] → (len first < max_positions (profile s))%Z).

Module SelectorScenario.

Definition sectors : gmap string string :=
  <["AAA" := "Tech"]> (<["BBB" := "Tech"]> (<["CCC" := "Finance"]> ∅)).

(** Three slots, one per sector. *)
Definition prof : Profile :=
  mkProfile 3 14 (1 # 100) (7 # 100) (98 # 100) (20 # 100) 5 (25 # 100) 1 14 (27 # 10)
            (20 # 100) 10.

Definition state : EngineState := mkState prof [] None ∅ None None None ∅ sectors.

Definition ranked : list string := ["AAA"; "BBB"; "CCC"].

End SelectorScenario.

(** The key under which [_get_daily_df] caches a frame, and whether a call
    has to fetch. *)
Definition cache_key (h : Host) (symbol : string) (length : Z) : string * Z :=
  (_src_symbol h symbol, length).

Definition cache_miss (h : Host) (s : EngineState) (symbol : string) (length : Z) : Prop :=
  _cache_day s ≠ Some (get_date h) ∨ _hist_cache s !! cache_key h symbol length = None.

(** The no-lookahead property as the specification states it: whatever the
    length of the fetched series, a last bar dated on or after the trading
    date is dropped before the series is cached and returned. *)
Definition no_lookahead_claim_as_stated : Prop :=
  ∀ (h : Host) (s : EngineState) (symbol : string) (length : Z) (raw : RawFrame) (b : Bar),
    cache_miss h s symbol length →
    get_historical_prices h (_src_symbol h symbol) length = Some raw →
    raw_datetime_index raw = true →
    last (rows (prepare_frame raw)) = Some b →
    (get_date h <= bar_date b)%Z →
    ∃ df,
      result_of (_get_daily_df h symbol length s) = Ok (Some df)
      ∧ _hist_cache (state_of (_get_daily_df h symbol length s))
          !! cache_key h symbol length = Some df
      ∧ rows df = Py.drop_last (rows (prepare_frame raw)).

(** The ATR history requirement as the specification states it: with fewer
    than [atr_period + 10] bars the result is none. *)
Definition atr_history_claim_as_stated : Prop :=
  ∀ (h : Host) (s : EngineState) (symbol : string) (df : DataFrame),
    result_of (_get_daily_df h symbol (atr_length (profile s)) s) = Ok (Some df) →
    (len (rows df) < atr_period (profile s) + 10)%Z →
    result_of (_atr h symbol s) = Ok None.

Module BarScenario.

(** The data source answers every request with [rs]; one long position. *)
Definition host (today : Z) (rs : list RawBar) (pv : Q) (held : list Position)
    (price : option Q) : Host :=
  mkHost today true pv held
    (λ sym, list_find (λ p, pos_symbol p = sym) held ≫= λ ip, Some ip.2)
    (λ _, price)
    (λ _ _, Some (Scenario.frame rs))
    (λ _, Some (1 # 5)%Q).

Definition fresh (p : Profile) : EngineState :=
  mkState p [] None ∅ None None None ∅ ∅.

(** Two bars, the second dated on the trading day 100. *)
Definition two_bars : list RawBar := [Scenario.bar 99 10 10; Scenario.bar 100 11 11].

(** Three bars, the third dated on the trading day 100. *)
Definition three_bars : list RawBar :=
  [Scenario.bar 98 10 10; Scenario.bar 99 10 10; Scenario.bar 100 11 11].

(** Fourteen bars with a true range of one each. *)
Definition fourteen_bars : list RawBar := Scenario.bars 0 14 11 10.

End BarScenario.

(** The trailing-stop property as the specification states it: no sell while
    the price is at or above the running high minus the stop distance. *)
Definition trailing_stop_claim_as_stated : Prop :=
  ∀ (h : Host) (s : EngineState) (pos : Position) (px a : Q),
    (0 < pos_quantity pos)%Q →
    get_last_price h (_src_symbol h (pos_symbol pos)) = Some px →
    (0 < px)%Q →
    let sym := pos_symbol pos in
    let high := running_high s sym px in
    result_of (_atr h sym (set_highest_close (<[sym := high]> (_highest_close s)) s))
      = Ok (Some a) →
    (high - atr_mult_trail (profile s) * a <= px)%Q →
    ∀ qty, Submit (mkOrder (_src_symbol h sym) qty Sell)
           ∉ events_of (trailing_stop_one h pos s).

Module StopScenario.

(** Fourteen bars with a true range of five: the ATR is 5 and, with the
    balanced multiplier 2.7, the stop distance is 13.5. *)
Definition rs : list RawBar := Scenario.bars 0 14 105 100.

Definition position : Position := mkPosition "AAA" 10.

Definition host (price : Q) : Host :=
  BarScenario.host 100 rs 100000 [position] (Some price).

(** The high of AAA is tracked at 113.5. *)
Definition state : EngineState :=
  mkState balanced [] None (<["AAA" := (1135 # 10)%Q]> ∅) None None None ∅ ∅.

End StopScenario.

(** The drawdowns the breaker reported in a trace; the breaker fired in a
    step when it reported one. *)
Definition dd_logs (ev : list Event) : list Q :=
  omap (λ e, match e with Log (LogDDBreaker dd) => Some dd | _ => None end) ev.

Definition breaker_fired (o : Exc unit * EngineState * list Event) : bool :=
  match dd_logs (events_of o) with [] => false | _ => true end.

(** The breaker's own test: a peak is recorded, the portfolio value does not
    exceed it, and the drawdown from it reaches [max_drawdown]. *)
Definition breach (h : Host) (s : EngineState) : Prop :=
  ∃ peak, _equity_peak s = Some peak
          ∧ (get_portfolio_value h <= peak)%Q
          ∧ (max_drawdown (profile s) <= drawdown peak (get_portfolio_value h))%Q.

(** The portfolio value sets a new all-time peak in this step. *)
Definition new_peak (h : Host) (s : EngineState) : Prop :=
  match _equity_peak s with
  | Some peak => (peak < get_portfolio_value h)%Q
  | None => True
  end.

(** What [on_trading_iteration] does after the two guards. *)
Definition gate_and_rebalance (h : Host) : M unit :=
  let* s := get_state in
  if _in_cooldown h s then log_message (LogCooldown (_cooldown_until s))
  else if negb (_should_rebalance_today h s) then ret tt
  else
    let* exposure := _risk_on_fraction h in
    let* ranked := _rank_candidates h in
    let* s := get_state in
    let selected := _select_with_sector_caps s ranked in
    log_message (LogSelect selected exposure) ;;
    _rebalance h selected exposure ;;
    modify (set_last_rebalance_day (Some (get_date h))).

(** The breaker property as the specification states it: between two steps
    on which the breaker fires there is a step on which the portfolio value
    set a new all-time peak. *)
Definition one_shot_claim_as_stated : Prop :=
  ∀ (hs : list Host) (s0 : EngineState) (i j : nat)
    (oi oj : Exc unit * EngineState * list Event),
    (i < j)%nat →
    run hs s0 !! i = Some oi → breaker_fired oi = true →
    run hs s0 !! j = Some oj → breaker_fired oj = true →
    ∃ (k : nat) (hk : Host) (before : Exc unit * EngineState * list Event),
      (i < k < j)%nat
      ∧ hs !! k = Some hk
      ∧ run hs s0 !! (k - 1)%nat = Some before
      ∧ new_peak hk (state_of before).

Module BreakerScenario.

(** Day 101: 100,000 with AAA held at 120.  Day 102: 70,000 with AAA at 110.
    Day 103: still 70,000, AAA liquidated. *)
Definition day1 : Host :=
  BarScenario.host 101 StopScenario.rs 100000 [StopScenario.position] (Some 120%Q).
Definition day2 : Host :=
  BarScenario.host 102 StopScenario.rs 70000 [StopScenario.position] (Some 110%Q).
Definition day3 : Host :=
  BarScenario.host 103 StopScenario.rs 70000 [] (Some 110%Q).

Definition days : list Host := [day1; day2; day3].

Definition start : EngineState := BarScenario.fresh balanced.

End BreakerScenario.

Module LockoutScenario.

(** The days of [BreakerScenario], and day 113: still 70,000 in cash, one day
    after the cooldown set on day 102 has run out. *)
Definition day4 : Host :=
  BarScenario.host 113 StopScenario.rs 70000 [] (Some 110%Q).

Definition days : list Host := BreakerScenario.days ++ [day4].

End LockoutScenario.

(** The frame of a whole trading step outside the breaker: the profile, the
    equity peak and the cooldown date stay. *)
Definition guard_frame (s s' : EngineState) : Prop :=
  profile s' = profile s
  ∧ _equity_peak s' = _equity_peak s
  ∧ _cooldown_until s' = _cooldown_until s.

(** The dollars a sizing decision allocates: shares times last price, summed
    over the sized symbols. *)
Definition allocated (h : Host) (desired_qty : list (string * Z)) : Q :=
  Py.sum (map (λ st, inject_Z st.2 * default 0 (get_last_price h (_src_symbol h st.1)))%Q
              desired_qty).

Module SizingScenario.

(** Thirty bars with a true range of five; every volatility reading is 0.20;
    every last price is 100; the portfolio is worth 100,000. *)
Definition rs : list RawBar := Scenario.bars 0 30 105 100.

Definition host : Host := BarScenario.host 100 rs 100000 [] (Some 100%Q).

Definition state : EngineState := BarScenario.fresh balanced.

Definition selected : list string := ["AAA"; "BBB"].

End SizingScenario.

(* ================================================================= *)
(** ** Vocabulary of the statements *)

(** A computation [keeps P E] when every run relates the final state to the
    initial one by [P] and emits only events in [E]. *)
Definition keeps (P : EngineState → EngineState → Prop) (E : Event → Prop)
    {A} (m : M A) : Prop :=
  ∀ s, P s (state_of (m s)) ∧ Forall E (events_of (m s)).

(** A computation that cannot raise. *)
Definition never_raises {A} (m : M A) : Prop := ∀ s, ∃ a, result_of (m s) = Ok a.

(** Frames: what a computation may change. *)
Definition only_cache (s s' : EngineState) : Prop :=
  profile s' = profile s ∧ universe s' = universe s
  ∧ _last_rebalance_day s' = _last_rebalance_day s
  ∧ _highest_close s' = _highest_close s
  ∧ _equity_peak s' = _equity_peak s
  ∧ _cooldown_until s' = _cooldown_until s
  ∧ _sector_by_symbol s' = _sector_by_symbol s.

Definition only_cache_and_highs (s s' : EngineState) : Prop :=
  profile s' = profile s ∧ universe s' = universe s
  ∧ _last_rebalance_day s' = _last_rebalance_day s
  ∧ _equity_peak s' = _equity_peak s
  ∧ _cooldown_until s' = _cooldown_until s
  ∧ _sector_by_symbol s' = _sector_by_symbol s.

(** Events: a diagnostic other than the breaker's, and anything but the
    breaker's diagnostic. *)
Definition quiet (e : Event) : Prop :=
  match e with
  | Log (LogDDBreaker _) => False
  | Log _ => True
  | Submit _ => False
  end.

Definition not_breaker (e : Event) : Prop :=
  match e with Log (LogDDBreaker _) => False | _ => True end.

(** The rolling mean the ATR is read from. *)
Definition atr_mean (period : Z) (df : DataFrame) : Q :=
  (Py.sum (Py.tail (Z.to_nat period) (true_range None (rows df))) / inject_Z period)%Q.

(** The liquidation loop of the breaker, as one computation. *)
Definition liquidation (h : Host) (s : EngineState) : Exc unit * EngineState * list Event :=
  for_each (get_positions h) (liquidate_one h) s.

(** Positive volatility readings under distinct symbols. *)
Definition positive_vols (vols : list (string * Q)) : Prop :=
  Forall (λ sv, 0 < sv.2)%Q vols ∧ NoDup (map fst vols).

(** What the sizing loop has established after the weights [pre]. *)
Definition sizing_invariant (h : Host) (p : Profile) (pv e : Q)
    (pre : list (string * Q)) (acc : list (string * Z) * Q) : Prop :=
  NoDup (map fst pre) → Forall (λ sw : string * Q, 0 < sw.2)%Q pre →
  (∀ sym n, (sym, n) ∈ acc.1 →
     ∃ w px atr s_a,
       (sym, w) ∈ pre
       ∧ get_last_price h (_src_symbol h sym) = Some px ∧ (0 < px)%Q
       ∧ result_of (_atr h sym s_a) = Ok (Some atr)
       ∧ n = target_shares p pv e w px atr ∧ (0 < n)%Z)
  ∧ (acc.2 == allocated h acc.1)%Q
  ∧ ((acc.1 = [] ∧ (acc.2 == 0)%Q)
     ∨ (acc.1 ≠ [] ∧ (0 < pv * e)%Q ∧ (acc.2 <= pv * e * Py.sum (map snd pre))%Q)).

(* ================================================================= *)
(** ** Vocabulary of the further properties *)

(** A list of scored symbols, best score first. *)
Fixpoint descending (l : list (string * Q)) : Prop :=
  match l with
  | [] => True
  | x :: r => Forall (λ y, (y.2 <= x.2)%Q) r ∧ descending r
  end.

(** The entries of a scored list whose score equals [q], in their order. *)
Definition with_score (q : Q) (l : list (string * Q)) : list (string * Q) :=
  filter (λ x, Qeq_bool x.2 q = true) l.

(** The configuration of the engine: what [initialize] sets and a trading
    step only reads. *)
Definition config_frame (s s' : EngineState) : Prop :=
  profile s' = profile s ∧ universe s' = universe s
  ∧ _sector_by_symbol s' = _sector_by_symbol s.

(** The one diagnostic of the data helpers. *)
Definition data_failure (e : Event) : Prop :=
  match e with Log (LogDataFailed _ _) => True | _ => False end.

(** What the trailing-stop loop may emit: the sale of a long position of the
    host, in full, at a known positive price, and its diagnostics. *)
Definition trailing_exit (h : Host) (e : Event) : Prop :=
  match e with
  | Submit o =>
      ∃ pos px, pos ∈ get_positions h ∧ (0 < pos_quantity pos)%Q
                ∧ get_last_price h (_src_symbol h (pos_symbol pos)) = Some px ∧ (0 < px)%Q
                ∧ o = mkOrder (_src_symbol h (pos_symbol pos)) (pos_quantity pos) Sell
  | Log (LogExitTrail _ _ _ _) | Log (LogDataFailed _ _) => True
  | Log _ => False
  end.

(** What a step that does not rebalance may emit: the closing order of a
    position of the host, in full, and the diagnostics of the guards. *)
Definition exit_event (h : Host) (e : Event) : Prop :=
  match e with
  | Submit o =>
      ∃ pos, pos ∈ get_positions h ∧ ¬ (pos_quantity pos == 0)%Q
             ∧ o = mkOrder (_src_symbol h (pos_symbol pos)) (Qabs (pos_quantity pos))
                           (closing_side (pos_quantity pos))
  | Log (LogExitTrail _ _ _ _) | Log (LogDataFailed _ _)
  | Log (LogDDBreaker _) | Log (LogCooldown _) => True
  | Log _ => False
  end.

(** The frame of the two guards: the configuration and the rebalance date
    stay. *)
Definition schedule_frame (s s' : EngineState) : Prop :=
  config_frame s s' ∧ _last_rebalance_day s' = _last_rebalance_day s.

(** What [submit_delta] may emit for a target: one order that moves the
    holding [cur] to [target], worth at least [MIN_ORDER_DOLLARS] at the
    last price. *)
Definition delta_order (h : Host) (sym : string) (target : Z) (o : Order) : Prop :=
  ∃ (cur n : Z) (px : Q),
    cur = match get_position h (_src_symbol h sym) with
          | Some pos => Py.int (pos_quantity pos)
          | None => 0%Z
          end
    ∧ get_last_price h (_src_symbol h sym) = Some px ∧ (0 < px)%Q
    ∧ (0 < n)%Z ∧ (MIN_ORDER_DOLLARS <= inject_Z n * px)%Q
    ∧ ((o = mkOrder (_src_symbol h sym) (inject_Z n) Buy ∧ (cur + n = target)%Z)
       ∨ (o = mkOrder (_src_symbol h sym) (inject_Z n) Sell ∧ (cur - n = target)%Z)).

Definition delta_event (h : Host) (sym : string) (target : Z) (e : Event) : Prop :=
  match e with Submit o => delta_order h sym target o | Log _ => False end.

(** What [_rebalance] may emit: the closing order of a held position that is
    not selected, a delta order for a selected symbol, and its own and the
    data helpers' diagnostics. *)
Definition rebalance_event (h : Host) (selected : list string) (e : Event) : Prop :=
  match e with
  | Submit o =>
      (∃ pos, pos ∈ get_positions h ∧ ¬ (pos_quantity pos == 0)%Q
              ∧ (pos_symbol pos ∉ selected)
              ∧ o = mkOrder (_src_symbol h (pos_symbol pos)) (Qabs (pos_quantity pos))
                            (closing_side (pos_quantity pos)))
      ∨ (∃ sym target, sym ∈ selected ∧ (0 < target)%Z ∧ delta_order h sym target o)
  | Log (LogDataFailed _ _) | Log LogRebalanceNoneSelected | Log LogRebalanceNoVols
  | Log LogRebalanceNoTargets | Log (LogRebalanceDone _ _ _) => True
  | Log _ => False
  end.

(** The closing order of a position, none for a flat one: what the
    liquidation loop of the breaker submits for it. *)
Definition closing_order (h : Host) (pos : Position) : option Order :=
  if nonzero (pos_quantity pos)
  then Some (mkOrder (_src_symbol h (pos_symbol pos)) (Qabs (pos_quantity pos))
                     (closing_side (pos_quantity pos)))
  else None.

Module FailureScenario.

(** The data source answers the ATR request (80 bars) with a frame that has
    the price columns and no row, and every other request with thirty bars;
    AAA is held long and quoted at 100. *)
Definition host : Host :=
  mkHost 100 true 100000 [StopScenario.position]
    (λ _, None) (λ _, Some 100%Q)
    (λ _ length, Some (Scenario.frame (if (length =? 80)%Z then [] else SizingScenario.rs)))
    (λ _, Some (1 # 5)%Q).

Definition state : EngineState := BarScenario.fresh balanced.

End FailureScenario.

(** The dollars a sizing plan puts at risk: shares times stop distance,
    summed over the planned entries [(symbol, shares, stop distance)]. *)
Definition planned_risk (plan : list (string * Z * Q)) : Q :=
  Py.sum (map (λ x, inject_Z x.1.2 * x.2)%Q plan).

(** The state in which the sizing loop of [_rebalance], started in [s],
    reaches the weight that follows the weights [pre]. *)
Definition sizing_state (h : Host) (pv e : Q) (s : EngineState)
    (pre : list (string * Q)) : EngineState :=
  state_of (for_fold pre ([], 0%Q) (size_one h pv e) s).

(** The sizing loop over [weights], started in [s], sizes [sym] with [n]
    shares: [sym] carries a weight [w], has a positive last price, the loop
    reads an ATR for it in the state it reaches it in, and [n] is the share
    count of the two ceilings for these readings, positive and worth at
    least [MIN_ORDER_DOLLARS]. *)
Definition sized_in_loop (h : Host) (pv e : Q) (s : EngineState)
    (weights : list (string * Q)) (sym : string) (n : Z) : Prop :=
  ∃ pre w post px atr,
    weights = pre ++ (sym, w) :: post
    ∧ get_last_price h (_src_symbol h sym) = Some px ∧ (0 < px)%Q
    ∧ result_of (_atr h sym (sizing_state h pv e s pre)) = Ok (Some atr)
    ∧ n = target_shares (profile s) pv e w px atr
    ∧ (0 < n)%Z
    ∧ (MIN_ORDER_DOLLARS <= inject_Z n * px)%Q.

(** One entry [(symbol, shares, stop distance)] of a sizing plan over the
    weights [pre]: the stop distance is the one of the ATR the sizing loop
    read for the symbol, in the state in which it reached it, and the entry
    is within the per-entry cap. *)
Definition plan_entry (h : Host) (p : Profile) (pv e : Q) (s : EngineState)
    (pre : list (string * Q)) (x : string * Z * Q) : Prop :=
  ∃ pre1 w post1 atr,
    pre = pre1 ++ (x.1.1, w) :: post1
    ∧ result_of (_atr h x.1.1 (sizing_state h pv e s pre1)) = Ok (Some atr)
    ∧ x.2 = stop_distance p atr
    ∧ (inject_Z x.1.2 * x.2 <= pv * risk_per_entry_cap p)%Q.

(** What the sizing loop has established about risk after the weights
    [pre]: a plan entry for every sized symbol, and the total within the
    budget share of [pre]. *)
Definition risk_invariant (h : Host) (p : Profile) (pv e : Q) (s : EngineState)
    (pre : list (string * Q)) (acc : list (string * Z) * Q) : Prop :=
  (∀ k, k ∈ map fst acc.1 → k ∈ map fst pre)
  ∧ ∃ plan : list (string * Z * Q),
      map fst plan = acc.1
      ∧ Forall (plan_entry h p pv e s pre) plan
      ∧ (acc.1 ≠ [] →
         (0 < pv * total_risk_budget p)%Q
         ∧ (planned_risk plan <= pv * total_risk_budget p * Py.sum (map snd pre))%Q).

(** The state in which the trailing-stop pass reaches the position after
    [pre], and the state in which it reads that position's ATR: the running
    high is recorded first. *)
Definition stops_state (h : Host) (s : EngineState) (pre : list Position) : EngineState :=
  state_of (for_each pre (trailing_stop_one h) s).

Definition stop_atr_state (s : EngineState) (sym : string) (px : Q) : EngineState :=
  set_highest_close (<[sym := running_high s sym px]> (_highest_close s)) s.

(** The trailing-stop pass fails at a position: the positions before it were
    processed, the position is long and has a positive price, and its ATR
    computation raises in the state the pass reads it in. *)
Definition stops_atr_failure (h : Host) (s : EngineState) : Prop :=
  ∃ pre pos post px,
    get_positions h = pre ++ pos :: post
    ∧ result_of (for_each pre (trailing_stop_one h) s) = Ok tt
    ∧ (0 < pos_quantity pos)%Q
    ∧ get_last_price h (_src_symbol h (pos_symbol pos)) = Some px ∧ (0 < px)%Q
    ∧ result_of (_atr h (pos_symbol pos)
                   (stop_atr_state (stops_state h s pre) (pos_symbol pos) px)) = Raise.

(** The sizing loop fails at a weighted symbol: the weights before it were
    processed, the symbol has a positive price, and its ATR computation
    raises in the state in which the loop reaches it. *)
Definition sizing_atr_failure (h : Host) (pv e : Q) (s : EngineState)
    (weights : list (string * Q)) : Prop :=
  ∃ pre sym w post px,
    weights = pre ++ (sym, w) :: post
    ∧ (∃ acc, result_of (for_fold pre ([], 0%Q) (size_one h pv e) s) = Ok acc)
    ∧ get_last_price h (_src_symbol h sym) = Some px ∧ (0 < px)%Q
    ∧ result_of (_atr h sym (sizing_state h pv e s pre)) = Raise.

(** [_rebalance] fails in its sizing loop: the selection is not empty, the
    volatility loop returned at least one reading, and the sizing loop over
    the inverse-volatility weights, started in the state the volatility loop
    left, fails at one of them. *)
Definition rebalance_atr_failure (h : Host) (selected : list string) (exposure : Q)
    (s : EngineState) : Prop :=
  let s1 := state_of (for_each (get_positions h) (sell_unselected_one h selected) s) in
  let s2 := state_of (for_fold selected [] (collect_vol h) s1) in
  selected ≠ []
  ∧ ∃ vols,
      result_of (for_fold selected [] (collect_vol h) s1) = Ok vols
      ∧ vols ≠ []
      ∧ sizing_atr_failure h (get_portfolio_value h) (clamp01 exposure) s2
          (inverse_vol_weights vols).

(** The state in which a trading step decides whether to rebalance: after
    the trailing stops and the drawdown breaker. *)
Definition gate_state (h : Host) (s : EngineState) : EngineState :=
  state_of (_apply_drawdown_breaker h (state_of (_apply_trailing_stops h s))).

(** A trading step fails in its rebalance: the trailing stops completed, the
    step is outside the cooldown and a rebalance is due, and [_rebalance],
    called with the exposure, the ranking and the selection the step
    computed, fails in its sizing loop. *)
Definition step_rebalance_failure (h : Host) (s : EngineState) : Prop :=
  let sb := gate_state h s in
  let sr := state_of (_risk_on_fraction h sb) in
  let s2 := state_of (_rank_candidates h sr) in
  result_of (_apply_trailing_stops h s) = Ok tt
  ∧ _in_cooldown h sb = false
  ∧ _should_rebalance_today h sb = true
  ∧ ∃ e ranked,
      result_of (_risk_on_fraction h sb) = Ok e
      ∧ result_of (_rank_candidates h sr) = Ok ranked
      ∧ rebalance_atr_failure h (_select_with_sector_caps s2 ranked) e s2.

Module RegimeScenario.

(** Three more markets for the universe of [Scenario.breadth_state].  Weak:
    SPY above its SMA200, every ticker at its SMA200 (breadth 0).  Strong:
    SPY at its SMA200, every ticker above its own (breadth 1).  Dark: the
    data source answers no request. *)
Definition weak_host : Host :=
  mkHost 1000 true 100000 [] (λ _, None) (λ _, None)
    (λ sym _, Some (if String.eqb sym "SPY" then Scenario.up_frame else Scenario.flat_frame))
    (λ _, None).

Definition strong_host : Host :=
  mkHost 1000 true 100000 [] (λ _, None) (λ _, None)
    (λ sym _, Some (if String.eqb sym "SPY" then Scenario.flat_frame else Scenario.up_frame))
    (λ _, None).

Definition dark_host : Host :=
  mkHost 1000 true 100000 [] (λ _, None) (λ _, None) (λ _ _, None) (λ _, None).

End RegimeScenario.

Module RankScenario.

(** 290 daily bars whose close rises by one a day from 5 to 294; every
    volatility reading is 0.20; the universe is AAA and BBB. *)
Definition rs : list RawBar :=
  map (λ i, Scenario.bar (Z.of_nat i) (inject_Z (Z.of_nat i) + 5) (inject_Z (Z.of_nat i) + 4))
      (seq 1 290).

Definition host : Host := BarScenario.host 1000 rs 100000 [] (Some 100%Q).

Definition state : EngineState :=
  mkState balanced ["AAA"; "BBB"] None ∅ None None None ∅ ∅.

End RankScenario.

(* ================================================================= *)
(** * Properties *)

(** ** The engine monad *)

Lemma bind_get_state {B} (k : EngineState → M B) s : bind get_state k s = k s s.
Proof. unfold bind, get_state. by destruct (k s s) as [[r s2] e2]. Qed.

Lemma bind_ret {A B} (a : A) (k : A → M B) s : bind (ret a) k s = k a s.
Proof. unfold bind, ret. by destruct (k a s) as [[r s2] e2]. Qed.

Lemma bind_modify {B} f (k : unit → M B) s : bind (modify f) k s = k tt (f s).
Proof. unfold bind, modify. by destruct (k tt (f s)) as [[r s2] e2]. Qed.

Lemma bind_emit {B} e (k : unit → M B) s :
  bind (emit e) k s = (result_of (k tt s), state_of (k tt s), e :: events_of (k tt s)).
Proof. unfold bind, emit. by destruct (k tt s) as [[r s2] e2]. Qed.

Lemma bind_result_Ok {A B} (m : M A) (k : A → M B) s a :
  result_of (m s) = Ok a →
  bind m k s = (result_of (k a (state_of (m s))), state_of (k a (state_of (m s))),
                events_of (m s) ++ events_of (k a (state_of (m s)))).
Proof.
  intros H. unfold bind. destruct (m s) as [[r s1] e1]. cbn in H. subst r. cbn.
  by destruct (k a s1) as [[r s2] e2].
Qed.

Lemma bind_result_Raise {A B} (m : M A) (k : A → M B) s :
  result_of (m s) = Raise → bind m k s = (Raise, state_of (m s), events_of (m s)).
Proof.
  intros H. unfold bind. destruct (m s) as [[r s1] e1]. cbn in H. by subst r.
Qed.

Lemma bind_Ok_inv {A B} (m : M A) (k : A → M B) s b :
  result_of (bind m k s) = Ok b →
  ∃ a, result_of (m s) = Ok a ∧ result_of (k a (state_of (m s))) = Ok b.
Proof.
  intros H. destruct (result_of (m s)) as [a|] eqn:Hm.
  - rewrite (bind_result_Ok _ _ _ _ Hm) in H. eauto.
  - by rewrite (bind_result_Raise _ _ _ Hm) in H.
Qed.

(** The events of the first part of a sequence are a prefix of the events
    of the whole, whether or not the first part raises. *)
Lemma bind_events_prefix {A B} (m : M A) (k : A → M B) s :
  events_of (m s) `prefix_of` events_of (bind m k s).
Proof.
  unfold bind. destruct (m s) as [[[a|] s1] e1]; cbn.
  - destruct (k a s1) as [[r s2] e2]. cbn. by apply prefix_app_r.
  - done.
Qed.

(** Composition rules for [keeps]. *)
Section Keeps.
Variable P : EngineState → EngineState → Prop.
Variable E : Event → Prop.
Hypothesis P_refl : ∀ s, P s s.
Hypothesis P_trans : ∀ a b c, P a b → P b c → P a c.

Lemma keeps_ret {A} (a : A) : keeps P E (ret a).
Proof using P_refl. intros s. split; [apply P_refl | constructor]. Qed.

Lemma keeps_raise {A} : keeps P E (@raise A).
Proof using P_refl. intros s. split; [apply P_refl | constructor]. Qed.

Lemma keeps_get_state : keeps P E get_state.
Proof using P_refl. intros s. split; [apply P_refl | constructor]. Qed.

Lemma keeps_lift_exc {A} (r : Exc A) : keeps P E (lift_exc r).
Proof using P_refl. destruct r; [apply keeps_ret | apply keeps_raise]. Qed.

Lemma keeps_emit e : E e → keeps P E (emit e).
Proof using P_refl. intros He s. split; [apply P_refl | by repeat constructor]. Qed.

Lemma keeps_modify f : (∀ s, P s (f s)) → keeps P E (modify f).
Proof. intros Hf s. split; [apply Hf | constructor]. Qed.

Lemma keeps_bind {A B} (m : M A) (k : A → M B) :
  keeps P E m → (∀ a, keeps P E (k a)) → keeps P E (bind m k).
Proof using P_trans.
  intros Hm Hk s. specialize (Hm s). unfold bind.
  destruct (m s) as [[[a|] s1] e1]; cbn in *; [|done].
  specialize (Hk a s1). destruct (k a s1) as [[r s2] e2]; cbn in *.
  destruct Hm, Hk. split; [by eapply P_trans | by apply Forall_app].
Qed.

Lemma keeps_for_each {A} (xs : list A) (body : A → M unit) :
  (∀ x, keeps P E (body x)) → keeps P E (for_each xs body).
Proof using P_refl P_trans.
  intros Hb. induction xs as [|x r IH]; cbn; [apply keeps_ret|].
  apply keeps_bind; auto.
Qed.

Lemma keeps_for_fold {A S} (xs : list A) (acc : S) (body : S → A → M S) :
  (∀ a x, keeps P E (body a x)) → keeps P E (for_fold xs acc body).
Proof using P_refl P_trans.
  intros Hb. revert acc. induction xs as [|x r IH]; intros acc; cbn; [apply keeps_ret|].
  apply keeps_bind; auto.
Qed.
End Keeps.

Lemma keeps_weaken (P P' : EngineState → EngineState → Prop) (E E' : Event → Prop)
    {A} (m : M A) :
  (∀ s s', P s s' → P' s s') → (∀ e, E e → E' e) → keeps P E m → keeps P' E' m.
Proof.
  intros HP HE Hm s. destruct (Hm s) as [H1 H2]. split; [by apply HP|].
  eapply Forall_impl; eauto.
Qed.

Lemma only_cache_refl s : only_cache s s.
Proof. by repeat split. Qed.

Lemma only_cache_trans a b c : only_cache a b → only_cache b c → only_cache a c.
Proof. unfold only_cache. intros H1 H2. destruct_and!. repeat split; congruence. Qed.

Lemma only_cache_and_highs_refl s : only_cache_and_highs s s.
Proof. by repeat split. Qed.

Lemma only_cache_and_highs_trans a b c :
  only_cache_and_highs a b → only_cache_and_highs b c → only_cache_and_highs a c.
Proof. unfold only_cache_and_highs. intros H1 H2. destruct_and!. repeat split; congruence. Qed.

Lemma only_cache_highs s s' : only_cache s s' → only_cache_and_highs s s'.
Proof. unfold only_cache, only_cache_and_highs. intros. destruct_and!. by repeat split. Qed.

Lemma quiet_not_breaker e : quiet e → not_breaker e.
Proof. by destruct e as [|[]]. Qed.

Create HintDb keeps.
#[export] Hint Resolve only_cache_refl only_cache_trans only_cache_and_highs_refl
  only_cache_and_highs_trans : keeps.

(** Compositional proof of a [keeps] goal. *)
Ltac keeps_step :=
  lazymatch goal with
  | |- keeps _ _ (bind _ _) => apply keeps_bind; [eauto with keeps | | intros ?]
  | |- keeps _ _ (ret _) => apply keeps_ret; eauto with keeps
  | |- keeps _ _ raise => apply keeps_raise; eauto with keeps
  | |- keeps _ _ get_state => apply keeps_get_state; eauto with keeps
  | |- keeps _ _ (lift_exc _) => apply keeps_lift_exc; eauto with keeps
  | |- keeps _ _ (log_message _) => apply keeps_emit; [eauto with keeps | exact I]
  | |- keeps _ _ (submit_order _ _ _) => apply keeps_emit; [eauto with keeps | exact I]
  | |- keeps _ _ (for_each _ _) =>
      apply keeps_for_each; [eauto with keeps | eauto with keeps | intros ?]
  | |- keeps _ _ (for_fold _ _ _) =>
      apply keeps_for_fold; [eauto with keeps | eauto with keeps | intros ? ?]
  | |- keeps _ _ (modify _) => apply keeps_modify; intros ?; by repeat split
  | |- keeps _ _ (match ?x with _ => _ end) => destruct x
  | |- keeps _ _ (if ?x then _ else _) => destruct x
  | |- keeps _ _ (let '(_, _) := ?x in _) => destruct x
  | |- keeps _ _ _ => solve [eauto with keeps]
  end.

Lemma get_daily_df_keeps h symbol length :
  keeps only_cache quiet (_get_daily_df h symbol length).
Proof. unfold _get_daily_df. repeat keeps_step. Qed.

#[export] Hint Resolve get_daily_df_keeps : keeps.

Lemma atr_keeps h symbol : keeps only_cache quiet (_atr h symbol).
Proof. unfold _atr. repeat keeps_step. Qed.

Lemma realized_vol_keeps h symbol : keeps only_cache quiet (_realized_vol h symbol).
Proof. unfold _realized_vol. repeat keeps_step. Qed.

Lemma above_sma_keeps df : keeps only_cache quiet (above_sma df).
Proof. unfold above_sma. repeat keeps_step. Qed.

#[export] Hint Resolve atr_keeps realized_vol_keeps above_sma_keeps : keeps.

Lemma spy_trend_bull_keeps h : keeps only_cache quiet (_spy_trend_bull h).
Proof. unfold _spy_trend_bull. repeat keeps_step. Qed.

Lemma breadth_one_keeps h needed acc sym :
  keeps only_cache quiet (breadth_one h needed acc sym).
Proof. unfold breadth_one. repeat keeps_step. Qed.

#[export] Hint Resolve breadth_one_keeps : keeps.

Lemma breadth_fraction_keeps h : keeps only_cache quiet (_breadth_fraction h).
Proof. unfold _breadth_fraction. repeat keeps_step. Qed.

#[export] Hint Resolve spy_trend_bull_keeps breadth_fraction_keeps : keeps.

Lemma risk_on_fraction_keeps h : keeps only_cache quiet (_risk_on_fraction h).
Proof. unfold _risk_on_fraction. repeat keeps_step. Qed.

Lemma rank_one_keeps h needed acc sym : keeps only_cache quiet (rank_one h needed acc sym).
Proof. unfold rank_one. repeat keeps_step. Qed.

#[export] Hint Resolve risk_on_fraction_keeps rank_one_keeps : keeps.

Lemma rank_candidates_keeps h : keeps only_cache quiet (_rank_candidates h).
Proof. unfold _rank_candidates. repeat keeps_step. Qed.

#[export] Hint Resolve rank_candidates_keeps : keeps.

(** The guards and the rebalance touch the cache and the tracked highs only,
    and never write the breaker's diagnostic. *)
Lemma keeps_cache_to_highs {A} (m : M A) :
  keeps only_cache quiet m → keeps only_cache_and_highs not_breaker m.
Proof. apply keeps_weaken; [apply only_cache_highs | apply quiet_not_breaker]. Qed.

Lemma atr_keeps_highs h symbol : keeps only_cache_and_highs not_breaker (_atr h symbol).
Proof. apply keeps_cache_to_highs, atr_keeps. Qed.

Lemma realized_vol_keeps_highs h symbol :
  keeps only_cache_and_highs not_breaker (_realized_vol h symbol).
Proof. apply keeps_cache_to_highs, realized_vol_keeps. Qed.

#[export] Hint Resolve atr_keeps_highs realized_vol_keeps_highs : keeps.

Lemma pop_highest_close_keeps sym :
  keeps only_cache_and_highs not_breaker (pop_highest_close sym).
Proof. unfold pop_highest_close. repeat keeps_step. Qed.

#[export] Hint Resolve pop_highest_close_keeps : keeps.

Lemma trailing_stop_one_keeps h pos :
  keeps only_cache_and_highs not_breaker (trailing_stop_one h pos).
Proof. unfold trailing_stop_one. repeat keeps_step. Qed.

#[export] Hint Resolve trailing_stop_one_keeps : keeps.

Lemma apply_trailing_stops_keeps h :
  keeps only_cache_and_highs not_breaker (_apply_trailing_stops h).
Proof. unfold _apply_trailing_stops. repeat keeps_step. Qed.

Lemma sell_unselected_one_keeps h selected pos :
  keeps only_cache_and_highs not_breaker (sell_unselected_one h selected pos).
Proof. unfold sell_unselected_one. repeat keeps_step. Qed.

Lemma collect_vol_keeps h vols sym :
  keeps only_cache_and_highs not_breaker (collect_vol h vols sym).
Proof. unfold collect_vol. repeat keeps_step. Qed.

Lemma size_one_keeps h pv exposure acc sw :
  keeps only_cache_and_highs not_breaker (size_one h pv exposure acc sw).
Proof. unfold size_one. repeat keeps_step. Qed.

Lemma submit_delta_keeps h st :
  keeps only_cache_and_highs not_breaker (submit_delta h st).
Proof. unfold submit_delta. repeat keeps_step. Qed.

#[export] Hint Resolve apply_trailing_stops_keeps sell_unselected_one_keeps
  collect_vol_keeps size_one_keeps submit_delta_keeps : keeps.

Lemma rebalance_keeps h selected exposure :
  keeps only_cache_and_highs not_breaker (_rebalance h selected exposure).
Proof. unfold _rebalance. repeat keeps_step. Qed.

#[export] Hint Resolve rebalance_keeps : keeps.

(* ================================================================= *)
(** ** Rational arithmetic of the Python built-ins *)

Lemma Qleb_true a b : Py.Qleb a b = true ↔ (a <= b)%Q.
Proof. apply Qle_bool_iff. Qed.

Lemma Qleb_false a b : Py.Qleb a b = false ↔ (b < a)%Q.
Proof.
  unfold Py.Qleb. rewrite <- not_true_iff_false, Qle_bool_iff.
  split; [apply Qnot_le_lt | apply Qlt_not_le].
Qed.

Lemma Qltb_true a b : Py.Qltb a b = true ↔ (a < b)%Q.
Proof. unfold Py.Qltb. rewrite negb_true_iff. apply Qleb_false. Qed.

Lemma Qltb_false a b : Py.Qltb a b = false ↔ (b <= a)%Q.
Proof. unfold Py.Qltb. rewrite negb_false_iff. apply Qleb_true. Qed.

(** Case analysis on a comparison, leaving the order fact in the context. *)
Ltac case_cmp :=
  match goal with
  | |- context [Py.Qltb ?a ?b] =>
      let H := fresh "Hcmp" in
      destruct (Py.Qltb a b) eqn:H;
      [apply Qltb_true in H | apply Qltb_false in H]
  | |- context [Py.Qleb ?a ?b] =>
      let H := fresh "Hcmp" in
      destruct (Py.Qleb a b) eqn:H;
      [apply Qleb_true in H | apply Qleb_false in H]
  end.

Local Open Scope Q_scope.

Lemma Py_max_spec a b : (a < b ∧ Py.max a b = b) ∨ (b <= a ∧ Py.max a b = a).
Proof. unfold Py.max. case_cmp; auto. Qed.

Lemma Py_min_spec a b : (b < a ∧ Py.min a b = b) ∨ (a <= b ∧ Py.min a b = a).
Proof. unfold Py.min. case_cmp; auto. Qed.

Lemma Py_max_Qmax a b : Py.max a b == Qmax a b.
Proof.
  destruct (Py_max_spec a b) as [[H ->]|[H ->]].
  - symmetry. apply Q.max_r. lra.
  - symmetry. apply Q.max_l. lra.
Qed.

Lemma Py_min_Qmin a b : Py.min a b == Qmin a b.
Proof.
  destruct (Py_min_spec a b) as [[H ->]|[H ->]].
  - symmetry. apply Q.min_r. lra.
  - symmetry. apply Q.min_l. lra.
Qed.

Lemma Py_min_le_l a b : Py.min a b <= a.
Proof. destruct (Py_min_spec a b) as [[H ->]|[H ->]]; lra. Qed.

Lemma Py_min_le_r a b : Py.min a b <= b.
Proof. destruct (Py_min_spec a b) as [[H ->]|[H ->]]; lra. Qed.

Lemma Py_max_ge_l a b : a <= Py.max a b.
Proof. destruct (Py_max_spec a b) as [[H ->]|[H ->]]; lra. Qed.

Lemma Py_max_ge_r a b : b <= Py.max a b.
Proof. destruct (Py_max_spec a b) as [[H ->]|[H ->]]; lra. Qed.

Lemma clamp01_Qmax x : clamp01 x == Qmax 0 (Qmin 1 x).
Proof. unfold clamp01. rewrite Py_max_Qmax. apply Q.max_compat; [reflexivity | apply Py_min_Qmin]. Qed.

Lemma clamp01_range x : 0 <= clamp01 x <= 1.
Proof.
  unfold clamp01.
  destruct (Py_min_spec 1 x) as [[H ->]|[H ->]];
    destruct (Py_max_spec 0 x) as [[H' ?]|[H' ?]];
    destruct (Py_max_spec 0 1) as [[H'' ?]|[H'' ?]]; try rewrite H0; try rewrite H1; lra.
Qed.

Lemma clamp01_id x : 0 <= x <= 1 → clamp01 x == x.
Proof.
  intros [H0 H1]. rewrite clamp01_Qmax.
  rewrite Q.min_r by lra. apply Q.max_r. lra.
Qed.

#[export] Instance clamp01_proper : Proper (Qeq ==> Qeq) clamp01.
Proof.
  intros x y Hxy. rewrite !clamp01_Qmax. by rewrite Hxy.
Qed.

Lemma breadth_dial_formula b :
  breadth_dial b == clamp01 ((b - BREADTH_LOW) / (BREADTH_HIGH - BREADTH_LOW)).
Proof. reflexivity. Qed.

Lemma breadth_dial_half b : b == 1 # 2 → breadth_dial b == 1 # 2.
Proof.
  intros Hb. rewrite breadth_dial_formula.
  assert ((b - BREADTH_LOW) / (BREADTH_HIGH - BREADTH_LOW) == 1 # 2) as ->.
  { rewrite Hb. reflexivity. }
  reflexivity.
Qed.

(* ================================================================= *)
(** ** Computations that cannot raise *)

Lemma never_raises_ret {A} (a : A) : never_raises (ret a).
Proof. intros s. by exists a. Qed.

Lemma never_raises_get_state : never_raises get_state.
Proof. intros s. by exists s. Qed.

Lemma never_raises_modify f : never_raises (modify f).
Proof. intros s. by exists tt. Qed.

Lemma never_raises_emit e : never_raises (emit e).
Proof. intros s. by exists tt. Qed.

Lemma never_raises_bind {A B} (m : M A) (k : A → M B) :
  never_raises m → (∀ a, never_raises (k a)) → never_raises (bind m k).
Proof.
  intros Hm Hk s. destruct (Hm s) as [a Ha]. unfold bind.
  destruct (m s) as [[r s1] e1]; cbn in Ha; subst r.
  destruct (Hk a s1) as [b Hb]. destruct (k a s1) as [[r s2] e2]; cbn in *.
  by exists b.
Qed.

Lemma never_raises_for_each {A} (xs : list A) (body : A → M unit) :
  (∀ x, never_raises (body x)) → never_raises (for_each xs body).
Proof.
  intros Hb. induction xs; cbn; [apply never_raises_ret|].
  apply never_raises_bind; auto.
Qed.

Lemma never_raises_for_fold {A S} (xs : list A) (acc : S) (body : S → A → M S) :
  (∀ a x, never_raises (body a x)) → never_raises (for_fold xs acc body).
Proof.
  intros Hb. revert acc. induction xs; intros acc; cbn; [apply never_raises_ret|].
  apply never_raises_bind; auto.
Qed.

Create HintDb total.
#[export] Hint Resolve never_raises_ret never_raises_get_state never_raises_modify
  never_raises_emit : total.

Ltac total_step :=
  lazymatch goal with
  | |- never_raises (bind _ _) => apply never_raises_bind; [| intros ?]
  | |- never_raises (for_each _ _) => apply never_raises_for_each; intros ?
  | |- never_raises (for_fold _ _ _) => apply never_raises_for_fold; intros ? ?
  | |- never_raises (log_message _) => apply never_raises_emit
  | |- never_raises (submit_order _ _ _) => apply never_raises_emit
  | |- never_raises (match ?x with _ => _ end) => destruct x eqn:?
  | |- never_raises (if ?x then _ else _) => destruct x eqn:?
  | |- never_raises (let '(_, _) := ?x in _) => destruct x
  | |- never_raises _ => solve [eauto with total]
  end.

Lemma get_daily_df_total h symbol length : never_raises (_get_daily_df h symbol length).
Proof. unfold _get_daily_df. repeat total_step. Qed.

#[export] Hint Resolve get_daily_df_total : total.

Lemma iloc_last_Ok {A} (xs : list A) : xs ≠ [] → ∃ x, iloc xs (-1) = Ok x ∧ last xs = Some x.
Proof.
  intros Hne. unfold iloc. cbn [Z.leb Z.compare].
  destruct (last xs) as [x|] eqn:Hl; [|by apply last_None in Hl].
  exists x. split; [|done]. rewrite last_lookup in Hl.
  assert (0 < length xs)%nat by (destruct xs; [done | cbn; lia]).
  replace (0 <=? len xs + -1)%Z with true by (unfold len; lia).
  replace (Z.to_nat (len xs + -1)) with (Nat.pred (length xs)) by (unfold len; lia).
  by rewrite Hl.
Qed.

Lemma rolling_mean_last_Ok w xs :
  (0 <= w)%Z → xs ≠ [] → ∃ r, rolling_mean_last w xs = Ok r.
Proof.
  intros Hw Hne. unfold rolling_mean_last.
  replace (w <? 0)%Z with false by lia.
  destruct xs; [done|]. destruct (_ || _); eauto.
Qed.

Lemma above_sma_total df : never_raises (above_sma df).
Proof.
  unfold above_sma. destruct df as [df|]; [|apply never_raises_ret].
  destruct (negb _ || _) eqn:Hg; [apply never_raises_ret|].
  apply orb_false_iff in Hg as [_ Hlen].
  assert (closes df ≠ []) as Hne.
  { unfold closes. destruct (rows df); [|done]. cbn in Hlen. done. }
  destruct (iloc_last_Ok _ Hne) as (x & -> & _).
  destruct (rolling_mean_last_Ok TREND_SMA_DAYS (closes df)) as [r ->]; [done|done|].
  cbn [lift_exc]. repeat total_step.
Qed.

#[export] Hint Resolve above_sma_total : total.

Lemma spy_trend_bull_total h : never_raises (_spy_trend_bull h).
Proof. unfold _spy_trend_bull. repeat total_step. Qed.

Lemma breadth_one_total h needed acc sym : never_raises (breadth_one h needed acc sym).
Proof. unfold breadth_one. repeat total_step. Qed.

#[export] Hint Resolve spy_trend_bull_total breadth_one_total : total.

Lemma breadth_fraction_total h : never_raises (_breadth_fraction h).
Proof. unfold _breadth_fraction. repeat total_step. Qed.

Lemma realized_vol_total h symbol : never_raises (_realized_vol h symbol).
Proof. unfold _realized_vol. repeat total_step. Qed.

#[export] Hint Resolve breadth_fraction_total realized_vol_total : total.

Lemma risk_on_fraction_total h : never_raises (_risk_on_fraction h).
Proof. unfold _risk_on_fraction. repeat total_step. Qed.

(* ================================================================= *)
(** ** Regime dial *)

(** C8.  On a rebalance day on which the breadth reading is [b], the exposure
    returned by [_risk_on_fraction] is
    [clamp01 (bear + dial * (bull - bear))] with
    [dial = clamp01 ((b - BREADTH_LOW) / (BREADTH_HIGH - BREADTH_LOW))]; for a
    breadth of one half the dial is one half and the exposure is the
    midpoint of the bear and bull targets (clamped to [0,1], which is the
    midpoint itself when both targets are fractions). *)
Theorem risk_on_fraction_breadth_dial (h : Host) (s : EngineState) (b : Q) :
  _should_rebalance_today h s = true →
  result_of (_breadth_fraction h (state_of (_spy_trend_bull h s))) = Ok (Some b) →
  let bear := target_exposure_bear (profile s) in
  let bull := target_exposure_bull (profile s) in
  let dial := breadth_dial b in
  result_of (_risk_on_fraction h s) = Ok (clamp01 (bear + dial * (bull - bear)))
  ∧ dial == clamp01 ((b - BREADTH_LOW) / (BREADTH_HIGH - BREADTH_LOW))
  ∧ (b == 1 # 2 →
     dial == 1 # 2
     ∧ clamp01 (bear + dial * (bull - bear)) == clamp01 ((bear + bull) / 2)
     ∧ (0 <= bear <= 1 → 0 <= bull <= 1 →
        clamp01 (bear + dial * (bull - bear)) == (bear + bull) / 2)).
Proof.
  intros Hday Hb bear bull dial. split; [|split].
  - unfold _risk_on_fraction.
    rewrite bind_get_state.
    destruct (spy_trend_bull_total h s) as [sb Hsb].
    pose proof (spy_trend_bull_keeps h s) as [Hfr _].
    rewrite (bind_result_Ok _ _ s sb Hsb).
    set (s1 := state_of (_spy_trend_bull h s)) in *.
    unfold result_of at 1. cbn [fst].
    rewrite bind_get_state.
    assert (_should_rebalance_today h s1 = true) as ->.
    { unfold _should_rebalance_today in *.
      destruct Hfr as (Hp & _ & Hl & _). by rewrite Hp, Hl. }
    cbn [negb].
    rewrite (bind_result_Ok _ _ s1 (Some b) Hb). cbn [result_of fst ret].
    reflexivity.
  - apply breadth_dial_formula.
  - intros Hhalf. pose proof (breadth_dial_half b Hhalf) as Hd. fold dial in Hd.
    split; [exact Hd|]. split.
    + apply clamp01_proper. rewrite Hd. field.
    + intros Hbear Hbull. rewrite Hd.
      rewrite clamp01_id by lra. field.
Qed.

Lemma risk_on_fraction_breadth_dial_witness :
  result_of (_risk_on_fraction Scenario.breadth_host Scenario.breadth_state)
    = Ok (clamp01 ((20 # 100) + breadth_dial (15 # 30) * ((98 # 100) - (20 # 100))))
  ∧ breadth_dial (15 # 30) == 1 # 2
  ∧ clamp01 ((20 # 100) + breadth_dial (15 # 30) * ((98 # 100) - (20 # 100))) == 59 # 100.
Proof.
  pose proof (risk_on_fraction_breadth_dial Scenario.breadth_host Scenario.breadth_state
                (15 # 30) eq_refl ltac:(vm_compute; reflexivity)) as (H1 & _ & H3).
  destruct (H3 ltac:(reflexivity)) as (Hd & _ & Hmid).
  split; [exact H1|]. split; [exact Hd|].
  etransitivity; [apply Hmid; vm_compute; split; discriminate|]. reflexivity.
Defined.

(* ================================================================= *)
(** ** Profile selection *)

Lemma PROFILES_keys k :
  PROFILES !! k = None ↔ k ≠ "balanced" ∧ k ≠ "max_return".
Proof.
  unfold PROFILES. split.
  - intros H. split; intros ->; vm_compute in H; discriminate.
  - intros [H1 H2]. rewrite !lookup_insert_ne by done. apply lookup_empty.
Qed.

Example profile_key_examples :
  profile_key None = "balanced" ∧ profile_key (Some EmptyString) = "balanced" ∧
  profile_key (Some "  Max_Return ") = "max_return" ∧
  profile_key (Some "conservative") = "conservative".
Proof. repeat split; reflexivity. Qed.

(** C9.  A profile name that, lower-cased and trimmed, is not a key of
    [PROFILES] initialises the engine with the balanced preset (with the
    overrides applied to it) instead of failing; [ConservativeStrategy] passes
    the name conservative, which is no key, and so runs the balanced
    profile. *)
Theorem initialize_unknown_profile_falls_back
    (repo : Repo) (name : option string) (universe : option (list string))
    (o : Overrides) :
  PROFILES !! profile_key name = None →
  (∃ st ev, initialize repo name universe o = Ok (st, ev)
            ∧ profile st = apply_overrides o balanced
            ∧ (o = no_overrides → profile st = balanced))
  ∧ profile_key (Some "conservative") = "conservative"
  ∧ PROFILES !! "conservative" = None
  ∧ (∃ st ev, ConservativeStrategy_initialize repo = Ok (st, ev)
              ∧ profile st = balanced).
Proof.
  intros Hkey. split; [|split; [reflexivity|split; [reflexivity|]]].
  - unfold initialize, subscript, dict_get.
    replace (PROFILES !! "balanced") with (Some balanced) by reflexivity.
    rewrite Hkey. cbn [default].
    eexists _, _. split; [reflexivity|]. split; [reflexivity|].
    intros ->. reflexivity.
  - eexists _, _. split; reflexivity.
Qed.

Lemma initialize_unknown_profile_falls_back_witness :
  (∃ st ev, initialize (mkRepo [] ∅) (Some " Conservative ") None no_overrides = Ok (st, ev)
            ∧ profile st = apply_overrides no_overrides balanced
            ∧ (no_overrides = no_overrides → profile st = balanced))
  ∧ profile_key (Some "conservative") = "conservative"
  ∧ PROFILES !! "conservative" = None
  ∧ (∃ st ev, ConservativeStrategy_initialize (mkRepo [] ∅) = Ok (st, ev)
              ∧ profile st = balanced).
Proof.
  apply (initialize_unknown_profile_falls_back (mkRepo [] ∅) (Some " Conservative ") None no_overrides).
  reflexivity.
Defined.

(* ================================================================= *)
(** ** Momentum *)

(** What [mom] reads: the close at position [len - lb], which is [lb - 1]
    bars before the last one. *)
Lemma mom_reference (close : list Q) (last_close : Q) (lb : Z) :
  (0 < lb < len close)%Z →
  ∃ past, close !! Z.to_nat (len close - 1 - (lb - 1)) = Some past
          ∧ mom close last_close lb
            = Ok (if Py.Qleb past 0 then None else Some (last_close / past - 1)).
Proof.
  intros [H0 H1]. unfold mom, iloc.
  replace (len close <=? lb)%Z with false by lia.
  replace (0 <=? - lb)%Z with false by lia.
  replace (0 <=? len close + - lb)%Z with true by lia.
  replace (len close - 1 - (lb - 1))%Z with (len close + - lb)%Z by lia.
  destruct (close !! Z.to_nat (len close + - lb)) as [past|] eqn:Hp.
  - exists past. split; [done|]. by destruct (Py.Qleb past 0).
  - apply lookup_ge_None in Hp. unfold len in *. lia.
Qed.

(** [mom] answers none exactly when the series has at most [lb] closes or
    the close it reads is not positive. *)
Lemma mom_none (close : list Q) (last_close : Q) (lb : Z) :
  (0 < lb)%Z →
  mom close last_close lb = Ok None ↔
  (len close < lb + 1)%Z
  ∨ ∃ past, close !! Z.to_nat (len close - lb) = Some past ∧ past <= 0.
Proof.
  intros H0. destruct (decide (len close <= lb)%Z) as [Hle|Hgt].
  - unfold mom. replace (len close <=? lb)%Z with true by lia.
    split; [intros _; left; lia | done].
  - destruct (mom_reference close last_close lb) as (past & Hp & ->); [lia|].
    replace (len close - 1 - (lb - 1))%Z with (len close - lb)%Z in Hp by lia.
    split.
    + destruct (Py.Qleb past 0) eqn:Hc; [|done]. intros _. right.
      exists past. split; [done|]. by apply Qleb_true.
    + intros [?|(past' & Hp' & Hle)]; [lia|]. simplify_eq.
      apply Qleb_true in Hle. by rewrite Hle.
Qed.

(** C4.  On the closes 1, 2, ..., 282 with a lookback of 63 bars, [mom] divides
    by the close 62 bars before the last one (220), where the specified
    momentum divides by the close 63 bars before it (219). *)
Theorem mom_reads_one_bar_late :
  mom rising_closes 282 MOM_3M = Ok (Some (282 / 220 - 1))
  ∧ Momentum_spec rising_closes MOM_3M = Some (282 / 219 - 1)
  ∧ ¬ (282 / 220 - 1 == 282 / 219 - 1).
Proof. split; [|split]; [vm_compute; reflexivity ..|]. intros H. vm_compute in H. discriminate. Qed.

(* ================================================================= *)
(** ** Selector *)

Lemma len_app {A} (l k : list A) : len (l ++ k) = (len l + len k)%Z.
Proof. unfold len. rewrite length_app. lia. Qed.

Lemma sector_load_snoc sectors sec l x :
  sector_load sectors sec (l ++ [x])
  = (sector_load sectors sec l
     + if decide (dict_get sectors x "UNKNOWN" = sec) then 1 else 0)%Z.
Proof.
  unfold sector_load. rewrite filter_app, len_app. f_equal.
  rewrite filter_cons, filter_nil. by case_decide.
Qed.

Lemma mapped_load_le sectors sec l :
  (mapped_load sectors sec l <= sector_load sectors sec l)%Z.
Proof.
  unfold mapped_load, sector_load, len.
  induction l as [|x l IH]; [done|].
  rewrite !filter_cons.
  destruct (decide (sectors !! x = Some sec)) as [Hx|Hx].
  - rewrite decide_True by (unfold dict_get; by rewrite Hx). cbn [length]. lia.
  - case_decide; cbn [length]; lia.
Qed.

Lemma mapped_load_empty sec l : mapped_load ∅ sec l = 0%Z.
Proof.
  unfold mapped_load, len. induction l as [|x l IH]; [done|].
  rewrite filter_cons. rewrite lookup_empty. by case_decide.
Qed.

(** The capped pass extends the selection by a rank-ordered run of symbols,
    keeps every sector (the bucket of unmapped symbols included) within the
    cap, and stops at [max_pos]. *)
Lemma capped_pass_spec sectors cap max_pos ranked :
  ∀ sector_count selected,
    (∀ sec, dict_get sector_count sec 0%Z = sector_load sectors sec selected) →
    (∀ sec, (sector_load sectors sec selected <= cap)%Z) →
    ∃ extra,
      capped_pass sectors cap max_pos ranked sector_count selected = selected ++ extra
      ∧ extra `sublist_of` ranked
      ∧ (∀ sec, (sector_load sectors sec (selected ++ extra) <= cap)%Z)
      ∧ ((len selected < max_pos)%Z → (len (selected ++ extra) <= max_pos)%Z).
Proof.
  induction ranked as [|sym rest IH]; intros sc sel Hsc Hcap; cbn [capped_pass].
  - exists []. rewrite app_nil_r. repeat split; [done|done|lia].
  - destruct (cap <=? _)%Z eqn:Hfull.
    + destruct (IH sc sel Hsc Hcap) as (extra & -> & Hsub & Hc & Hl).
      exists extra. repeat split; [by apply sublist_cons|done|done].
    + apply Z.leb_gt in Hfull. rewrite Hsc in Hfull.
      set (sec := dict_get sectors sym "UNKNOWN") in *.
      assert (∀ sec', (sector_load sectors sec' (sel ++ [sym]) <= cap)%Z) as Hcap'.
      { intros sec'. rewrite sector_load_snoc. fold sec. case_decide; [subst; lia|].
        specialize (Hcap sec'). lia. }
      destruct (max_pos <=? _)%Z eqn:Hstop.
      * exists [sym]. repeat split; [by apply sublist_skip, sublist_nil_l|done|].
        intros Hlt. rewrite len_app. change (len [sym]) with 1%Z. lia.
      * apply Z.leb_gt in Hstop.
        destruct (IH (<[sec := (dict_get sc sec 0 + 1)%Z]> sc) (sel ++ [sym]))
          as (extra & -> & Hsub & Hc & Hl); [|done|].
        { intros sec'. rewrite sector_load_snoc. fold sec. unfold dict_get at 1.
          case_decide.
          - subst sec'. rewrite lookup_insert_eq. cbn [default]. by rewrite Hsc.
          - rewrite lookup_insert_ne by done. rewrite Z.add_0_r. apply Hsc. }
        exists (sym :: extra). rewrite <- app_assoc in *. cbn [app] in *.
        repeat split; [by apply sublist_skip|done|]. intros _. by apply Hl.
Qed.

Lemma fallback_pass_spec max_pos ranked :
  ∀ selected,
    ∃ extra,
      fallback_pass max_pos ranked selected = selected ++ extra
      ∧ extra `sublist_of` ranked
      ∧ ((len selected < max_pos)%Z → (len (selected ++ extra) <= max_pos)%Z).
Proof.
  induction ranked as [|sym rest IH]; intros sel; cbn [fallback_pass].
  - exists []. rewrite app_nil_r. repeat split; [done|lia].
  - case_bool_decide.
    + destruct (IH sel) as (extra & -> & Hsub & Hl).
      exists extra. repeat split; [by apply sublist_cons|done].
    + destruct (max_pos <=? _)%Z eqn:Hstop.
      * exists [sym]. repeat split; [by apply sublist_skip, sublist_nil_l|].
        intros Hlt. rewrite len_app. change (len [sym]) with 1%Z. lia.
      * apply Z.leb_gt in Hstop.
        destruct (IH (sel ++ [sym])) as (extra & -> & Hsub & Hl).
        exists (sym :: extra). rewrite <- app_assoc in *. cbn [app] in *.
        repeat split; [by apply sublist_skip|]. intros _. by apply Hl.
Qed.

Lemma slice_to_take {A} (n : Z) (xs : list A) :
  (0 <= n)%Z → Py.slice_to n xs = take (Z.to_nat n) xs.
Proof. intros H. unfold Py.slice_to. by replace (0 <=? n)%Z with true by lia. Qed.

Lemma dict_get_empty {V} (k : string) (d : V) : dict_get ∅ k d = d.
Proof. unfold dict_get. by rewrite lookup_empty. Qed.

Lemma capped_pass_closed sectors cap max_pos ranked selected :
  (cap <= 0)%Z → capped_pass sectors cap max_pos ranked ∅ selected = selected.
Proof.
  intros Hcap. induction ranked as [|sym rest IH]; cbn [capped_pass]; [done|].
  cbv zeta. rewrite dict_get_empty.
  by replace (cap <=? 0)%Z with true by lia.
Qed.

Lemma capped_pass_extends sectors cap max_pos ranked :
  ∀ sector_count selected,
    ∃ extra, capped_pass sectors cap max_pos ranked sector_count selected = selected ++ extra.
Proof.
  induction ranked as [|sym rest IH]; intros sc sel; cbn [capped_pass].
  - exists []. by rewrite app_nil_r.
  - destruct (cap <=? _)%Z; [apply IH|].
    destruct (max_pos <=? _)%Z; [by exists [sym]|].
    destruct (IH (<[dict_get sectors sym "UNKNOWN" :=
                     (dict_get sc (dict_get sectors sym "UNKNOWN") 0 + 1)%Z]> sc)
                 (sel ++ [sym])) as [extra ->].
    exists (sym :: extra). by rewrite <- app_assoc.
Qed.

(** The capped pass passes over a symbol only when its sector is already
    full with symbols ranked above it, or after the last slot was filled. *)
Lemma capped_pass_skips sectors cap max_pos ranked :
  ∀ sector_count selected p1 sym p2,
    (∀ sec, dict_get sector_count sec 0%Z = sector_load sectors sec selected) →
    ranked = p1 ++ sym :: p2 →
    sym ∉ capped_pass sectors cap max_pos ranked sector_count selected →
    (len (capped_pass sectors cap max_pos ranked sector_count selected) < max_pos)%Z →
    ∃ taken,
      (selected ++ taken) `prefix_of` capped_pass sectors cap max_pos ranked sector_count selected
      ∧ taken `sublist_of` p1
      ∧ (cap <= sector_load sectors (dict_get sectors sym "UNKNOWN") (selected ++ taken))%Z.
Proof.
  induction ranked as [|x rest IH]; intros sc sel p1 sym p2 Hsc Hsplit.
  { by destruct p1. }
  cbn [capped_pass]. cbv zeta.
  set (sec := dict_get sectors x "UNKNOWN").
  assert (∀ sec', dict_get (<[sec := (dict_get sc sec 0 + 1)%Z]> sc) sec' 0%Z
                  = sector_load sectors sec' (sel ++ [x])) as Hsc'.
  { intros sec'. rewrite sector_load_snoc. fold sec. unfold dict_get at 1.
    case_decide.
    - subst sec'. rewrite lookup_insert_eq. cbn [default]. by rewrite Hsc.
    - rewrite lookup_insert_ne by done. rewrite Z.add_0_r. apply Hsc. }
  destruct p1 as [|y p1]; cbn [app] in Hsplit; simplify_eq.
  - destruct (cap <=? _)%Z eqn:Hfull.
    + intros _ _. apply Z.leb_le in Hfull. rewrite Hsc in Hfull.
      exists []. rewrite app_nil_r. split; [|split; [done|exact Hfull]].
      destruct (capped_pass_extends sectors cap max_pos p2 sc sel) as [extra ->].
      by apply prefix_app_r.
    + intros Hnot _. exfalso. apply Hnot.
      destruct (max_pos <=? _)%Z.
      * apply elem_of_app. right. apply list_elem_of_here.
      * destruct (capped_pass_extends sectors cap max_pos p2
                    (<[sec := (dict_get sc sec 0 + 1)%Z]> sc) (sel ++ [sym])) as [extra ->].
        rewrite !elem_of_app. left. right. apply list_elem_of_here.
  - destruct (cap <=? _)%Z eqn:Hfull.
    + intros Hnot Hlen.
      destruct (IH sc sel p1 sym p2 Hsc eq_refl Hnot Hlen) as (taken & Hpre & Hsub & Hload).
      exists taken. split; [done|]. split; [by apply sublist_cons|done].
    + destruct (max_pos <=? _)%Z eqn:Hstop.
      * intros _ Hlen. apply Z.leb_le in Hstop. lia.
      * intros Hnot Hlen.
        destruct (IH _ (sel ++ [y]) p1 sym p2 Hsc' eq_refl Hnot Hlen)
          as (taken & Hpre & Hsub & Hload).
        exists (y :: taken). rewrite <- app_assoc in Hpre, Hload. cbn [app] in Hpre, Hload.
        split; [done|]. split; [by apply sublist_skip|done].
Qed.

(** The fallback pass walks a prefix of the ranking and appends, once each,
    exactly the symbols of that prefix that are not selected yet; it stops
    short of the end of the ranking only when the selection is full. *)
Lemma fallback_pass_fills max_pos ranked :
  ∀ selected,
    ∃ extra pre post,
      fallback_pass max_pos ranked selected = selected ++ extra
      ∧ ranked = pre ++ post
      ∧ extra `sublist_of` pre
      ∧ NoDup extra
      ∧ (∀ x, x ∈ extra → x ∉ selected)
      ∧ (∀ x, x ∈ pre → x ∈ selected ++ extra)
      ∧ (post ≠ [] → (max_pos <= len (selected ++ extra))%Z).
Proof.
  induction ranked as [|sym rest IH]; intros sel; cbn [fallback_pass].
  - exists [], [], []. rewrite app_nil_r.
    repeat split; try done; [constructor|by intros ? ?%elem_of_nil..].
  - case_bool_decide as Hin.
    + destruct (IH sel) as (extra & pre & post & -> & -> & Hsub & Hnd & Hnew & Hcov & Hstop).
      exists extra, (sym :: pre), post. repeat split; try done.
      * by apply sublist_cons.
      * intros x [->|Hx]%elem_of_cons; [apply elem_of_app; by left|by apply Hcov].
    + cbv zeta. destruct (max_pos <=? _)%Z eqn:Hstop.
      * apply Z.leb_le in Hstop. exists [sym], [sym], rest.
        repeat split; try done.
        -- apply NoDup_singleton.
        -- by intros x ->%list_elem_of_singleton.
        -- intros x ->%list_elem_of_singleton. apply elem_of_app. right.
           apply list_elem_of_here.
      * destruct (IH (sel ++ [sym]))
          as (extra & pre & post & -> & -> & Hsub & Hnd & Hnew & Hcov & Hfull).
        exists (sym :: extra), (sym :: pre), post.
        rewrite <- app_assoc in *. cbn [app] in *.
        repeat split; try done.
        -- by apply sublist_skip.
        -- apply NoDup_cons. split; [|done]. intros Hx. apply (Hnew _ Hx).
           apply elem_of_app. right. apply list_elem_of_here.
        -- intros x [->|Hx]%elem_of_cons; [done|].
           intros Hsel. apply (Hnew _ Hx). apply elem_of_app. by left.
        -- intros x [->|Hx]%elem_of_cons; [|by apply Hcov].
           apply elem_of_app. right. apply list_elem_of_here.
Qed.

(** C7 (as the code has it).  With [max_positions >= 1] and
    [max_sector_positions >= 1] the selection has at most [max_positions]
    symbols.  With an empty sector map it is the first [max_positions] ranked
    symbols.  Otherwise it is the result [first] of the sector-capped pass
    followed by the fallback symbols [extra].  The capped part is in rank
    order, holds every sector (the UNKNOWN bucket of unmapped symbols
    included) at most [max_sector_positions] times, and leaves a ranked symbol
    out only when the symbols it took from the higher ranks already fill that
    symbol's sector, or when it has filled all [max_positions] slots.  The
    fallback symbols are in rank order among themselves and appended after the
    capped part, are distinct and new, are there only when the capped pass
    accepted fewer than [max_positions] symbols, and are exactly the missing
    symbols of the part of the ranking the fallback walked, which is all of
    it unless the selection is full. *)
Theorem select_with_sector_caps_two_passes (s : EngineState) (ranked : list string) :
  (1 <= max_positions (profile s))%Z →
  (1 <= max_sector_positions (profile s))%Z →
  let sectors := _sector_by_symbol s in
  let cap := max_sector_positions (profile s) in
  let max_pos := max_positions (profile s) in
  let out := _select_with_sector_caps s ranked in
  let first := capped_pass sectors cap max_pos ranked ∅ [] in
  (len out <= max_pos)%Z
  ∧ (sectors = ∅ → out = take (Z.to_nat max_pos) ranked)
  ∧ (sectors ≠ ∅ →
     ∃ extra,
       out = first ++ extra
       ∧ first `sublist_of` ranked
       ∧ (∀ sec, (sector_load sectors sec first <= cap)%Z)
       ∧ (∀ sec, (mapped_load sectors sec first <= cap)%Z)
       ∧ (len first <= max_pos)%Z
       ∧ (∀ p1 sym p2,
            ranked = p1 ++ sym :: p2 → sym ∉ first → (len first < max_pos)%Z →
            ∃ taken,
              taken `prefix_of` first ∧ taken `sublist_of` p1
              ∧ (cap <= sector_load sectors (dict_get sectors sym "UNKNOWN") taken)%Z)
       ∧ extra `sublist_of` ranked
       ∧ NoDup extra
       ∧ (∀ x, x ∈ extra → x ∉ first)
       ∧ (extra ≠ [] → (len first < max_pos)%Z)
       ∧ ∃ walked rest,
           ranked = walked ++ rest
           ∧ extra `sublist_of` walked
           ∧ (∀ x, x ∈ walked → x ∈ out)
           ∧ (rest ≠ [] → len out = max_pos)).
Proof.
  intros Hpos Hcap. cbv zeta.
  set (sectors := _sector_by_symbol s).
  set (cap := max_sector_positions (profile s)) in *.
  set (max_pos := max_positions (profile s)) in *.
  unfold _select_with_sector_caps. fold sectors cap max_pos.
  destruct ranked as [|r0 ranked'] eqn:Hr.
  { cbn [capped_pass app].
    split; [unfold len; cbn; lia|]. split; [intros _; by rewrite take_nil|].
    intros _. exists [].
    split; [done|]. split; [done|].
    split; [intros sec; unfold sector_load, len; cbn; lia|].
    split; [intros sec; unfold mapped_load, len; cbn; lia|].
    split; [unfold len; cbn; lia|].
    split; [intros p1 sym p2 Hsplit; by destruct p1|].
    split; [done|]. split; [constructor|]. split; [by intros ? ?%elem_of_nil|].
    split; [done|]. exists [], []. repeat split; try done. }
  rewrite <- Hr. clear Hr.
  set (first := capped_pass sectors cap max_pos ranked ∅ []).
  assert (∀ sec, dict_get (∅ : gmap string Z) sec 0%Z = sector_load sectors sec []) as Hsc0.
  { intros sec. unfold dict_get. by rewrite lookup_empty. }
  destruct (capped_pass_spec sectors cap max_pos ranked ∅ [] Hsc0)
    as (first' & Hfirst & Hsub & Hload & Hlen).
  { intros sec. unfold sector_load, len. cbn. lia. }
  cbn [app] in Hfirst, Hload, Hlen. fold first in Hfirst. subst first'.
  specialize (Hlen ltac:(unfold len; cbn; lia)).
  case_decide as Hmap.
  { rewrite slice_to_take by lia. split; [unfold len; rewrite length_take; lia|].
    split; [done|]. intros Hne. done. }
  assert (∃ extra,
            (if (len first <? max_pos)%Z then fallback_pass max_pos ranked first else first)
            = first ++ extra
            ∧ extra `sublist_of` ranked ∧ NoDup extra ∧ (∀ x, x ∈ extra → x ∉ first)
            ∧ (extra ≠ [] → (len first < max_pos)%Z)
            ∧ (len (first ++ extra) <= max_pos)%Z
            ∧ ∃ walked rest,
                ranked = walked ++ rest
                ∧ extra `sublist_of` walked
                ∧ (∀ x, x ∈ walked → x ∈ first ++ extra)
                ∧ (rest ≠ [] → len (first ++ extra) = max_pos))
    as (extra & -> & Hsube & Hnd & Hnew & Hshort & Hlenout & Hwalk).
  { destruct (len first <? max_pos)%Z eqn:Hlt.
    - apply Z.ltb_lt in Hlt.
      destruct (fallback_pass_fills max_pos ranked first)
        as (extra & pre & post & Hf & Hsplit & Hsube & Hnd & Hnew & Hcov & Hfull).
      destruct (fallback_pass_spec max_pos ranked first) as (extra' & Hf' & _ & Hl).
      assert (extra' = extra) as -> by (rewrite Hf in Hf'; by apply app_inv_head in Hf').
      specialize (Hl Hlt).
      exists extra. split; [done|]. split.
      { rewrite Hsplit. by apply sublist_inserts_r. }
      repeat split; try done.
      exists pre, post. split; [done|]. split; [done|]. split; [done|].
      intros Hp. specialize (Hfull Hp). lia.
    - apply Z.ltb_ge in Hlt. exists []. rewrite app_nil_r.
      split; [done|]. split; [apply sublist_nil_l|]. split; [constructor|].
      split; [by intros ? ?%elem_of_nil|]. split; [done|]. split; [done|].
      exists [], ranked. split; [done|]. split; [done|].
      split; [by intros ? ?%elem_of_nil|]. lia. }
  split; [done|]. split; [done|]. intros _. exists extra.
  split; [done|]. split; [done|]. split; [done|].
  split; [intros sec; etransitivity; [apply mapped_load_le|apply Hload]|].
  split; [done|]. split; [|done].
  intros p1 sym p2 Hsplit Hnot Hlt.
  destruct (capped_pass_skips sectors cap max_pos ranked ∅ [] p1 sym p2 Hsc0 Hsplit Hnot Hlt)
    as (taken & Hpre & Hsubt & Hfull).
  by exists taken.
Qed.

Lemma select_with_sector_caps_two_passes_witness :
  let s := SelectorScenario.state in
  let ranked := SelectorScenario.ranked in
  _select_with_sector_caps s ranked = ["AAA"; "CCC"; "BBB"]
  ∧ capped_pass (_sector_by_symbol s) 1 3 ranked ∅ [] = ["AAA"; "CCC"]
  ∧ (len (_select_with_sector_caps s ranked) <= 3)%Z
  ∧ (∀ sec, (sector_load (_sector_by_symbol s) sec ["AAA"; "CCC"] <= 1)%Z)
  ∧ ∃ taken, taken `prefix_of` ["AAA"; "CCC"] ∧ taken `sublist_of` ["AAA"]
             ∧ (1 <= sector_load (_sector_by_symbol s) "Tech" taken)%Z.
Proof.
  cbv zeta.
  pose proof (select_with_sector_caps_two_passes SelectorScenario.state
                SelectorScenario.ranked ltac:(vm_compute; discriminate)
                ltac:(vm_compute; discriminate)) as H.
  cbv zeta in H. destruct H as (Hlen & _ & H).
  destruct H as (extra & _ & _ & Hload & _ & _ & Hskip & _); [by vm_compute|].
  assert (capped_pass (_sector_by_symbol SelectorScenario.state) 1 3
            SelectorScenario.ranked ∅ [] = ["AAA"; "CCC"]) as Hfirst by (by vm_compute).
  change (max_sector_positions (profile SelectorScenario.state)) with 1%Z in *.
  change (max_positions (profile SelectorScenario.state)) with 3%Z in *.
  rewrite Hfirst in *.
  split; [by vm_compute|]. split; [done|]. split; [exact Hlen|]. split; [exact Hload|].
  destruct (Hskip ["AAA"] "BBB" ["CCC"]) as (taken & Hp & Hs & Hl).
  - reflexivity.
  - intros Hin. by repeat (apply elem_of_cons in Hin as [Hin|Hin]; [done|]);
      apply elem_of_nil in Hin.
  - by vm_compute.
  - exists taken. split; [done|]. split; [done|]. exact Hl.
Defined.

(** The selector property as the specification states it fails: with the
    Tech sector capped at one, the fallback appends the second Tech symbol
    after the Finance symbol ranked below it. *)
Lemma selector_rank_order_counterexample : ¬ selector_claim_as_stated.
Proof.
  intros H.
  destruct (H SelectorScenario.state SelectorScenario.ranked) as (_ & Hsub & _);
    [vm_compute; discriminate ..|].
  vm_compute in Hsub.
  repeat (apply sublist_cons_r in Hsub as [Hsub|(? & ? & Hsub)]; simplify_eq);
    by apply sublist_nil_r in Hsub.
Qed.

(* ================================================================= *)
(** ** Bar cache *)

(** A call that has to fetch, and whose fetch succeeds, caches and returns the
    prepared frame after the no-lookahead trim. *)
Lemma get_daily_df_fetch h s symbol length raw :
  cache_miss h s symbol length →
  get_historical_prices h (_src_symbol h symbol) length = Some raw →
  let df := trim_lookahead (get_date h) (prepare_frame raw) in
  let cache0 := if decide (_cache_day s = Some (get_date h)) then _hist_cache s else ∅ in
  _get_daily_df h symbol length s
  = (Ok (Some df),
     set_cache (Some (get_date h)) (<[cache_key h symbol length := df]> cache0) s,
     []).
Proof.
  intros Hmiss Hfetch df cache0. unfold _get_daily_df.
  rewrite bind_get_state. subst cache0.
  destruct (decide (_cache_day s = Some (get_date h))) as [Hday|Hday].
  - rewrite bind_ret, bind_get_state.
    destruct Hmiss as [?|Hmiss]; [done|]. unfold cache_key in Hmiss.
    rewrite Hmiss, Hfetch, bind_modify. cbn. by rewrite Hday.
  - rewrite bind_modify, bind_get_state. cbn [_hist_cache set_cache].
    rewrite lookup_empty, Hfetch, bind_modify. reflexivity.
Qed.

(** Within a day a cached frame is returned as it is, without a fetch. *)
Lemma get_daily_df_hit h s symbol length df :
  _cache_day s = Some (get_date h) →
  _hist_cache s !! cache_key h symbol length = Some df →
  _get_daily_df h symbol length s = (Ok (Some df), s, []).
Proof.
  intros Hday Hhit. unfold _get_daily_df.
  rewrite bind_get_state. rewrite decide_True by done.
  rewrite bind_ret, bind_get_state. unfold cache_key in Hhit. by rewrite Hhit.
Qed.

Lemma len_drop_last {A} (xs : list A) : xs ≠ [] → len (Py.drop_last xs) = (len xs - 1)%Z.
Proof.
  intros Hne. unfold len, Py.drop_last. rewrite length_take.
  destruct xs; [done|]. cbn [length]. lia.
Qed.

(** C3 (as the code has it).  On a fetch, the last bar of the prepared series
    is dropped before caching and returning when the index is a datetime
    index, the series has at least three bars and its last bar is dated on or
    after the trading date; a series of fewer than three bars, one without a
    datetime index, or one whose last bar is older is cached and returned
    whole. *)
Theorem get_daily_df_drops_current_bar (h : Host) (s : EngineState) (symbol : string)
    (length : Z) (raw : RawFrame) :
  cache_miss h s symbol length →
  get_historical_prices h (_src_symbol h symbol) length = Some raw →
  let df0 := prepare_frame raw in
  ∃ df,
    result_of (_get_daily_df h symbol length s) = Ok (Some df)
    ∧ _hist_cache (state_of (_get_daily_df h symbol length s))
        !! cache_key h symbol length = Some df
    ∧ columns df = columns df0 ∧ datetime_index df = datetime_index df0
    ∧ (∀ b, raw_datetime_index raw = true → (3 <= len (rows df0))%Z →
            last (rows df0) = Some b → (get_date h <= bar_date b)%Z →
            rows df = Py.drop_last (rows df0)
            ∧ len (rows df) = (len (rows df0) - 1)%Z)
    ∧ ((len (rows df0) < 3)%Z ∨ raw_datetime_index raw = false
       ∨ (∃ b, last (rows df0) = Some b ∧ (bar_date b < get_date h)%Z) →
       df = df0).
Proof.
  intros Hmiss Hfetch df0.
  rewrite (get_daily_df_fetch h s symbol length raw Hmiss Hfetch).
  exists (trim_lookahead (get_date h) df0). cbn [result_of state_of fst snd].
  split; [done|]. split; [cbn; by rewrite lookup_insert_eq|].
  unfold trim_lookahead. fold df0. cbn [NO_LOOKAHEAD andb].
  change (datetime_index df0) with (raw_datetime_index raw).
  split; [|split; [|split]].
  - destruct (raw_datetime_index raw && _); [|done].
    destruct (last (rows df0)); [|done]. by destruct (_ <=? _)%Z.
  - destruct (raw_datetime_index raw && _); [|done].
    destruct (last (rows df0)); [|done]. by destruct (_ <=? _)%Z.
  - intros b -> Hlen Hlast Hdate. rewrite Hlast. cbn [andb].
    replace (3 <=? len (rows df0))%Z with true by lia.
    replace (get_date h <=? bar_date b)%Z with true by lia. cbn [rows].
    split; [done|]. apply len_drop_last. intros Hnil. by rewrite Hnil in Hlast.
  - intros [Hlen|[Hidx|(b & Hlast & Hdate)]].
    + replace (3 <=? len (rows df0))%Z with false by lia. by rewrite andb_false_r.
    + by rewrite Hidx.
    + rewrite Hlast. replace (get_date h <=? bar_date b)%Z with false by lia.
      by destruct (_ && _).
Qed.

Lemma get_daily_df_drops_current_bar_witness :
  ∃ df,
    result_of (_get_daily_df (BarScenario.host 100 BarScenario.three_bars 0 [] None)
                 "X" 80 (BarScenario.fresh balanced)) = Ok (Some df)
    ∧ len (rows df) = 2%Z.
Proof.
  destruct (get_daily_df_drops_current_bar
              (BarScenario.host 100 BarScenario.three_bars 0 [] None)
              (BarScenario.fresh balanced) "X" 80 (Scenario.frame BarScenario.three_bars))
    as (df & Hres & _ & _ & _ & Hdrop & _).
  - left. vm_compute. discriminate.
  - reflexivity.
  - exists df. split; [exact Hres|].
    destruct (Hdrop (mkBar 100 11 11 11 11 1000)) as [_ ->];
      [reflexivity | vm_compute; discriminate | reflexivity | vm_compute; discriminate |].
    reflexivity.
Defined.

(** C3 (as stated) fails: a series of two bars keeps a last bar dated on the
    trading day. *)
Lemma no_lookahead_short_series_counterexample : ¬ no_lookahead_claim_as_stated.
Proof.
  intros H.
  destruct (H (BarScenario.host 100 BarScenario.two_bars 0 [] None)
              (BarScenario.fresh balanced) "X" 80%Z
              (Scenario.frame BarScenario.two_bars) (mkBar 100 11 11 11 11 1000))
    as (df & Hres & _ & Hrows).
  - left. vm_compute. discriminate.
  - reflexivity.
  - reflexivity.
  - reflexivity.
  - vm_compute. discriminate.
  - vm_compute in Hres. injection Hres as <-. vm_compute in Hrows. discriminate.
Qed.

(* ================================================================= *)
(** ** Average true range *)

Lemma true_range_length prev bs : length (true_range prev bs) = length bs.
Proof. revert prev. induction bs as [|b r IH]; intros prev; cbn; [done|]. by rewrite IH. Qed.

Lemma atr_of_frame_cases (period : Z) (df : DataFrame) :
  (1 <= period)%Z → rows df ≠ [] →
  atr_of_frame period df
  = Ok (if (len (rows df) <? period)%Z then None
        else if Py.Qleb (atr_mean period df) 0 then None
             else Some (atr_mean period df)).
Proof.
  intros Hp Hne. unfold atr_of_frame, rolling_mean_last, atr_mean.
  replace (period <? 0)%Z with false by lia.
  replace (period =? 0)%Z with false by lia. cbn [orb].
  assert (len (true_range None (rows df)) = len (rows df)) as Hlen
    by (unfold len; by rewrite true_range_length).
  destruct (true_range None (rows df)) as [|t tr] eqn:Htr.
  { destruct (rows df); [done|]. discriminate Htr. }
  rewrite Hlen. destruct (len (rows df) <? period)%Z; [done|].
  by destruct (Py.Qleb _ 0).
Qed.

(** Whenever [_atr] answers with a value, the value is positive. *)
Lemma atr_of_frame_positive period df a : atr_of_frame period df = Ok (Some a) → 0 < a.
Proof.
  unfold atr_of_frame. destruct (rolling_mean_last _ _) as [[m|]|]; try done.
  destruct (Py.Qleb m 0) eqn:Hm; [done|]. intros [= <-]. by apply Qleb_false.
Qed.

Lemma atr_positive h symbol s a : result_of (_atr h symbol s) = Ok (Some a) → 0 < a.
Proof.
  unfold _atr. rewrite bind_get_state.
  destruct (get_daily_df_total h symbol (atr_length (profile s)) s) as [df Hdf].
  rewrite (bind_result_Ok _ _ _ _ Hdf). cbn [result_of fst].
  destruct df as [df|]; [|done]. destruct (negb _); [done|].
  destruct (atr_of_frame _ df) as [[a'|]|] eqn:Ha; cbn; try done.
  intros [= <-]. by eapply atr_of_frame_positive.
Qed.

(** C5 (as the code has it).  [_atr] asks for [max(atr_period + 10, 80)] bars
    but does not insist on getting them: on a non-empty frame with the three
    price columns it answers none when fewer than [atr_period] bars came back
    or the rolling mean of the true range is not positive, and answers that
    mean otherwise. *)
Theorem atr_needs_period_bars (h : Host) (s : EngineState) (symbol : string)
    (df : DataFrame) :
  result_of (_get_daily_df h symbol (atr_length (profile s)) s) = Ok (Some df) →
  has_column "high" df && has_column "low" df && has_column "close" df = true →
  rows df ≠ [] →
  (1 <= atr_period (profile s))%Z →
  let period := atr_period (profile s) in
  atr_length (profile s) = Z.max (period + 10) 80
  ∧ (80 <= atr_length (profile s))%Z
  ∧ ((len (rows df) < period)%Z → result_of (_atr h symbol s) = Ok None)
  ∧ ((period <= len (rows df))%Z → atr_mean period df <= 0 →
     result_of (_atr h symbol s) = Ok None)
  ∧ ((period <= len (rows df))%Z → 0 < atr_mean period df →
     result_of (_atr h symbol s) = Ok (Some (atr_mean period df))).
Proof.
  intros Hdf Hcols Hne Hp period.
  assert (result_of (_atr h symbol s) = atr_of_frame period df) as ->.
  { unfold _atr. rewrite bind_get_state, (bind_result_Ok _ _ _ _ Hdf).
    cbn [result_of fst]. rewrite Hcols. cbn [negb].
    fold period. by destruct (atr_of_frame period df). }
  rewrite atr_of_frame_cases by done.
  split; [done|]. split; [unfold atr_length; lia|]. split; [|split].
  - intros Hlt. by replace (len (rows df) <? period)%Z with true by lia.
  - intros Hge Hle. replace (len (rows df) <? period)%Z with false by lia.
    apply Qleb_true in Hle. by rewrite Hle.
  - intros Hge Hlt. replace (len (rows df) <? period)%Z with false by lia.
    apply Qleb_false in Hlt. by rewrite Hlt.
Qed.

Lemma atr_needs_period_bars_witness :
  ∃ a, result_of (_atr (BarScenario.host 100 BarScenario.fourteen_bars 0 [] None) "X"
                    (BarScenario.fresh balanced)) = Ok (Some a)
       ∧ a == 1.
Proof.
  pose (h := BarScenario.host 100 BarScenario.fourteen_bars 0 [] None).
  pose (df := prepare_frame (Scenario.frame BarScenario.fourteen_bars)).
  destruct (atr_needs_period_bars h (BarScenario.fresh balanced) "X" df)
    as (_ & _ & _ & _ & Hval).
  - vm_compute. reflexivity.
  - reflexivity.
  - vm_compute. discriminate.
  - vm_compute. discriminate.
  - exists (atr_mean 14 df). split.
    + apply Hval; vm_compute; [discriminate|reflexivity].
    + vm_compute. reflexivity.
Defined.

(** C5 (as stated) fails: fourteen bars are fewer than [atr_period + 10 = 24],
    yet the balanced profile's ATR over them is one. *)
Lemma atr_history_counterexample : ¬ atr_history_claim_as_stated.
Proof.
  intros H.
  specialize (H (BarScenario.host 100 BarScenario.fourteen_bars 0 [] None)
                (BarScenario.fresh balanced) "X"
                (prepare_frame (Scenario.frame BarScenario.fourteen_bars))).
  assert (Hres := H ltac:(vm_compute; reflexivity) ltac:(vm_compute; reflexivity)).
  vm_compute in Hres. discriminate.
Qed.

(* ================================================================= *)
(** ** Trailing stop *)

Lemma submitted_app ev1 ev2 : submitted (ev1 ++ ev2) = submitted ev1 ++ submitted ev2.
Proof. apply omap_app. Qed.

Lemma submitted_quiet ev : Forall quiet ev → submitted ev = [].
Proof.
  induction 1 as [|e ev He _ IH]; [done|].
  unfold submitted in *. cbn. destruct e; [done|]. exact IH.
Qed.

Lemma elem_of_submitted o ev : o ∈ submitted ev ↔ Submit o ∈ ev.
Proof.
  unfold submitted. rewrite list_elem_of_omap. split.
  - intros (e & He & Heq). destruct e; simplify_eq. done.
  - intros He. exists (Submit o). done.
Qed.

(** One turn of the trailing-stop loop on a long position with a price and
    an ATR reading, step by step. *)
Lemma trailing_stop_one_run h s pos px a :
  0 < pos_quantity pos →
  get_last_price h (_src_symbol h (pos_symbol pos)) = Some px →
  0 < px →
  let sym := pos_symbol pos in
  let high := running_high s sym px in
  let s1 := set_highest_close (<[sym := high]> (_highest_close s)) s in
  result_of (_atr h sym s1) = Ok (Some a) →
  let s2 := state_of (_atr h sym s1) in
  let stop := high - atr_mult_trail (profile s) * a in
  trailing_stop_one h pos s
  = if Py.Qleb px stop
    then (Ok tt, set_highest_close (delete sym (_highest_close s2)) s2,
          events_of (_atr h sym s1)
          ++ [Log (LogExitTrail sym (pos_quantity pos) px stop);
              Submit (mkOrder (_src_symbol h sym) (Qabs (pos_quantity pos)) Sell)])
    else (Ok tt, s2, events_of (_atr h sym s1) ++ []).
Proof.
  intros Hqty Hpx Hpos sym high s1 Hatr s2 stop. unfold trailing_stop_one.
  apply Qleb_false in Hqty as ->. rewrite Hpx. fold sym.
  apply Qleb_false in Hpos as ->.
  rewrite bind_get_state, bind_modify.
  change (set_highest_close _ s) with s1.
  rewrite (bind_result_Ok _ _ _ _ Hatr). fold s2.
  rewrite bind_get_state.
  destruct (atr_keeps h sym s1) as [(Hprof & _) _]. fold s2 in Hprof.
  rewrite Hprof. change (profile s1) with (profile s). fold high stop.
  destruct (Py.Qleb px stop); [|reflexivity].
  unfold log_message, submit_order. rewrite !bind_emit. reflexivity.
Qed.

(** C2 (as the code has it).  For a long position with a positive price, a
    running high [high] and an ATR reading [a], the stop level is
    [high - atr_mult_trail * a].  While the price is strictly above it no
    order is emitted and [high] stays tracked.  When the price is at or below
    it, exactly one order is emitted, a sell of the full quantity, and the
    symbol leaves the tracked-high map; with a positive [atr_mult_trail] the
    next evaluation of the same symbol starts from the current price as its
    high and emits nothing. *)
Theorem trailing_stop_fires_at_or_below_stop (h : Host) (s : EngineState)
    (pos : Position) (px a : Q) :
  0 < pos_quantity pos →
  get_last_price h (_src_symbol h (pos_symbol pos)) = Some px →
  0 < px →
  let sym := pos_symbol pos in
  let high := running_high s sym px in
  let s1 := set_highest_close (<[sym := high]> (_highest_close s)) s in
  result_of (_atr h sym s1) = Ok (Some a) →
  let stop := high - atr_mult_trail (profile s) * a in
  let o := trailing_stop_one h pos s in
  result_of o = Ok tt
  ∧ (stop < px →
     submitted (events_of o) = []
     ∧ _highest_close (state_of o) !! sym = Some high)
  ∧ (px <= stop →
     submitted (events_of o)
       = [mkOrder (_src_symbol h sym) (Qabs (pos_quantity pos)) Sell]
     ∧ _highest_close (state_of o) !! sym = None
     ∧ ∀ (h' : Host) (pos' : Position) (px' a' : Q),
         pos_symbol pos' = sym →
         0 < pos_quantity pos' →
         get_last_price h' (_src_symbol h' sym) = Some px' →
         0 < px' →
         0 < atr_mult_trail (profile s) →
         result_of (_atr h' sym
                      (set_highest_close (<[sym := px']> (_highest_close (state_of o)))
                         (state_of o))) = Ok (Some a') →
         submitted (events_of (trailing_stop_one h' pos' (state_of o))) = []).
Proof.
  intros Hqty Hpx Hpos sym high s1 Hatr stop o.
  pose proof (trailing_stop_one_run h s pos px a Hqty Hpx Hpos Hatr) as Hrun.
  cbv zeta in Hrun. fold sym high s1 stop o in Hrun.
  destruct (atr_keeps h sym s1) as [Hfr Hquiet].
  destruct Hfr as (Hprof & _ & _ & Hhc & _).
  set (s2 := state_of (_atr h sym s1)) in *.
  split; [by destruct (Py.Qleb px stop); rewrite Hrun|]. split.
  - intros Hlt. apply Qleb_false in Hlt. rewrite Hlt in Hrun. rewrite Hrun.
    cbn [events_of state_of fst snd]. rewrite app_nil_r. split.
    + by apply submitted_quiet.
    + rewrite Hhc. cbn. apply lookup_insert_eq.
  - intros Hle. apply Qleb_true in Hle. rewrite Hle in Hrun. rewrite Hrun.
    cbn [events_of state_of fst snd]. split; [|split].
    + rewrite submitted_app, (submitted_quiet _ Hquiet). reflexivity.
    + cbn. apply lookup_delete_eq.
    + intros h' pos' px' a' Hsym Hqty' Hpx' Hpos' Hmult Hatr'.
      set (s3 := set_highest_close (delete sym (_highest_close s2)) s2) in *.
      pose proof (trailing_stop_one_run h' s3 pos' px' a' Hqty') as Hrun'.
      rewrite Hsym in Hrun'. specialize (Hrun' Hpx' Hpos').
      cbv zeta in Hrun'.
      assert (running_high s3 sym px' = px') as Hhigh.
      { unfold running_high, dict_get. cbn. rewrite lookup_delete_eq. cbn.
        assert (Py.Qltb px' px' = false) as -> by (apply Qltb_false; lra). done. }
      rewrite Hhigh in Hrun'. specialize (Hrun' Hatr').
      pose proof (atr_positive _ _ _ _ Hatr') as Ha'.
      assert (Py.Qleb px' (px' - atr_mult_trail (profile s3) * a') = false) as Hno.
      { apply Qleb_false. change (profile s3) with (profile s2). rewrite Hprof.
        change (profile s1) with (profile s). nra. }
      rewrite Hno in Hrun'. rewrite Hrun'. cbn [events_of snd]. rewrite app_nil_r.
      apply submitted_quiet, (atr_keeps h' sym).
Qed.

Lemma trailing_stop_fires_at_or_below_stop_witness :
  submitted (events_of (trailing_stop_one (StopScenario.host 100) StopScenario.position
                          StopScenario.state))
  = [mkOrder "AAA" (Qabs 10) Sell]
  ∧ submitted (events_of (trailing_stop_one (StopScenario.host 101) StopScenario.position
                            StopScenario.state))
    = [].
Proof.
  split.
  - edestruct (trailing_stop_fires_at_or_below_stop (StopScenario.host 100)
                 StopScenario.state StopScenario.position 100) as (_ & _ & Hfire);
      [reflexivity | reflexivity | reflexivity | vm_compute; reflexivity |].
    destruct (Hfire ltac:(vm_compute; discriminate)) as [Hsold _].
    vm_compute in Hsold. vm_compute. exact Hsold.
  - edestruct (trailing_stop_fires_at_or_below_stop (StopScenario.host 101)
                 StopScenario.state StopScenario.position 101) as (_ & Hhold & _);
      [reflexivity | reflexivity | reflexivity | vm_compute; reflexivity |].
    destruct (Hhold ltac:(vm_compute; reflexivity)) as [Hquiet _].
    vm_compute in Hquiet. vm_compute. exact Hquiet.
Defined.

(** C2 (as stated) fails: at a price of 100, exactly the tracked high 113.5
    minus 2.7 times the ATR of 5, the position is sold. *)
Lemma trailing_stop_at_level_counterexample : ¬ trailing_stop_claim_as_stated.
Proof.
  intros H.
  eapply (H (StopScenario.host 100) StopScenario.state StopScenario.position 100);
    [reflexivity | reflexivity | reflexivity | vm_compute; reflexivity
    | vm_compute; discriminate |].
  apply elem_of_submitted. vm_compute. apply list_elem_of_here.
Qed.

(* ================================================================= *)
(** ** Rebalance: the empty selection and the exits *)

Lemma nonzero_true q : nonzero q = true ↔ ¬ q == 0.
Proof.
  unfold nonzero. rewrite negb_true_iff, <- not_true_iff_false, Qeq_bool_iff. done.
Qed.

Lemma closing_side_long q : 0 < q → closing_side q = Sell.
Proof. intros H. unfold closing_side. apply Qltb_true in H. by rewrite H. Qed.

Lemma closing_side_short q : q <= 0 → closing_side q = Buy.
Proof. intros H. unfold closing_side. apply Qltb_false in H. by rewrite H. Qed.

(** An event that a loop body emits for [x] from every state is emitted by
    the loop over a list containing [x], provided the body cannot raise. *)
Lemma for_each_emits {A} (xs : list A) (body : A → M unit) (x : A) (e : Event) :
  (∀ y, never_raises (body y)) →
  x ∈ xs →
  (∀ s, e ∈ events_of (body x s)) →
  ∀ s, e ∈ events_of (for_each xs body s).
Proof.
  intros Htot Hin He. induction xs as [|y r IH]; intros s; [by apply elem_of_nil in Hin|].
  cbn [for_each]. destruct (Htot y s) as [[] Hy].
  rewrite (bind_result_Ok _ _ _ _ Hy). cbn [events_of snd].
  apply elem_of_app. apply elem_of_cons in Hin as [->|Hin]; [left; apply He|].
  right. by apply IH.
Qed.

Lemma sell_unselected_one_total h selected pos :
  never_raises (sell_unselected_one h selected pos).
Proof. unfold sell_unselected_one, pop_highest_close. repeat total_step. Qed.

Lemma sell_unselected_one_emits h selected pos s :
  ¬ pos_quantity pos == 0 →
  pos_symbol pos ∉ selected →
  Submit (mkOrder (_src_symbol h (pos_symbol pos)) (Qabs (pos_quantity pos))
            (closing_side (pos_quantity pos)))
  ∈ events_of (sell_unselected_one h selected pos s).
Proof.
  intros Hq Hsel. unfold sell_unselected_one.
  apply nonzero_true in Hq as ->. rewrite bool_decide_eq_false_2 by done. cbn [negb andb].
  unfold submit_order. rewrite bind_emit. cbn. apply list_elem_of_here.
Qed.

(** C10.  With an empty selection [_rebalance] writes its diagnostic and does
    nothing else: no order, the engine state as it was.  With a non-empty
    selection every position of non-zero quantity whose symbol is not
    selected gets its closing order for the full quantity, a sell when the
    position is long. *)
Theorem rebalance_empty_selection_skips_exits (h : Host) (s : EngineState)
    (exposure : Q) (selected : list string) (pos : Position) :
  selected ≠ [] →
  pos ∈ get_positions h →
  ¬ pos_quantity pos == 0 →
  pos_symbol pos ∉ selected →
  (_rebalance h [] exposure s = (Ok tt, s, [Log LogRebalanceNoneSelected])
   ∧ submitted (events_of (_rebalance h [] exposure s)) = [])
  ∧ mkOrder (_src_symbol h (pos_symbol pos)) (Qabs (pos_quantity pos))
            (closing_side (pos_quantity pos))
      ∈ submitted (events_of (_rebalance h selected exposure s))
  ∧ (0 < pos_quantity pos →
     mkOrder (_src_symbol h (pos_symbol pos)) (Qabs (pos_quantity pos)) Sell
       ∈ submitted (events_of (_rebalance h selected exposure s))).
Proof.
  intros Hne Hpos Hq Hsel.
  assert (mkOrder (_src_symbol h (pos_symbol pos)) (Qabs (pos_quantity pos))
            (closing_side (pos_quantity pos))
            ∈ submitted (events_of (_rebalance h selected exposure s))) as Hexit.
  { apply elem_of_submitted. unfold _rebalance.
    destruct selected as [|x sel] eqn:Hs; [done|]. rewrite <- Hs in *.
    eapply elem_of_prefix; [|apply bind_events_prefix].
    apply for_each_emits with (x := pos); [|done|].
    - intros y. apply sell_unselected_one_total.
    - intros s'. by apply sell_unselected_one_emits. }
  split; [split; reflexivity|]. split; [exact Hexit|].
  intros Hlong. by rewrite <- (closing_side_long _ Hlong).
Qed.

Lemma rebalance_empty_selection_skips_exits_witness :
  submitted (events_of (_rebalance (StopScenario.host 100) [] 1 StopScenario.state)) = []
  ∧ mkOrder "AAA" (Qabs 10) Sell
      ∈ submitted (events_of (_rebalance (StopScenario.host 100) ["BBB"] 1
                                StopScenario.state)).
Proof.
  destruct (rebalance_empty_selection_skips_exits (StopScenario.host 100)
              StopScenario.state 1 ["BBB"] StopScenario.position)
    as ((_ & Hnone) & _ & Hsell).
  - discriminate.
  - apply list_elem_of_here.
  - vm_compute. discriminate.
  - vm_compute. intros Hin. apply list_elem_of_singleton in Hin. discriminate.
  - split; [exact Hnone|]. apply Hsell. reflexivity.
Defined.

(* ================================================================= *)
(** ** Drawdown breaker *)

Lemma on_trading_iteration_unfold h :
  on_trading_iteration h
  = bind (_apply_trailing_stops h)
      (λ _, bind (_apply_drawdown_breaker h) (λ _, gate_and_rebalance h)).
Proof. reflexivity. Qed.

Lemma guard_frame_refl s : guard_frame s s.
Proof. by repeat split. Qed.

Lemma guard_frame_trans a b c : guard_frame a b → guard_frame b c → guard_frame a c.
Proof. unfold guard_frame. intros H1 H2. destruct_and!. repeat split; congruence. Qed.

Lemma only_cache_and_highs_guard s s' : only_cache_and_highs s s' → guard_frame s s'.
Proof. unfold only_cache_and_highs, guard_frame. intros. destruct_and!. by repeat split. Qed.

#[export] Hint Resolve guard_frame_refl guard_frame_trans : keeps.

Lemma keeps_highs_to_guard {A} (m : M A) :
  keeps only_cache_and_highs not_breaker m → keeps guard_frame not_breaker m.
Proof. apply keeps_weaken; [apply only_cache_and_highs_guard | done]. Qed.

Lemma keeps_cache_to_guard {A} (m : M A) :
  keeps only_cache quiet m → keeps guard_frame not_breaker m.
Proof. intros H. by apply keeps_highs_to_guard, keeps_cache_to_highs. Qed.

Lemma risk_on_fraction_keeps_guard h : keeps guard_frame not_breaker (_risk_on_fraction h).
Proof. apply keeps_cache_to_guard, risk_on_fraction_keeps. Qed.

Lemma rank_candidates_keeps_guard h : keeps guard_frame not_breaker (_rank_candidates h).
Proof. apply keeps_cache_to_guard, rank_candidates_keeps. Qed.

Lemma rebalance_keeps_guard h selected exposure :
  keeps guard_frame not_breaker (_rebalance h selected exposure).
Proof. apply keeps_highs_to_guard, rebalance_keeps. Qed.

#[export] Hint Resolve risk_on_fraction_keeps_guard rank_candidates_keeps_guard
  rebalance_keeps_guard : keeps.

Lemma gate_and_rebalance_keeps h : keeps guard_frame not_breaker (gate_and_rebalance h).
Proof. unfold gate_and_rebalance. repeat keeps_step. Qed.

Lemma liquidate_one_keeps h pos :
  keeps only_cache_and_highs not_breaker (liquidate_one h pos).
Proof. unfold liquidate_one. repeat keeps_step. Qed.

Lemma liquidate_one_total h pos : never_raises (liquidate_one h pos).
Proof. unfold liquidate_one, pop_highest_close. repeat total_step. Qed.

Lemma liquidate_one_emits h pos s :
  ¬ pos_quantity pos == 0 →
  Submit (mkOrder (_src_symbol h (pos_symbol pos)) (Qabs (pos_quantity pos))
            (closing_side (pos_quantity pos)))
  ∈ events_of (liquidate_one h pos s).
Proof.
  intros Hq. unfold liquidate_one. apply nonzero_true in Hq as ->.
  unfold submit_order. rewrite bind_emit. cbn. apply list_elem_of_here.
Qed.

Lemma dd_logs_app ev1 ev2 : dd_logs (ev1 ++ ev2) = dd_logs ev1 ++ dd_logs ev2.
Proof. apply omap_app. Qed.

Lemma dd_logs_not_breaker ev : Forall not_breaker ev → dd_logs ev = [].
Proof.
  induction 1 as [|e ev He _ IH]; [done|].
  unfold dd_logs in *. cbn. destruct e as [|[]]; done.
Qed.

(** [_apply_drawdown_breaker], branch by branch. *)
Lemma apply_drawdown_breaker_run h s :
  let pv := get_portfolio_value h in
  _apply_drawdown_breaker h s
  = match _equity_peak s with
    | None => (Ok tt, set_equity_peak (Some pv) s, [])
    | Some peak =>
        if Py.Qltb peak pv then (Ok tt, set_equity_peak (Some pv) s, [])
        else if Py.Qleb (max_drawdown (profile s)) (drawdown peak pv) then
          (Ok tt,
           set_cooldown_until (Some (get_date h + cooldown_days (profile s))%Z)
             (state_of (liquidation h s)),
           Log (LogDDBreaker (drawdown peak pv)) :: events_of (liquidation h s))
        else (Ok tt, s, [])
    end.
Proof.
  intros pv. unfold _apply_drawdown_breaker. rewrite bind_get_state. fold pv.
  destruct (_equity_peak s) as [peak|]; [|reflexivity].
  destruct (Py.Qltb peak pv); [reflexivity|].
  destruct (Py.Qleb _ _); [|reflexivity].
  unfold log_message. rewrite bind_emit.
  destruct (never_raises_for_each (get_positions h) (liquidate_one h)
              (liquidate_one_total h) s) as [[] Hl].
  rewrite (bind_result_Ok _ _ _ _ Hl). cbn [result_of state_of events_of fst snd].
  unfold modify at 1 2 3. cbn. by rewrite app_nil_r.
Qed.

Lemma breach_iff h s :
  breach h s ↔
  ∃ peak, _equity_peak s = Some peak
          ∧ Py.Qltb peak (get_portfolio_value h) = false
          ∧ Py.Qleb (max_drawdown (profile s)) (drawdown peak (get_portfolio_value h)) = true.
Proof.
  unfold breach. split; intros (peak & Hp & H1 & H2); exists peak; split; try done.
  - by rewrite Qltb_false, Qleb_true.
  - by rewrite <- Qltb_false, <- Qleb_true.
Qed.

Lemma breaker_fires_iff_breach h s :
  dd_logs (events_of (_apply_drawdown_breaker h s)) ≠ [] ↔ breach h s.
Proof.
  rewrite breach_iff, apply_drawdown_breaker_run. cbv zeta.
  destruct (_equity_peak s) as [peak|]; [|split; [done|by intros (? & ? & _)]].
  destruct (Py.Qltb peak _) eqn:H1; [split; [done|intros (? & [= <-] & ? & _); congruence]|].
  destruct (Py.Qleb _ _) eqn:H2; [|split; [done|intros (? & [= <-] & ? & ?); congruence]].
  split; [intros _; eauto|]. intros _. cbn. done.
Qed.

(** The drawdown from a fixed peak does not shrink when the value falls. *)
Lemma drawdown_antitone peak pv pv' : pv' <= pv → drawdown peak pv <= drawdown peak pv'.
Proof.
  intros Hle. unfold drawdown.
  assert (0 < Py.max (1 # 1000000000) peak) as Hpos.
  { pose proof (Py_max_ge_l (1 # 1000000000) peak). lra. }
  apply Qmult_le_compat_r; [lra|]. apply Qlt_le_weak, Qinv_lt_0_compat, Hpos.
Qed.

Lemma apply_drawdown_breaker_Ok h s : result_of (_apply_drawdown_breaker h s) = Ok tt.
Proof.
  rewrite apply_drawdown_breaker_run. cbv zeta.
  destruct (_equity_peak s); [|done]. destruct (Py.Qltb _ _); [done|].
  by destruct (Py.Qleb _ _).
Qed.

(** A trading step whose trailing stops complete, cut into its three stages. *)
Lemma on_trading_iteration_run h s :
  result_of (_apply_trailing_stops h s) = Ok tt →
  let t := _apply_trailing_stops h s in
  let b := _apply_drawdown_breaker h (state_of t) in
  let g := gate_and_rebalance h (state_of b) in
  on_trading_iteration h s
  = (result_of g, state_of g, events_of t ++ events_of b ++ events_of g).
Proof.
  intros Hts t b g. rewrite on_trading_iteration_unfold.
  rewrite (bind_result_Ok _ _ _ _ Hts). fold t.
  rewrite (bind_result_Ok _ _ _ _ (apply_drawdown_breaker_Ok h (state_of t))).
  reflexivity.
Qed.

Lemma breach_frame h s s' :
  profile s' = profile s → _equity_peak s' = _equity_peak s → breach h s' ↔ breach h s.
Proof. intros Hp He. unfold breach. by rewrite Hp, He. Qed.

(** The breaker fires in a step exactly when its test holds on the state the
    step starts from. *)
Lemma breaker_fired_iff_breach h s :
  result_of (_apply_trailing_stops h s) = Ok tt →
  breaker_fired (on_trading_iteration h s) = true ↔ breach h s.
Proof.
  intros Hts. rewrite (on_trading_iteration_run h s Hts). cbv zeta.
  set (t := _apply_trailing_stops h s).
  destruct (apply_trailing_stops_keeps h s) as [Hfr Hev]. fold t in Hfr, Hev.
  destruct (gate_and_rebalance_keeps h (state_of (_apply_drawdown_breaker h (state_of t))))
    as [_ Hev'].
  unfold breaker_fired. cbn [events_of snd].
  rewrite !dd_logs_app, (dd_logs_not_breaker _ Hev), (dd_logs_not_breaker _ Hev').
  rewrite app_nil_r. cbn [app].
  rewrite <- (breach_frame h s (state_of t)) by apply Hfr.
  rewrite <- breaker_fires_iff_breach.
  destruct (dd_logs _); split; done.
Qed.

(** Why the breaker is not one-shot.  In a step whose trailing stops
    complete it fires exactly when a peak is recorded, the portfolio value
    does not exceed it and the drawdown from it is at least [max_drawdown].
    Firing leaves the peak as it was, sets
    [cooldown_until = today + cooldown_days] and submits the closing order of
    every open position; nothing records that it has fired, so on the next
    step it fires again whenever the portfolio value has not risen, without
    any new peak in between, and moves the cooldown date on. *)
Lemma drawdown_breaker_is_level_triggered (h h' : Host) (s : EngineState) :
  result_of (_apply_trailing_stops h s) = Ok tt →
  let o := on_trading_iteration h s in
  (breaker_fired o = true ↔ breach h s)
  ∧ (breach h s →
     _equity_peak (state_of o) = _equity_peak s
     ∧ _cooldown_until (state_of o) = Some (get_date h + cooldown_days (profile s))%Z
     ∧ (∀ pos, pos ∈ get_positions h → ¬ pos_quantity pos == 0 →
               mkOrder (_src_symbol h (pos_symbol pos)) (Qabs (pos_quantity pos))
                       (closing_side (pos_quantity pos))
                 ∈ submitted (events_of o))
     ∧ (result_of (_apply_trailing_stops h' (state_of o)) = Ok tt →
        get_portfolio_value h' <= get_portfolio_value h →
        ¬ new_peak h' (state_of o)
        ∧ breaker_fired (on_trading_iteration h' (state_of o)) = true)).
Proof.
  intros Hts o. split; [by apply breaker_fired_iff_breach|].
  intros Hbreach. subst o. rewrite (on_trading_iteration_run h s Hts). cbv zeta.
  set (t := _apply_trailing_stops h s).
  set (b := _apply_drawdown_breaker h (state_of t)).
  set (g := gate_and_rebalance h (state_of b)).
  cbn [state_of events_of fst snd].
  destruct (apply_trailing_stops_keeps h s) as [Hfr _]. fold t in Hfr.
  destruct Hfr as (Hprof & _ & _ & Hpeak & _).
  destruct (gate_and_rebalance_keeps h (state_of b)) as [(Hgp & Hge & Hgc) _]. fold g in Hgp, Hge, Hgc.
  pose proof (proj2 (breach_frame h s (state_of t) Hprof Hpeak) Hbreach) as Hb1.
  apply breach_iff in Hb1 as (peak & Hpk & Hlt & Hdd).
  pose proof (apply_drawdown_breaker_run h (state_of t)) as Hrun. cbv zeta in Hrun.
  fold b in Hrun. rewrite Hpk, Hlt, Hdd in Hrun.
  destruct (keeps_for_each only_cache_and_highs not_breaker only_cache_and_highs_refl
              only_cache_and_highs_trans (get_positions h) (liquidate_one h)
              (liquidate_one_keeps h) (state_of t)) as [(Hlp & _ & _ & Hle & _) _].
  fold (liquidation h (state_of t)) in Hlp, Hle.
  assert (profile (state_of b) = profile s) as Hbp.
  { rewrite Hrun. cbn. by rewrite Hlp. }
  assert (_equity_peak (state_of b) = _equity_peak s) as Hbe.
  { rewrite Hrun. cbn. by rewrite Hle. }
  assert (_equity_peak (state_of g) = _equity_peak s) as Hpeak' by congruence.
  split; [exact Hpeak'|]. split; [|split].
  - rewrite Hgc, Hrun. cbn. by rewrite Hprof.
  - intros pos Hin Hq. apply elem_of_submitted.
    apply elem_of_app. right. apply elem_of_app. left.
    rewrite Hrun. cbn [events_of snd]. apply elem_of_cons. right.
    apply for_each_emits with (x := pos); [apply liquidate_one_total|done|].
    intros s'. by apply liquidate_one_emits.
  - intros Hts' Hpv.
    assert (breach h' (state_of g)) as Hagain.
    { exists peak. rewrite Hpeak', <- Hpeak, Hpk. split; [done|].
      apply Qltb_false in Hlt. apply Qleb_true in Hdd.
      split; [lra|]. rewrite Hgp, Hbp, <- Hprof.
      eapply Qle_trans; [exact Hdd|]. by apply drawdown_antitone. }
    split.
    + unfold new_peak. destruct Hagain as (peak' & -> & Hle' & _). lra.
    + by apply breaker_fired_iff_breach.
Qed.

Lemma drawdown_breaker_is_level_triggered_witness :
  breaker_fired (on_trading_iteration BreakerScenario.day2
                   (state_of (on_trading_iteration BreakerScenario.day1
                                BreakerScenario.start))) = true
  ∧ breaker_fired
      (on_trading_iteration BreakerScenario.day3
         (state_of (on_trading_iteration BreakerScenario.day2
                      (state_of (on_trading_iteration BreakerScenario.day1
                                   BreakerScenario.start))))) = true.
Proof.
  pose (s1 := state_of (on_trading_iteration BreakerScenario.day1 BreakerScenario.start)).
  assert (breach BreakerScenario.day2 s1) as Hbreach.
  { exists 100000. split; [reflexivity|]. split; vm_compute; discriminate. }
  destruct (drawdown_breaker_is_level_triggered BreakerScenario.day2 BreakerScenario.day3 s1)
    as (Hiff & Hfire); [vm_compute; reflexivity|].
  split; [by apply Hiff|].
  destruct (Hfire Hbreach) as (_ & _ & _ & Hnext).
  apply Hnext; [vm_compute; reflexivity | vm_compute; discriminate].
Defined.

(** The one-shot property fails in the code: at 70,000 against a peak of
    100,000 the breaker fires on day 102 and again on day 103, with no step
    in between. *)
Lemma breaker_refires_counterexample : ¬ one_shot_claim_as_stated.
Proof.
  intros H.
  assert (∃ oi, run BreakerScenario.days BreakerScenario.start !! 1%nat = Some oi
                ∧ breaker_fired oi = true) as (oi & Hi & Hfi).
  { vm_compute. eexists. split; [reflexivity | vm_compute; reflexivity]. }
  assert (∃ oj, run BreakerScenario.days BreakerScenario.start !! 2%nat = Some oj
                ∧ breaker_fired oj = true) as (oj & Hj & Hfj).
  { vm_compute. eexists. split; [reflexivity | vm_compute; reflexivity]. }
  destruct (H BreakerScenario.days BreakerScenario.start 1%nat 2%nat oi oj
              ltac:(lia) Hi Hfi Hj Hfj) as (k & _ & _ & Hk & _).
  lia.
Qed.

(** C1.  With the balanced profile and a fresh state, over the days 101
    (100,000, AAA held), 102 (70,000, AAA held), 103 and 113 (70,000 in
    cash), the breaker fires on day 102, on day 103 and on day 113, where the
    specified breaker fires once: the recorded peak stays 100,000 and the
    portfolio value never sets a new peak in between.  Each firing moves the
    cooldown date on (112, 113, 123), so on day 113 the ten-day cooldown of
    day 102, which by then has run out, is in force again. *)
Theorem breaker_refires_without_new_peak :
  ∃ o1 o2 o3 o4,
    run LockoutScenario.days BreakerScenario.start = [o1; o2; o3; o4]
    ∧ (breaker_fired o1 = false ∧ breaker_fired o2 = true
       ∧ breaker_fired o3 = true ∧ breaker_fired o4 = true)
    ∧ (_equity_peak (state_of o1) = Some 100000
       ∧ _equity_peak (state_of o2) = Some 100000
       ∧ _equity_peak (state_of o3) = Some 100000
       ∧ _equity_peak (state_of o4) = Some 100000)
    ∧ (¬ new_peak BreakerScenario.day3 (state_of o2)
       ∧ ¬ new_peak LockoutScenario.day4 (state_of o3))
    ∧ (_cooldown_until (state_of o2) = Some 112%Z
       ∧ _cooldown_until (state_of o3) = Some 113%Z
       ∧ _cooldown_until (state_of o4) = Some 123%Z)
    ∧ (_in_cooldown LockoutScenario.day4 (state_of o2) = false
       ∧ _in_cooldown LockoutScenario.day4 (state_of o4) = true)
    ∧ ¬ one_shot_claim_as_stated.
Proof.
  assert (∃ o1 o2 o3 o4,
            run LockoutScenario.days BreakerScenario.start = [o1; o2; o3; o4])
    as (o1 & o2 & o3 & o4 & Hrun).
  { vm_compute. do 4 eexists. reflexivity. }
  exists o1, o2, o3, o4. split; [exact Hrun|].
  vm_compute in Hrun. simplify_eq.
  split; [by vm_compute|]. split; [by vm_compute|].
  split; [split; vm_compute; intros H; discriminate H|].
  split; [by vm_compute|]. split; [by vm_compute|].
  exact breaker_refires_counterexample.
Qed.

(* ================================================================= *)
(** ** Risk sizing *)

(** *** Insertion-ordered dictionaries *)

Lemma dict_set_fresh {V} (k : string) (v : V) d :
  k ∉ map fst d → Py.dict_set k v d = d ++ [(k, v)].
Proof.
  induction d as [|[k' v'] d IH]; intros Hk; cbn; [done|].
  cbn in Hk. apply not_elem_of_cons in Hk as [Hne Hk].
  rewrite bool_decide_eq_false_2 by done. by rewrite IH.
Qed.

Lemma dict_set_keys {V} (k : string) (v : V) d :
  map fst (Py.dict_set k v d) = if decide (k ∈ map fst d) then map fst d else map fst d ++ [k].
Proof.
  induction d as [|[k' v'] d IH]; cbn; [done|].
  case_bool_decide as Hk.
  - subst k'. by rewrite decide_True by apply list_elem_of_here.
  - cbn. rewrite IH. destruct (decide (k ∈ map fst d)) as [Hin|Hin].
    + by rewrite decide_True by (by apply list_elem_of_further).
    + rewrite decide_False; [done|]. by intros [?|?]%elem_of_cons.
Qed.

Lemma dict_set_NoDup {V} (k : string) (v : V) d :
  NoDup (map fst d) → NoDup (map fst (Py.dict_set k v d)).
Proof.
  intros Hnd. rewrite dict_set_keys. case_decide; [done|].
  apply NoDup_app. split; [done|]. split; [|apply NoDup_singleton].
  intros x Hx ->%list_elem_of_singleton. done.
Qed.

Lemma dict_set_elem {V} (k : string) (v : V) d k' v' :
  (k', v') ∈ Py.dict_set k v d → (k', v') = (k, v) ∨ (k', v') ∈ d.
Proof.
  induction d as [|[k0 v0] d IH]; cbn.
  - intros ->%list_elem_of_singleton. by left.
  - case_bool_decide.
    + intros [->|?]%elem_of_cons; [by left|]. right. by apply list_elem_of_further.
    + intros [->|Hin]%elem_of_cons; [right; apply list_elem_of_here|].
      destruct (IH Hin); [by left|]. right. by apply list_elem_of_further.
Qed.

(** *** Sums of rationals *)

Lemma sum_nil : Py.sum [] = 0.
Proof. reflexivity. Qed.

Lemma sum_cons x xs : Py.sum (x :: xs) = x + Py.sum xs.
Proof. reflexivity. Qed.

Lemma sum_app xs ys : Py.sum (xs ++ ys) == Py.sum xs + Py.sum ys.
Proof.
  induction xs as [|x xs IH]; cbn [app].
  - rewrite sum_nil. lra.
  - rewrite !sum_cons, IH. lra.
Qed.

Lemma sum_map_div {A} (f : A → Q) (c : Q) (l : list A) :
  Py.sum (map (λ x, f x / c) l) == Py.sum (map f l) / c.
Proof.
  induction l as [|x l IH]; cbn [map].
  - rewrite sum_nil. unfold Qdiv. lra.
  - rewrite !sum_cons, IH. unfold Qdiv. lra.
Qed.

Lemma sum_nonneg (l : list Q) : Forall (λ x, 0 <= x) l → 0 <= Py.sum l.
Proof.
  induction 1 as [|x l Hx _ IH]; [rewrite sum_nil; lra|]. rewrite sum_cons. lra.
Qed.

Lemma sum_pos_of_pos (l : list Q) : l ≠ [] → Forall (λ x, 0 < x) l → 0 < Py.sum l.
Proof.
  intros Hne Hall. destruct Hall as [|x l Hx Hl]; [done|]. clear Hne.
  rewrite sum_cons. assert (0 <= Py.sum l); [|lra].
  apply sum_nonneg. eapply Forall_impl; [exact Hl|]. intros y Hy. cbn in Hy. lra.
Qed.

(** *** Inverse-volatility weights *)

Lemma inverse_vol_weights_keys vols :
  map fst (inverse_vol_weights vols) = map fst vols.
Proof. unfold inverse_vol_weights. rewrite !map_map. done. Qed.

Lemma inverse_sum_pos vols :
  vols ≠ [] → Forall (λ sv, 0 < sv.2) vols →
  0 < Py.sum (map snd (map (λ sv : string * Q, (sv.1, 1 / sv.2)) vols)).
Proof.
  intros Hne Hpos. apply sum_pos_of_pos.
  - by destruct vols.
  - rewrite !Forall_map. eapply Forall_impl; [exact Hpos|].
    intros [k v] Hv. cbn in *. apply Qlt_shift_div_l; lra.
Qed.

Lemma inverse_vol_weights_pos vols :
  Forall (λ sv, 0 < sv.2) vols → Forall (λ sw, 0 < sw.2) (inverse_vol_weights vols).
Proof.
  intros Hpos. destruct (decide (vols = [])) as [->|Hne]; [constructor|].
  pose proof (inverse_sum_pos vols Hne Hpos) as HS.
  unfold inverse_vol_weights. rewrite !Forall_map.
  eapply Forall_impl; [exact Hpos|]. intros [k v] Hv. cbn in *.
  apply Qlt_shift_div_l; [exact HS|].
  assert (0 < 1 / v) by (apply Qlt_shift_div_l; lra). lra.
Qed.

Lemma inverse_vol_weights_sum vols :
  vols ≠ [] → Forall (λ sv, 0 < sv.2) vols →
  Py.sum (map snd (inverse_vol_weights vols)) == 1.
Proof.
  intros Hne Hpos. pose proof (inverse_sum_pos vols Hne Hpos) as HS.
  unfold inverse_vol_weights.
  set (inv := map (λ sv : string * Q, (sv.1, 1 / sv.2)) vols) in *.
  set (S := Py.sum (map snd inv)) in *.
  rewrite map_map. cbn.
  rewrite (sum_map_div (λ si : string * Q, si.2) S inv).
  change (Py.sum (map (λ si : string * Q, si.2) inv)) with S.
  field. lra.
Qed.

(** *** Loop invariants *)

(** An invariant [I] of the local variables of a loop, indexed by the items
    already processed, under a state predicate [J] the body preserves. *)
Lemma for_fold_invariant {A S} (J : EngineState → Prop) (I : list A → S → Prop)
    (body : S → A → M S) :
  (∀ pre x acc s r, J s → I pre acc → result_of (body acc x s) = Ok r → I (pre ++ [x]) r) →
  (∀ acc x s, J s → J (state_of (body acc x s))) →
  ∀ xs pre acc s r,
    J s → I pre acc → result_of (for_fold xs acc body s) = Ok r → I (pre ++ xs) r.
Proof.
  intros Hstep Hstate. induction xs as [|x xs IH]; intros pre acc s r HJ HI Hr.
  - cbn in Hr. injection Hr as <-. by rewrite app_nil_r.
  - cbn [for_fold] in Hr.
    destruct (result_of (body acc x s)) as [acc'|] eqn:Hb.
    + rewrite (bind_result_Ok _ _ _ _ Hb) in Hr. cbn [result_of fst] in Hr.
      replace (pre ++ x :: xs) with ((pre ++ [x]) ++ xs) by (by rewrite <- app_assoc).
      eapply IH; [by apply Hstate | by eapply Hstep | exact Hr].
    + by rewrite (bind_result_Raise _ _ _ Hb) in Hr.
Qed.

Lemma collect_vol_cases h vols sym s r :
  result_of (collect_vol h vols sym s) = Ok r →
  r = vols ∨ ∃ v, 0 < v ∧ r = Py.dict_set sym v vols.
Proof.
  unfold collect_vol.
  destruct (realized_vol_total h sym s) as [v Hv].
  rewrite (bind_result_Ok _ _ _ _ Hv). cbn [result_of fst].
  destruct v as [v|]; [|intros [= <-]; by left].
  destruct (Py.Qltb 0 v) eqn:Hpos; intros [= <-]; [|by left].
  right. exists v. split; [by apply Qltb_true|done].
Qed.

(** The [vols] dictionary holds positive readings under distinct keys. *)
Lemma collect_vols_positive h selected s vols :
  result_of (for_fold selected [] (collect_vol h) s) = Ok vols → positive_vols vols.
Proof.
  intros Hr.
  apply (for_fold_invariant (λ _, True) (λ _ vols, positive_vols vols) (collect_vol h))
    with (xs := selected) (pre := []) (acc := []) (s := s); try done.
  - intros pre x acc s' r _ [Hpos Hnd] Hres.
    destruct (collect_vol_cases _ _ _ _ _ Hres) as [->|(v & Hv & ->)]; [done|].
    split; [|by apply dict_set_NoDup].
    apply Forall_forall. intros [k' v'] Hin.
    apply dict_set_elem in Hin as [[= -> ->]|Hin]; [done|].
    rewrite Forall_forall in Hpos. by apply (Hpos (k', v')).
  - split; [constructor|apply NoDup_nil_2].
Qed.

Lemma size_one_cases h pv e dq inv sym w s r :
  result_of (size_one h pv e (dq, inv) (sym, w) s) = Ok r →
  r = (dq, inv)
  ∨ ∃ px atr,
      get_last_price h (_src_symbol h sym) = Some px ∧ 0 < px
      ∧ result_of (_atr h sym s) = Ok (Some atr)
      ∧ (0 < target_shares (profile s) pv e w px atr)%Z
      ∧ r = (Py.dict_set sym (target_shares (profile s) pv e w px atr) dq,
             inv + inject_Z (target_shares (profile s) pv e w px atr) * px).
Proof.
  unfold size_one.
  destruct (get_last_price h (_src_symbol h sym)) as [px|]; [|intros [= <-]; by left].
  destruct (Py.Qleb px 0) eqn:Hpx; [intros [= <-]; by left|].
  apply Qleb_false in Hpx.
  destruct (result_of (_atr h sym s)) as [atr|] eqn:Ha.
  2:{ by rewrite (bind_result_Raise _ _ _ Ha). }
  rewrite (bind_result_Ok _ _ _ _ Ha). cbn [result_of fst].
  destruct atr as [atr|]; [|intros [= <-]; by left].
  rewrite bind_get_state.
  destruct (atr_keeps h sym s) as [(Hprof & _) _]. rewrite Hprof.
  destruct (_ <=? 0)%Z eqn:Hn; [intros [= <-]; by left|].
  destruct (Py.Qltb _ MIN_ORDER_DOLLARS); intros [= <-]; [by left|].
  right. exists px, atr. repeat split; try done. lia.
Qed.

Lemma allocated_snoc h dq sym n px :
  get_last_price h (_src_symbol h sym) = Some px →
  allocated h (dq ++ [(sym, n)]) == allocated h dq + inject_Z n * px.
Proof.
  intros Hpx. unfold allocated. rewrite map_app, sum_app. cbn [map fst snd].
  rewrite Hpx, sum_cons, sum_nil. cbn [default from_option id]. lra.
Qed.

(** A positive share count is within the capital ceiling, so it costs at most
    the symbol's share of the exposure, and that share is positive. *)
Lemma target_shares_cost p pv e w px atr :
  0 < px →
  (0 < target_shares p pv e w px atr)%Z →
  inject_Z (target_shares p pv e w px atr) * px <= pv * e * w ∧ 0 < pv * e * w.
Proof.
  intros Hpx Hn. set (n := target_shares p pv e w px atr) in *.
  assert (n <= shares_by_capital pv e w px)%Z as Hcap by (unfold n, target_shares in *; lia).
  rewrite Zle_Qle in Hcap. unfold shares_by_capital, Py.floordiv in Hcap.
  pose proof (Qfloor_le (pv * e * w / px)) as Hfl.
  assert (inject_Z n <= pv * e * w / px) as Hle by lra.
  assert (1 <= inject_Z n) as Hone.
  { change 1 with (inject_Z 1). rewrite <- Zle_Qle. lia. }
  assert (pv * e * w / px * px == pv * e * w) as Hdiv by (field; lra).
  assert (inject_Z n * px <= pv * e * w / px * px) as Hmul
    by (apply Qmult_le_compat_r; lra).
  split; [lra|]. nra.
Qed.

Lemma sum_snd_snoc (pre : list (string * Q)) sym w :
  Py.sum (map snd (pre ++ [(sym, w)])) == Py.sum (map snd pre) + w.
Proof. rewrite map_app, sum_app. cbn [map snd]. rewrite sum_cons, sum_nil. lra. Qed.

Lemma sizing_invariant_step h p pv e pre sw acc s r :
  profile s = p →
  sizing_invariant h p pv e pre acc →
  result_of (size_one h pv e acc sw s) = Ok r →
  sizing_invariant h p pv e (pre ++ [sw]) r.
Proof.
  destruct sw as [sym w], acc as [dq inv]. intros Hp HI Hres Hnd Hpos.
  rewrite map_app in Hnd. apply NoDup_app in Hnd as (Hnd & Hfresh & _).
  apply Forall_app in Hpos as [Hpos Hw]. rewrite Forall_singleton in Hw. cbn in Hw.
  destruct (HI Hnd Hpos) as (Ha & Hb & Hc). cbn [fst snd] in Ha, Hb, Hc.
  assert (0 <= Py.sum (map snd pre)) as Hsum.
  { apply sum_nonneg. rewrite Forall_map. eapply Forall_impl; [exact Hpos|].
    intros [? ?] ?. cbn in *. lra. }
  pose proof (sum_snd_snoc pre sym w) as Hsnoc.
  destruct (size_one_cases _ _ _ _ _ _ _ _ _ Hres)
    as [->|(px & atr & Hpx & Hpxpos & Hatr & Hn & ->)]; cbn [fst snd].
  - split; [|split; [exact Hb|]].
    + intros sym' n Hin. destruct (Ha _ _ Hin) as (w' & px & atr & s_a & Hin' & Hrest).
      exists w', px, atr, s_a. split; [|exact Hrest]. apply elem_of_app. by left.
    + destruct Hc as [Hc|(Hne & Hpe & Hle)]; [by left|right].
      split; [done|]. split; [done|]. rewrite Hsnoc.
      set (P := pv * e) in *. assert (0 <= P * w) by (apply Qmult_le_0_compat; lra).
      lra.
  - rewrite Hp in *. set (n := target_shares p pv e w px atr) in *.
    assert (sym ∉ map fst dq) as Hnew.
    { intros Hin. apply list_elem_of_fmap in Hin as ([k n'] & -> & Hin). cbn in *.
      destruct (Ha _ _ Hin) as (w' & _ & _ & _ & Hin' & _).
      apply (Hfresh k); [|apply list_elem_of_here].
      apply list_elem_of_fmap. by exists (k, w'). }
    rewrite (dict_set_fresh _ _ _ Hnew).
    destruct (target_shares_cost p pv e w px atr Hpxpos Hn) as [Hcost Hshare].
    fold n in Hcost. set (P := pv * e) in *.
    assert (0 < P) as Hpe.
    { destruct (Qlt_le_dec 0 P) as [?|Hneg]; [done|].
      assert (0 <= (- P) * w) by (apply Qmult_le_0_compat; lra). lra. }
    assert (0 <= P * Py.sum (map snd pre)) as HPs by (apply Qmult_le_0_compat; lra).
    split; [|split].
    + intros sym' n' Hin. apply elem_of_app in Hin as [Hin|Hin].
      * destruct (Ha _ _ Hin) as (w' & px' & atr' & s_a & Hin' & Hrest).
        exists w', px', atr', s_a. split; [|exact Hrest]. apply elem_of_app. by left.
      * apply list_elem_of_singleton in Hin as [= -> ->].
        exists w, px, atr, s. split; [apply elem_of_app; right; apply list_elem_of_here|].
        done.
    + rewrite (allocated_snoc h dq sym n px Hpx), Hb. reflexivity.
    + right. split; [by destruct dq|]. split; [exact Hpe|].
      rewrite Hsnoc. destruct Hc as [[_ H0]|(_ & _ & Hle)]; lra.
Qed.

Lemma sizing_loop_invariant h pv e weights s desired_qty invested :
  result_of (for_fold weights ([], 0) (size_one h pv e) s) = Ok (desired_qty, invested) →
  sizing_invariant h (profile s) pv e weights (desired_qty, invested).
Proof.
  intros Hr.
  apply (for_fold_invariant (λ s', profile s' = profile s)
           (sizing_invariant h (profile s) pv e) (size_one h pv e))
    with (xs := weights) (pre := []) (acc := ([], 0)) (s := s); try done.
  - intros pre x acc s' r HJ HI Hres. by eapply sizing_invariant_step.
  - intros acc x s' HJ. destruct (size_one_keeps h pv e acc x s') as [(Hp & _) _].
    by rewrite Hp.
  - intros _ _. cbn [fst snd]. split; [|split].
    + intros sym n Hin. by apply elem_of_nil in Hin.
    + reflexivity.
    + left. split; reflexivity.
Qed.


Lemma submit_delta_total h st : never_raises (submit_delta h st).
Proof.
  destruct st as [sym target]. unfold submit_delta, pop_highest_close, submit_order.
  repeat total_step.
Qed.

(** *** Loops, prefix by prefix *)

Lemma for_fold_app {A S} (l1 l2 : list A) (acc : S) (body : S → A → M S) s :
  for_fold (l1 ++ l2) acc body s
  = bind (for_fold l1 acc body) (λ a, for_fold l2 a body) s.
Proof.
  revert acc s. induction l1 as [|x l1 IH]; intros acc s; cbn [app for_fold].
  - by rewrite bind_ret.
  - unfold bind at 1 2 3. destruct (body acc x s) as [[[a|] s1] e1]; [|done].
    rewrite IH. unfold bind.
    destruct (for_fold l1 a body s1) as [[[a'|] s2] e2]; [|done].
    destruct (for_fold l2 a' body s2) as [[r s3] e3]. by rewrite app_assoc.
Qed.

Lemma for_fold_singleton {A S} (x : A) (acc : S) (body : S → A → M S) s :
  for_fold [x] acc body s = body acc x s.
Proof.
  cbn [for_fold]. unfold bind, ret. destruct (body acc x s) as [[[a|] s1] e1]; [|done].
  by rewrite app_nil_r.
Qed.

(** A loop that returns has returned on every prefix, and ran its body for
    the next item in the state the prefix left. *)
Lemma for_fold_prefix {A S} (pre post : list A) (acc0 : S) (body : S → A → M S) s r :
  result_of (for_fold (pre ++ post) acc0 body s) = Ok r →
  ∃ acc, result_of (for_fold pre acc0 body s) = Ok acc
         ∧ result_of (for_fold post acc body (state_of (for_fold pre acc0 body s))) = Ok r.
Proof.
  rewrite for_fold_app. intros H.
  exact (bind_Ok_inv (for_fold pre acc0 body) (λ a, for_fold post a body) s r H).
Qed.

Lemma for_fold_step {A S} (pre : list A) (x : A) (post : list A) (acc0 : S)
    (body : S → A → M S) s r :
  result_of (for_fold (pre ++ x :: post) acc0 body s) = Ok r →
  ∃ acc acc',
    result_of (for_fold pre acc0 body s) = Ok acc
    ∧ result_of (body acc x (state_of (for_fold pre acc0 body s))) = Ok acc'
    ∧ result_of (for_fold (pre ++ [x]) acc0 body s) = Ok acc'.
Proof.
  intros Hr. replace (pre ++ x :: post) with ((pre ++ [x]) ++ post) in Hr
    by (by rewrite <- app_assoc).
  apply for_fold_prefix in Hr as (acc' & Hsnoc & _).
  pose proof Hsnoc as Hs. apply for_fold_prefix in Hs as (acc & Hpre & Hx).
  rewrite for_fold_singleton in Hx. eauto.
Qed.

(** An invariant [I] of the local variables, indexed by the items already
    processed, where each step may use the state its prefix left. *)
Lemma for_fold_prefix_invariant {A S} (I : list A → S → Prop) (body : S → A → M S)
    (acc0 : S) s (xs : list A) r :
  I [] acc0 →
  (∀ pre x post acc acc',
     xs = pre ++ x :: post →
     result_of (for_fold pre acc0 body s) = Ok acc → I pre acc →
     result_of (body acc x (state_of (for_fold pre acc0 body s))) = Ok acc' →
     I (pre ++ [x]) acc') →
  result_of (for_fold xs acc0 body s) = Ok r → I xs r.
Proof.
  intros H0 Hstep Hr.
  assert (∀ pre post, xs = pre ++ post →
            ∃ acc, result_of (for_fold pre acc0 body s) = Ok acc ∧ I pre acc) as Hall.
  { induction pre as [|x pre IH] using rev_ind; intros post Hxs.
    - exists acc0. by split.
    - rewrite <- app_assoc in Hxs. cbn [app] in Hxs.
      destruct (IH (x :: post) Hxs) as (acc & Hpre & HI).
      rewrite Hxs in Hr. apply for_fold_step in Hr as (acc1 & acc' & Hpre' & Hx & Hsnoc).
      rewrite Hpre in Hpre'. injection Hpre' as <-.
      exists acc'. split; [done|]. by eapply Hstep. }
  destruct (Hall xs [] ltac:(by rewrite app_nil_r)) as (acc & Hacc & HI).
  rewrite Hr in Hacc. by injection Hacc as <-.
Qed.

Lemma snoc_split {A} (pre pre1 post1 : list A) (x y : A) :
  pre ++ [x] = pre1 ++ y :: post1 →
  (post1 = [] ∧ pre1 = pre ∧ y = x)
  ∨ ∃ post, post1 = post ++ [x] ∧ pre = pre1 ++ y :: post.
Proof.
  destruct post1 as [|z post1 _] using rev_ind; intros H.
  - left. apply app_inj_tail in H as [-> ->]. by repeat split.
  - right. exists post1.
    change (pre1 ++ y :: post1 ++ [z]) with (pre1 ++ (y :: post1) ++ [z]) in H.
    rewrite app_assoc in H. by apply app_inj_tail in H as [-> ->].
Qed.

Lemma dict_set_here {V} (k : string) (v : V) d : (k, v) ∈ Py.dict_set k v d.
Proof.
  induction d as [|[k' v'] d IH]; cbn; [apply list_elem_of_here|].
  case_bool_decide; [apply list_elem_of_here|by apply list_elem_of_further].
Qed.

(** *** One turn of the sizing loop, exactly *)

(** What it takes for the sizing loop to size [sym] with [n] shares in the
    state [s]: a positive last price, an ATR reading in [s], the share count
    of the two ceilings, positive and worth at least [MIN_ORDER_DOLLARS]. *)
Lemma size_one_spec h pv e dq inv sym w s r :
  result_of (size_one h pv e (dq, inv) (sym, w) s) = Ok r →
  (∃ px atr,
      get_last_price h (_src_symbol h sym) = Some px ∧ 0 < px
      ∧ result_of (_atr h sym s) = Ok (Some atr)
      ∧ (0 < target_shares (profile s) pv e w px atr)%Z
      ∧ MIN_ORDER_DOLLARS <= inject_Z (target_shares (profile s) pv e w px atr) * px
      ∧ r = (Py.dict_set sym (target_shares (profile s) pv e w px atr) dq,
             inv + inject_Z (target_shares (profile s) pv e w px atr) * px))
  ∨ (r = (dq, inv)
     ∧ ∀ px atr,
         get_last_price h (_src_symbol h sym) = Some px → 0 < px →
         result_of (_atr h sym s) = Ok (Some atr) →
         (0 < target_shares (profile s) pv e w px atr)%Z →
         ¬ MIN_ORDER_DOLLARS <= inject_Z (target_shares (profile s) pv e w px atr) * px).
Proof.
  unfold size_one.
  destruct (get_last_price h (_src_symbol h sym)) as [px|];
    [|intros [= <-]; right; split; [done|]; intros ? ? [=]].
  destruct (Py.Qleb px 0) eqn:Hpx.
  { apply Qleb_true in Hpx. intros [= <-]. right. split; [done|].
    intros ? ? [= <-] ?. lra. }
  apply Qleb_false in Hpx.
  destruct (result_of (_atr h sym s)) as [atr|] eqn:Ha.
  2:{ by rewrite (bind_result_Raise _ _ _ Ha). }
  rewrite (bind_result_Ok _ _ _ _ Ha). cbn [result_of fst].
  destruct atr as [atr|]; [|intros [= <-]; right; split; [done|]; intros ? ? _ _ [=]].
  rewrite bind_get_state.
  destruct (atr_keeps h sym s) as [(Hprof & _) _]. rewrite Hprof.
  destruct (_ <=? 0)%Z eqn:Hn.
  { apply Z.leb_le in Hn. intros [= <-]. right. split; [done|].
    intros ? ? [= <-] _ [= <-] ?. lia. }
  apply Z.leb_gt in Hn.
  destruct (Py.Qltb _ MIN_ORDER_DOLLARS) eqn:Hmin; intros [= <-].
  - apply Qltb_true in Hmin. right. split; [done|].
    intros ? ? [= <-] _ [= <-] _ ?. lra.
  - apply Qltb_false in Hmin. left. exists px, atr. repeat split; try done.
Qed.

Lemma sizing_state_profile h pv e s pre : profile (sizing_state h pv e s pre) = profile s.
Proof.
  unfold sizing_state.
  destruct (keeps_for_fold only_cache_and_highs not_breaker only_cache_and_highs_refl
              only_cache_and_highs_trans pre ([], 0) (size_one h pv e)
              (size_one_keeps h pv e) s) as [(Hp & _) _].
  exact Hp.
Qed.


Lemma sizing_loop_exact h pv e weights s desired_qty invested :
  NoDup (map fst weights) →
  result_of (for_fold weights ([], 0) (size_one h pv e) s) = Ok (desired_qty, invested) →
  ∀ sym n, (sym, n) ∈ desired_qty ↔ sized_in_loop h pv e s weights sym n.
Proof.
  intros Hnd Hr.
  refine (for_fold_prefix_invariant
            (λ pre (acc : list (string * Z) * Q),
               ∀ sym n, (sym, n) ∈ acc.1 ↔ sized_in_loop h pv e s pre sym n)
            (size_one h pv e) ([], 0) s weights (desired_qty, invested) _ _ Hr).
  { intros sym n. cbn [fst]. split; [by intros ?%elem_of_nil|].
    intros (pre & w & post & px & atr & Hsplit & _). by destruct pre. }
  intros pre [k wk] post [dq inv] acc' Hxs Hpre HI Hone. cbn [fst] in HI.
  fold (sizing_state h pv e s pre) in Hone.
  assert (k ∉ map fst pre) as Hk.
  { rewrite Hxs, map_app in Hnd. apply NoDup_app in Hnd as (_ & Hfresh & _).
    intros Hin. apply (Hfresh k Hin). cbn. apply list_elem_of_here. }
  assert (∀ sym n, sized_in_loop h pv e s pre sym n →
                   sized_in_loop h pv e s (pre ++ [(k, wk)]) sym n) as Hmono.
  { intros sym n (pre1 & w & post1 & px & atr & -> & Hrest).
    exists pre1, w, (post1 ++ [(k, wk)]), px, atr. split; [|exact Hrest].
    by rewrite <- app_assoc. }
  assert (k ∉ map fst dq) as Hnew.
  { intros Hin. apply list_elem_of_fmap in Hin as ([k' n'] & -> & Hin). cbn in Hk |- *.
    apply HI in Hin as (pre1 & w & post1 & _ & _ & -> & _). apply Hk.
    rewrite map_app. apply elem_of_app. right. cbn. apply list_elem_of_here. }
  intros sym n.
  destruct (size_one_spec _ _ _ _ _ _ _ _ _ Hone)
    as [(px & atr & Hpx & Hpos & Hatr & Hn & Hmin & ->)|[-> Hnot]]; cbn [fst].
  - rewrite (dict_set_fresh _ _ _ Hnew), elem_of_app. split.
    + intros [Hin|Hin]; [by apply Hmono, HI|].
      apply list_elem_of_singleton in Hin as [= -> ->].
      exists pre, wk, [], px, atr. rewrite sizing_state_profile in *. done.
    + intros (pre1 & w & post1 & px' & atr' & Hsplit & Hpx' & Hpos' & Hatr' & -> & Hrest).
      apply snoc_split in Hsplit as [(-> & -> & [= -> ->])|(post' & -> & ->)].
      * right. rewrite Hpx in Hpx'. injection Hpx' as <-.
        rewrite Hatr in Hatr'. injection Hatr' as <-.
        rewrite sizing_state_profile. apply list_elem_of_here.
      * left. apply HI. by exists pre1, w, post', px', atr'.
  - split; [by intros ?%HI%Hmono|].
    intros (pre1 & w & post1 & px' & atr' & Hsplit & Hpx' & Hpos' & Hatr' & -> & Hn' & Hmin').
    apply snoc_split in Hsplit as [(-> & -> & [= -> ->])|(post' & -> & ->)].
    + exfalso. rewrite <- (sizing_state_profile h pv e s pre) in Hn', Hmin'.
      by apply (Hnot px' atr').
    + apply HI. by exists pre1, w, post', px', atr'.
Qed.


(** A completed sizing with at least one target makes [_rebalance] return
    with its report as the last event. *)
Lemma rebalance_reports_the_sizing h selected exposure start vols desired_qty invested :
  let pv := get_portfolio_value h in
  let e := clamp01 exposure in
  let s1 := state_of (for_each (get_positions h) (sell_unselected_one h selected) start) in
  let s2 := state_of (for_fold selected [] (collect_vol h) s1) in
  selected ≠ [] →
  result_of (for_fold selected [] (collect_vol h) s1) = Ok vols →
  result_of (for_fold (inverse_vol_weights vols) ([], 0) (size_one h pv e) s2)
    = Ok (desired_qty, invested) →
  desired_qty ≠ [] →
  result_of (_rebalance h selected exposure start) = Ok tt
  ∧ last (events_of (_rebalance h selected exposure start))
    = Some (Log (LogRebalanceDone (len desired_qty) (invested / pv) e)).
Proof.
  cbv zeta. intros Hsel Hvols Hsize Hdq.
  pose proof (collect_vols_positive _ _ _ _ Hvols) as [Hpos Hnd].
  destruct (sizing_loop_invariant _ _ _ _ _ _ _ Hsize) as (Ha & _ & Hc).
  { by rewrite inverse_vol_weights_keys. }
  { by apply inverse_vol_weights_pos. }
  cbn [fst snd] in Ha, Hc.
  set (pv := get_portfolio_value h) in *. set (e := clamp01 exposure) in *.
  assert (¬ pv == 0) as Hpv.
  { destruct Hc as [[? _]|(_ & Hpe & _)]; [done|]. intros Hz. rewrite Hz in Hpe. lra. }
  assert (vols ≠ []) as Hv.
  { intros ->. cbn in Hsize. by injection Hsize as <- <-. }
  destruct selected as [|x sel] eqn:Hs; [done|].
  unfold _rebalance. cbv iota. rewrite <- Hs in *. clear Hs Hsel.
  set (s1 := state_of (for_each (get_positions h) (sell_unselected_one h selected) start)) in *.
  set (s2 := state_of (for_fold selected [] (collect_vol h) s1)) in *.
  destruct (never_raises_for_each (get_positions h) (sell_unselected_one h selected)
              (sell_unselected_one_total h selected) start) as [[] Hsell].
  rewrite (bind_result_Ok _ _ _ _ Hsell). fold s1.
  rewrite (bind_result_Ok _ _ _ _ Hvols). fold s2.
  cbn [result_of state_of events_of fst snd].
  destruct vols as [|v0 vols'] eqn:Hvs; [done|]. rewrite <- Hvs in *. clear Hvs.
  fold pv e. rewrite (bind_result_Ok _ _ _ _ Hsize).
  cbn [result_of state_of events_of fst snd].
  destruct desired_qty as [|d0 dq'] eqn:Hd; [done|]. rewrite <- Hd in *. clear Hd.
  set (s3 := state_of (for_fold (inverse_vol_weights vols) ([], 0) (size_one h pv e) s2)).
  destruct (never_raises_for_each desired_qty (submit_delta h) (submit_delta_total h) s3)
    as [[] Hsub].
  rewrite (bind_result_Ok _ _ _ _ Hsub). cbn [result_of state_of events_of fst snd].
  assert (Qeq_bool pv 0 = false) as ->.
  { destruct (Qeq_bool pv 0) eqn:Hz; [|done]. by apply Qeq_bool_iff in Hz. }
  unfold log_message, emit. cbn [fst snd]. split; [done|].
  rewrite !app_assoc. apply last_snoc.
Qed.

(** C6.  The sizing loop of [_rebalance] sizes a symbol with [n] shares
    exactly when the symbol carries an inverse-volatility weight [w], has a
    positive last price, the loop reads an ATR for it in the state in which
    it reaches it, and [n = max(0, min(shares_by_risk, shares_by_capital))]
    for these readings is positive and worth at least [MIN_ORDER_DOLLARS],
    with [shares_by_risk = floor(min(pv * total_risk_budget * w,
    pv * risk_per_entry_cap) / max(0.01, atr_mult_trail * atr))] and
    [shares_by_capital = floor(pv * exposure * w / price)]; so every sized
    count is within both ceilings.  The accumulated [invested] is the sum of
    shares times price over the sized symbols and, whenever a symbol is sized
    (or the portfolio value is not negative), it is at most [pv * exposure];
    when a symbol is sized, [_rebalance] returns and reports exactly this
    sizing. *)
Theorem risk_sizing_respects_both_ceilings (h : Host) (s0 s : EngineState)
    (selected : list string) (exposure : Q) (vols : list (string * Q))
    (desired_qty : list (string * Z)) (invested : Q) :
  let pv := get_portfolio_value h in
  let e := clamp01 exposure in
  let p := profile s in
  let weights := inverse_vol_weights vols in
  result_of (for_fold selected [] (collect_vol h) s0) = Ok vols →
  result_of (for_fold weights ([], 0) (size_one h pv e) s) = Ok (desired_qty, invested) →
  (∀ sym n, (sym, n) ∈ desired_qty ↔
     ∃ pre w post px atr,
       weights = pre ++ (sym, w) :: post
       ∧ get_last_price h (_src_symbol h sym) = Some px ∧ 0 < px
       ∧ result_of (_atr h sym (sizing_state h pv e s pre)) = Ok (Some atr) ∧ 0 < atr
       ∧ n = Z.max 0 (Z.min (shares_by_risk p pv w atr) (shares_by_capital pv e w px))
       ∧ shares_by_risk p pv w atr
         = Qfloor (Py.min (pv * total_risk_budget p * w) (pv * risk_per_entry_cap p)
                   / Py.max (1 # 100) (atr_mult_trail p * atr))
       ∧ shares_by_capital pv e w px = Qfloor (pv * e * w / px)
       ∧ (n <= shares_by_risk p pv w atr)%Z
       ∧ (n <= shares_by_capital pv e w px)%Z
       ∧ (0 < n)%Z
       ∧ MIN_ORDER_DOLLARS <= inject_Z n * px)
  ∧ NoDup (map fst weights)
  ∧ invested == allocated h desired_qty
  ∧ (desired_qty ≠ [] → allocated h desired_qty <= pv * e)
  ∧ (0 <= pv → allocated h desired_qty <= pv * e)
  ∧ (∀ start,
       selected ≠ [] → desired_qty ≠ [] →
       s0 = state_of (for_each (get_positions h) (sell_unselected_one h selected) start) →
       s = state_of (for_fold selected [] (collect_vol h) s0) →
       result_of (_rebalance h selected exposure start) = Ok tt
       ∧ last (events_of (_rebalance h selected exposure start))
         = Some (Log (LogRebalanceDone (len desired_qty) (invested / pv) e))).
Proof.
  intros pv e p weights Hvols Hsize.
  destruct (collect_vols_positive _ _ _ _ Hvols) as [Hpos Hnd].
  assert (NoDup (map fst weights)) as Hndw
    by (subst weights; by rewrite inverse_vol_weights_keys).
  pose proof (sizing_loop_exact _ _ _ _ _ _ _ Hndw Hsize) as Hexact.
  pose proof (sizing_loop_invariant _ _ _ _ _ _ _ Hsize) as Hinv.
  destruct Hinv as (Ha & Hb & Hc); [done|by apply inverse_vol_weights_pos|].
  cbn [fst snd] in Ha, Hb, Hc. fold p pv e in Ha, Hc.
  assert (desired_qty ≠ [] → allocated h desired_qty <= pv * e) as Hsized.
  { intros Hne. destruct Hc as [[? _]|(_ & Hpe & Hle)]; [done|].
    assert (vols ≠ []) as Hv.
    { intros ->. destruct desired_qty as [|[sym n] ?]; [done|].
      destruct (Ha sym n) as (? & ? & ? & ? & Hin & _); [apply list_elem_of_here|].
      by apply elem_of_nil in Hin. }
    pose proof (inverse_vol_weights_sum vols Hv Hpos) as Hone.
    fold weights in Hone. rewrite Hone in Hle. rewrite <- Hb. lra. }
  split; [|split; [exact Hndw|split; [exact Hb|split; [exact Hsized|split]]]].
  - intros sym n. rewrite (Hexact sym n). unfold sized_in_loop. fold p. split.
    + intros (pre & w & post & px & atr & Hsplit & Hpx & Hpos' & Hatr & Hn & Hnpos & Hmin).
      exists pre, w, post, px, atr. unfold target_shares in Hn.
      repeat split; try done; [by eapply atr_positive|lia|lia].
    + intros (pre & w & post & px & atr & Hsplit & Hpx & Hpos' & Hatr & _ & Hn & _ & _
              & _ & _ & Hnpos & Hmin).
      by exists pre, w, post, px, atr.
  - intros Hpv. destruct (decide (desired_qty = [])) as [->|Hne]; [|by apply Hsized].
    unfold allocated. cbn [map]. rewrite sum_nil.
    pose proof (clamp01_range exposure) as [He _]. fold e in He.
    apply Qmult_le_0_compat; lra.
  - intros start Hsel Hdq -> ->. by eapply rebalance_reports_the_sizing.
Qed.

Lemma risk_sizing_respects_both_ceilings_witness :
  let h := SizingScenario.host in
  let s0 := state_of (for_each (get_positions h)
                        (sell_unselected_one h SizingScenario.selected)
                        SizingScenario.state) in
  let s := state_of (for_fold SizingScenario.selected [] (collect_vol h) s0) in
  let vols := [("AAA", 1 # 5); ("BBB", 1 # 5)] in
  (∃ pre w post px atr,
     inverse_vol_weights vols = pre ++ ("AAA", w) :: post
     ∧ get_last_price h (_src_symbol h "AAA") = Some px
     ∧ result_of (_atr h "AAA" (sizing_state h (get_portfolio_value h) (clamp01 1) s pre))
       = Ok (Some atr)
     ∧ 74%Z = Z.max 0 (Z.min (shares_by_risk balanced (get_portfolio_value h) w atr)
                          (shares_by_capital (get_portfolio_value h) (clamp01 1) w px)))
  ∧ allocated h [("AAA", 74%Z); ("BBB", 74%Z)] <= get_portfolio_value h * clamp01 1
  ∧ last (events_of (_rebalance h SizingScenario.selected 1 SizingScenario.state))
    = Some (Log (LogRebalanceDone 2 (14800 / get_portfolio_value h) (clamp01 1))).
Proof.
  cbv zeta.
  set (h := SizingScenario.host).
  set (s0 := state_of (for_each (get_positions h)
                         (sell_unselected_one h SizingScenario.selected)
                         SizingScenario.state)).
  set (s := state_of (for_fold SizingScenario.selected [] (collect_vol h) s0)).
  assert (result_of (for_fold SizingScenario.selected [] (collect_vol h) s0)
          = Ok [("AAA", 1 # 5); ("BBB", 1 # 5)]) as Hvols by (vm_compute; reflexivity).
  assert (result_of (for_fold (inverse_vol_weights [("AAA", 1 # 5); ("BBB", 1 # 5)]) ([], 0)
               (size_one h (get_portfolio_value h) (clamp01 1)) s)
          = Ok ([("AAA", 74%Z); ("BBB", 74%Z)], 14800)) as Hsize
    by (vm_compute; reflexivity).
  destruct (risk_sizing_respects_both_ceilings h s0 s SizingScenario.selected 1
              [("AAA", 1 # 5); ("BBB", 1 # 5)] [("AAA", 74%Z); ("BBB", 74%Z)] 14800
              Hvols Hsize)
    as (Hiff & _ & _ & Hbound & _ & Hreport).
  split; [|split].
  - destruct (proj1 (Hiff "AAA" 74%Z) ltac:(apply list_elem_of_here))
      as (pre & w & post & px & atr & Hsplit & Hpx & _ & Hatr & _ & Hn & _).
    exists pre, w, post, px, atr. repeat split; try done.
  - apply Hbound. discriminate.
  - destruct (Hreport SizingScenario.state) as [_ Hlast];
      [discriminate | discriminate | reflexivity | reflexivity |].
    exact Hlast.
Defined.

(** The two hypotheses of the sizing theorem are the two loops [_rebalance]
    runs: whenever it completes on a non-empty selection, the [vols] loop
    has completed, and unless [vols] is empty so has the sizing loop over
    its inverse-volatility weights. *)
Lemma rebalance_runs_the_sizing h selected exposure s :
  selected ≠ [] →
  result_of (_rebalance h selected exposure s) = Ok tt →
  let s1 := state_of (for_each (get_positions h) (sell_unselected_one h selected) s) in
  let s2 := state_of (for_fold selected [] (collect_vol h) s1) in
  ∃ vols,
    result_of (for_fold selected [] (collect_vol h) s1) = Ok vols
    ∧ (vols = []
       ∨ ∃ desired_qty invested,
           result_of (for_fold (inverse_vol_weights vols) ([], 0)
                        (size_one h (get_portfolio_value h) (clamp01 exposure)) s2)
           = Ok (desired_qty, invested)).
Proof.
  intros Hne Hres. destruct selected as [|x sel]; [done|].
  unfold _rebalance in Hres. cbv iota in Hres.
  remember (x :: sel) as selected eqn:Hs. clear Hs Hne. intros s1 s2.
  destruct (never_raises_for_each (get_positions h) (sell_unselected_one h selected)
              (sell_unselected_one_total h selected) s) as [[] Hsell].
  rewrite (bind_result_Ok _ _ _ _ Hsell) in Hres. fold s1 in Hres.
  cbn [result_of fst] in Hres.
  destruct (result_of (for_fold selected [] (collect_vol h) s1)) as [vols|] eqn:Hvols.
  2:{ by rewrite (bind_result_Raise _ _ _ Hvols) in Hres. }
  exists vols. split; [done|].
  rewrite (bind_result_Ok _ _ _ _ Hvols) in Hres. fold s2 in Hres.
  cbn [result_of fst] in Hres.
  destruct vols as [|v vols'] eqn:Hv; [by left|]. rewrite <- Hv in *. right.
  destruct (result_of (for_fold (inverse_vol_weights vols) ([], 0)
                         (size_one h (get_portfolio_value h) (clamp01 exposure)) s2))
    as [[desired_qty invested]|] eqn:Hsize.
  - by exists desired_qty, invested.
  - by rewrite (bind_result_Raise _ _ _ Hsize) in Hres.
Qed.

(* ================================================================= *)
(** * Further properties of the engine *)

(** ** Bar cache: hits, day change, failed fetches *)

Lemma cache_key_same_mode h h' symbol length :
  is_backtesting h' = is_backtesting h →
  cache_key h' symbol length = cache_key h symbol length.
Proof. intros Hb. unfold cache_key, _src_symbol. by rewrite Hb. Qed.

(** X1.  Within a trading day a frame is fetched once: after a call that
    fetched, a second call for the same symbol and length returns the same
    frame without asking the data source again (whatever it would answer
    now), writes no diagnostic and leaves the engine state as it is. *)
Theorem get_daily_df_memoizes_within_day (h h' : Host) (s : EngineState)
    (symbol : string) (length : Z) (raw : RawFrame) :
  cache_miss h s symbol length →
  get_historical_prices h (_src_symbol h symbol) length = Some raw →
  get_date h' = get_date h →
  is_backtesting h' = is_backtesting h →
  let o := _get_daily_df h symbol length s in
  _get_daily_df h' symbol length (state_of o) = (result_of o, state_of o, []).
Proof.
  intros Hmiss Hfetch Hdate Hmode o. subst o.
  rewrite (get_daily_df_fetch h s symbol length raw Hmiss Hfetch). cbv zeta.
  cbn [result_of state_of fst snd].
  apply get_daily_df_hit.
  - cbn. by rewrite Hdate.
  - rewrite (cache_key_same_mode h h') by done. cbn. apply lookup_insert_eq.
Qed.

Lemma get_daily_df_memoizes_within_day_witness :
  let h := BarScenario.host 100 BarScenario.three_bars 0 [] None in
  let h' := BarScenario.host 100 BarScenario.fourteen_bars 0 [] None in
  let o := _get_daily_df h "X" 80 (BarScenario.fresh balanced) in
  _get_daily_df h' "X" 80 (state_of o) = (result_of o, state_of o, []).
Proof.
  cbv zeta.
  apply (get_daily_df_memoizes_within_day
           (BarScenario.host 100 BarScenario.three_bars 0 [] None)
           (BarScenario.host 100 BarScenario.fourteen_bars 0 [] None)
           (BarScenario.fresh balanced) "X" 80 (Scenario.frame BarScenario.three_bars)).
  - left. vm_compute. discriminate.
  - reflexivity.
  - reflexivity.
  - reflexivity.
Defined.

(** X2.  The first call of a new trading day discards the whole cache: after
    it the cache is stamped with the new day and holds no frame but, at most,
    the one just fetched. *)
Theorem get_daily_df_new_day_discards_cache (h : Host) (s : EngineState)
    (symbol : string) (length : Z) (key : string * Z) (df : DataFrame) :
  _cache_day s ≠ Some (get_date h) →
  let s' := state_of (_get_daily_df h symbol length s) in
  _cache_day s' = Some (get_date h)
  ∧ (_hist_cache s' !! key = Some df →
     key = cache_key h symbol length
     ∧ result_of (_get_daily_df h symbol length s) = Ok (Some df)).
Proof.
  intros Hday s'. subst s'. unfold _get_daily_df.
  rewrite bind_get_state, decide_False by done.
  rewrite bind_modify, bind_get_state. cbn [_hist_cache set_cache].
  rewrite lookup_empty. fold (cache_key h symbol length).
  destruct (get_historical_prices h (_src_symbol h symbol) length) as [raw|].
  - rewrite bind_modify. cbn. split; [done|].
    intros Hkey. destruct (decide (key = cache_key h symbol length)) as [->|Hne].
    + rewrite lookup_insert_eq in Hkey. by injection Hkey as ->.
    + rewrite lookup_insert_ne in Hkey by done. by rewrite lookup_empty in Hkey.
  - unfold log_message. rewrite bind_emit. cbn. split; [done|].
    by rewrite lookup_empty.
Qed.

Lemma get_daily_df_new_day_discards_cache_witness :
  let h := BarScenario.host 100 BarScenario.three_bars 0 [] None in
  let s := state_of (_get_daily_df (BarScenario.host 99 BarScenario.two_bars 0 [] None)
                       "OLD" 80 (BarScenario.fresh balanced)) in
  _cache_day (state_of (_get_daily_df h "X" 80 s)) = Some 100%Z.
Proof.
  cbv zeta.
  apply (get_daily_df_new_day_discards_cache
           (BarScenario.host 100 BarScenario.three_bars 0 [] None)
           (state_of (_get_daily_df (BarScenario.host 99 BarScenario.two_bars 0 [] None)
                        "OLD" 80 (BarScenario.fresh balanced)))
           "X" 80 ("OLD", 80%Z) (mkDataFrame true [] [])).
  vm_compute. discriminate.
Defined.

(** X3.  A failed fetch is not fatal and is not remembered: the call answers
    none, writes one diagnostic, and caches nothing under the key, so the
    next call asks the data source again. *)
Theorem get_daily_df_failed_fetch_not_cached (h : Host) (s : EngineState)
    (symbol : string) (length : Z) :
  cache_miss h s symbol length →
  get_historical_prices h (_src_symbol h symbol) length = None →
  let o := _get_daily_df h symbol length s in
  result_of o = Ok None
  ∧ events_of o = [Log (LogDataFailed (_src_symbol h symbol) length)]
  ∧ _hist_cache (state_of o) !! cache_key h symbol length = None
  ∧ cache_miss h (state_of o) symbol length
  ∧ only_cache s (state_of o).
Proof.
  intros Hmiss Hfetch o. subst o. unfold _get_daily_df.
  rewrite bind_get_state.
  destruct (decide (_cache_day s = Some (get_date h))) as [Hday|Hday].
  - rewrite bind_ret, bind_get_state.
    destruct Hmiss as [?|Hmiss]; [done|]. unfold cache_key in *.
    rewrite Hmiss, Hfetch. unfold log_message. rewrite bind_emit. cbn.
    repeat split; try done. by right.
  - rewrite bind_modify, bind_get_state. cbn [_hist_cache set_cache].
    rewrite lookup_empty, Hfetch. unfold log_message. rewrite bind_emit. cbn.
    repeat split; try done; try apply lookup_empty. right. apply lookup_empty.
Qed.

Lemma get_daily_df_failed_fetch_not_cached_witness :
  result_of (_get_daily_df Scenario.breadth_host "X" 80
               (mkState balanced [] None ∅ None None None ∅ ∅)) ≠ Ok None
  ∧ result_of (_get_daily_df
                 (mkHost 1 true 0 [] (λ _, None) (λ _, None) (λ _ _, None) (λ _, None))
                 "X" 80 (mkState balanced [] None ∅ None None None ∅ ∅)) = Ok None.
Proof.
  split; [vm_compute; discriminate|].
  apply (get_daily_df_failed_fetch_not_cached
           (mkHost 1 true 0 [] (λ _, None) (λ _, None) (λ _ _, None) (λ _, None))
           (mkState balanced [] None ∅ None None None ∅ ∅) "X" 80).
  - left. vm_compute. discriminate.
  - reflexivity.
Defined.

(** ** Symbol mapping *)

Lemma upper_ascii_idem c : Py.upper_ascii (Py.upper_ascii c) = Py.upper_ascii c.
Proof. by destruct c as [[] [] [] [] [] [] [] []]. Qed.

Lemma isspace_upper_ascii c : Py.isspace (Py.upper_ascii c) = Py.isspace c.
Proof. by destruct c as [[] [] [] [] [] [] [] []]. Qed.

Lemma upper_ascii_dot c :
  Ascii.eqb (Py.upper_ascii c) "."%char = Ascii.eqb c "."%char.
Proof. by destruct c as [[] [] [] [] [] [] [] []]. Qed.

Lemma upper_ascii_dash : Py.upper_ascii "-"%char = "-"%char.
Proof. reflexivity. Qed.

Lemma isspace_dot_dash c :
  Py.isspace (if Ascii.eqb c "."%char then "-"%char else c) = Py.isspace c.
Proof. by destruct c as [[] [] [] [] [] [] [] []]. Qed.

Lemma upper_idem s : Py.upper (Py.upper s) = Py.upper s.
Proof. induction s as [|c s IH]; cbn; [done|]. by rewrite upper_ascii_idem, IH. Qed.

Lemma upper_lstrip s : Py.upper (Py.lstrip s) = Py.lstrip (Py.upper s).
Proof.
  induction s as [|c s IH]; cbn; [done|]. rewrite isspace_upper_ascii.
  by destruct (Py.isspace c).
Qed.

Lemma upper_rstrip s : Py.upper (Py.rstrip s) = Py.rstrip (Py.upper s).
Proof.
  induction s as [|c s IH]; cbn; [done|]. rewrite <- IH, isspace_upper_ascii.
  destruct (Py.rstrip s); cbn; [by destruct (Py.isspace c)|done].
Qed.

Lemma upper_strip s : Py.upper (Py.strip s) = Py.strip (Py.upper s).
Proof. unfold Py.strip. by rewrite upper_rstrip, upper_lstrip. Qed.

Lemma upper_replace_dot s : Py.upper (Py.replace_dot s) = Py.replace_dot (Py.upper s).
Proof.
  induction s as [|c s IH]; cbn; [done|]. rewrite IH, upper_ascii_dot.
  by destruct (Ascii.eqb c "."%char).
Qed.

Lemma replace_dot_idem s : Py.replace_dot (Py.replace_dot s) = Py.replace_dot s.
Proof.
  induction s as [|c s IH]; cbn; [done|]. rewrite IH.
  by destruct (Ascii.eqb c "."%char) eqn:Hc; [|rewrite Hc].
Qed.

Lemma lstrip_replace_dot s : Py.lstrip (Py.replace_dot s) = Py.replace_dot (Py.lstrip s).
Proof.
  induction s as [|c s IH]; cbn; [done|]. rewrite isspace_dot_dash.
  by destruct (Py.isspace c).
Qed.

Lemma rstrip_replace_dot s : Py.rstrip (Py.replace_dot s) = Py.replace_dot (Py.rstrip s).
Proof.
  induction s as [|c s IH]; cbn; [done|]. rewrite IH, isspace_dot_dash.
  destruct (Py.rstrip s); cbn; [by destruct (Py.isspace c)|done].
Qed.

Lemma strip_replace_dot s : Py.strip (Py.replace_dot s) = Py.replace_dot (Py.strip s).
Proof. unfold Py.strip. by rewrite lstrip_replace_dot, rstrip_replace_dot. Qed.

(** A string that [rstrip] leaves non-empty keeps its first character. *)
Lemma lstrip_no_leading_space c s : Py.isspace c = false → Py.lstrip (String c s) = String c s.
Proof. intros H. cbn. by rewrite H. Qed.

Lemma rstrip_cons c r :
  Py.rstrip (String c r) =
  match Py.rstrip r with
  | EmptyString => if Py.isspace c then EmptyString else String c EmptyString
  | r' => String c r'
  end.
Proof. reflexivity. Qed.

Lemma rstrip_idem s : Py.rstrip (Py.rstrip s) = Py.rstrip s.
Proof.
  induction s as [|c s IH]; [done|]. rewrite rstrip_cons.
  destruct (Py.rstrip s) as [|c' s'] eqn:Hr.
  - destruct (Py.isspace c) eqn:Hc; [done|]. rewrite rstrip_cons. cbn. by rewrite Hc.
  - rewrite rstrip_cons, IH. done.
Qed.

Lemma rstrip_head c s :
  Py.isspace c = false → ∃ r, Py.rstrip (String c s) = String c r.
Proof.
  intros Hc. cbn. destruct (Py.rstrip s); [rewrite Hc|]; eauto.
Qed.

Lemma lstrip_head s : Py.lstrip s = EmptyString ∨ ∃ c r, Py.lstrip s = String c r ∧ Py.isspace c = false.
Proof.
  induction s as [|c s IH]; cbn; [by left|].
  destruct (Py.isspace c) eqn:Hc; [done|]. right. eauto.
Qed.

Lemma strip_idem s : Py.strip (Py.strip s) = Py.strip s.
Proof.
  unfold Py.strip. destruct (lstrip_head s) as [->|(c & r & -> & Hc)]; [done|].
  destruct (rstrip_head c r Hc) as [r' Hr]. rewrite Hr.
  rewrite (lstrip_no_leading_space c r' Hc), <- Hr. apply rstrip_idem.
Qed.

Lemma replace_dot_no_dot s : "."%char ∉ list_ascii_of_string (Py.replace_dot s).
Proof.
  induction s as [|c s IH]; cbn; [apply not_elem_of_nil|].
  apply not_elem_of_cons. split; [|done].
  destruct (Ascii.eqb c "."%char) eqn:Hc; [done|].
  intros <-. by rewrite Ascii.eqb_refl in Hc.
Qed.

(** X4.  The source spelling of a symbol is canonical: mapping a symbol that
    is already mapped changes nothing, and in backtesting mode the mapped
    symbol contains no dot (class shares are spelled with a dash). *)
Theorem src_symbol_canonical (h : Host) (symbol : string) :
  _src_symbol h (_src_symbol h symbol) = _src_symbol h symbol
  ∧ (is_backtesting h = true →
     "."%char ∉ list_ascii_of_string (_src_symbol h symbol))
  ∧ (is_backtesting h = false →
     _src_symbol h symbol = Py.strip (Py.upper symbol)).
Proof.
  unfold _src_symbol. destruct (is_backtesting h); split; try split; try done.
  - rewrite upper_replace_dot, strip_replace_dot, upper_strip, upper_idem, strip_idem.
    apply replace_dot_idem.
  - intros _. apply replace_dot_no_dot.
  - by rewrite upper_strip, upper_idem, strip_idem.
Qed.

Example src_symbol_class_share :
  _src_symbol Scenario.breadth_host " brk.b " = "BRK-B".
Proof. reflexivity. Qed.

(** ** Regime: breadth and exposure *)

Lemma breadth_one_cases h needed above total sym s r :
  result_of (breadth_one h needed (above, total) sym s) = Ok r →
  r = (above, total) ∨ r = ((above + 1)%Z, (total + 1)%Z) ∨ r = (above, (total + 1)%Z).
Proof.
  unfold breadth_one.
  destruct (get_daily_df_total h sym needed s) as [df Hdf].
  rewrite (bind_result_Ok _ _ _ _ Hdf). cbn [result_of fst].
  destruct (above_sma_total df (state_of (_get_daily_df h sym needed s))) as [up Hup].
  rewrite (bind_result_Ok _ _ _ _ Hup). cbn [result_of fst].
  destruct up as [[]|]; intros [= <-]; auto.
Qed.

Lemma breadth_loop_invariant h needed sample s above total :
  result_of (for_fold sample (0%Z, 0%Z) (breadth_one h needed) s) = Ok (above, total) →
  (0 <= above <= total)%Z ∧ (total <= len sample)%Z.
Proof.
  intros Hr.
  apply (for_fold_invariant (λ _, True)
           (λ pre (acc : Z * Z), (0 <= acc.1 <= acc.2)%Z ∧ (acc.2 <= len pre)%Z)
           (breadth_one h needed))
    with (xs := sample) (pre := []) (acc := (0%Z, 0%Z)) (s := s) in Hr; try done.
  intros pre x [a t] s' r _ [Hat Ht] Hres. cbn [fst snd] in *.
  rewrite len_app. change (len [x]) with 1%Z.
  destruct (breadth_one_cases _ _ _ _ _ _ _ Hres) as [->| [->| ->]]; cbn [fst snd]; lia.
Qed.

Lemma len_slice_to_le {A} (n : Z) (xs : list A) :
  (0 <= n)%Z → (len (Py.slice_to n xs) <= n)%Z.
Proof. intros Hn. rewrite slice_to_take by done. unfold len. rewrite length_take. lia. Qed.

(** X5.  A breadth reading is a genuine fraction: whenever
    [_breadth_fraction] answers with a value, that value is [above / total]
    for counts with [0 <= above <= total], at least 30 and at most
    [BREADTH_SAMPLE] symbols were readable, and so the value lies in
    [0, 1]. *)
Theorem breadth_fraction_is_a_fraction (h : Host) (s : EngineState) (b : Q) :
  result_of (_breadth_fraction h s) = Ok (Some b) →
  (∃ above total : Z,
      b = inject_Z above / inject_Z total
      ∧ (0 <= above <= total)%Z ∧ (30 <= total <= BREADTH_SAMPLE)%Z
      ∧ (total <= len (universe s))%Z)
  ∧ 0 <= b <= 1.
Proof.
  intros Hb.
  assert (∃ above total : Z,
      b = inject_Z above / inject_Z total
      ∧ (0 <= above <= total)%Z ∧ (30 <= total <= BREADTH_SAMPLE)%Z
      ∧ (total <= len (universe s))%Z) as Hcounts.
  { unfold _breadth_fraction in Hb. rewrite bind_get_state in Hb.
    set (sample := Py.slice_to _ (universe s)) in *.
    assert (len sample <= Z.min (len (universe s)) BREADTH_SAMPLE)%Z as Hlen.
    { apply len_slice_to_le. unfold len, BREADTH_SAMPLE. lia. }
    destruct sample as [|x sample'] eqn:Hs; [done|]. rewrite <- Hs in *. clear Hs.
    destruct (result_of (for_fold sample (0%Z, 0%Z)
                (breadth_one h (TREND_SMA_DAYS + 30)) s)) as [[above total]|] eqn:Hloop.
    2:{ by rewrite (bind_result_Raise _ _ _ Hloop) in Hb. }
    rewrite (bind_result_Ok _ _ _ _ Hloop) in Hb. cbn [result_of fst] in Hb.
    destruct (total <? _)%Z eqn:Hfew; [done|]. apply Z.ltb_ge in Hfew.
    injection Hb as <-.
    destruct (breadth_loop_invariant _ _ _ _ _ _ Hloop) as [Hat Ht].
    exists above, total. repeat split; try lia. }
  split; [exact Hcounts|].
  destruct Hcounts as (above & total & -> & [H0 Hat] & [H30 _] & _).
  assert (0 < inject_Z total) as Htot.
  { change 0 with (inject_Z 0). rewrite <- Zlt_Qlt. lia. }
  rewrite Zle_Qle in H0, Hat. change (inject_Z 0) with 0 in H0.
  split.
  - apply Qle_shift_div_l; [done|]. lra.
  - apply Qle_shift_div_r; [done|]. lra.
Qed.

Lemma breadth_fraction_is_a_fraction_witness :
  0 <= 15 # 30 <= 1.
Proof.
  apply (breadth_fraction_is_a_fraction Scenario.breadth_host
           (state_of (_spy_trend_bull Scenario.breadth_host Scenario.breadth_state))
           (15 # 30)).
  vm_compute. reflexivity.
Defined.

(** [_risk_on_fraction], branch by branch. *)
Lemma risk_on_fraction_run h s :
  let bear := target_exposure_bear (profile s) in
  let bull := target_exposure_bull (profile s) in
  let s1 := state_of (_spy_trend_bull h s) in
  ∃ spy_bull breadth,
    result_of (_spy_trend_bull h s) = Ok spy_bull
    ∧ result_of (_breadth_fraction h s1) = Ok breadth
    ∧ result_of (_risk_on_fraction h s)
      = Ok (let base := match spy_bull with
                        | Some true => bull
                        | Some false => bear
                        | None => 1
                        end in
            if negb (_should_rebalance_today h s) then base
            else match breadth with
                 | None => base
                 | Some b => clamp01 (bear + breadth_dial b * (bull - bear))
                 end).
Proof.
  intros bear bull s1.
  destruct (spy_trend_bull_total h s) as [spy Hspy].
  destruct (breadth_fraction_total h s1) as [br Hbr].
  exists spy, br. split; [done|]. split; [done|].
  unfold _risk_on_fraction. rewrite bind_get_state.
  rewrite (bind_result_Ok _ _ _ _ Hspy). fold s1. cbn [result_of fst].
  rewrite bind_get_state.
  destruct (spy_trend_bull_keeps h s) as [(Hp & _ & Hl & _) _]. fold s1 in Hp, Hl.
  assert (_should_rebalance_today h s1 = _should_rebalance_today h s) as ->.
  { unfold _should_rebalance_today. by rewrite Hp, Hl. }
  destruct (_should_rebalance_today h s); cbn [negb]; [|done].
  rewrite (bind_result_Ok _ _ _ _ Hbr). cbn [result_of fst].
  by destruct br.
Qed.

(** X6.  With bear and bull targets that are fractions, the exposure
    [_risk_on_fraction] returns is always a fraction in [0, 1].  On a
    rebalance day with a breadth reading [b] it is
    [bear + dial(b) * (bull - bear)]; on any other day, and when breadth
    cannot be read, it is the bull target when SPY is above its SMA200, the
    bear target when it is not, and 1 when SPY cannot be read.  So it is never
    below the smaller nor above the larger of the two targets when SPY can be
    read or, on a rebalance day, breadth can; it is 1 when neither can. *)
Theorem risk_on_fraction_is_a_fraction (h : Host) (s : EngineState) :
  0 <= target_exposure_bear (profile s) <= 1 →
  0 <= target_exposure_bull (profile s) <= 1 →
  let bear := target_exposure_bear (profile s) in
  let bull := target_exposure_bull (profile s) in
  let due := _should_rebalance_today h s in
  ∃ e spy_bull breadth,
    result_of (_risk_on_fraction h s) = Ok e
    ∧ result_of (_spy_trend_bull h s) = Ok spy_bull
    ∧ result_of (_breadth_fraction h (state_of (_spy_trend_bull h s))) = Ok breadth
    ∧ 0 <= e <= 1
    ∧ (∀ b, due = true → breadth = Some b → e == bear + breadth_dial b * (bull - bear))
    ∧ (due = false ∨ breadth = None →
       e = match spy_bull with Some true => bull | Some false => bear | None => 1 end)
    ∧ (spy_bull ≠ None ∨ (due = true ∧ breadth ≠ None) →
       Qmin bear bull <= e ∧ e <= Qmax bear bull)
    ∧ (e == 1 ∨ (Qmin bear bull <= e ∧ e <= Qmax bear bull)).
Proof.
  intros Hbear Hbull. cbv zeta.
  destruct (risk_on_fraction_run h s) as (spy & br & Hspy & Hbr & He). cbv zeta in He.
  set (bear := target_exposure_bear (profile s)) in *.
  set (bull := target_exposure_bull (profile s)) in *.
  eexists _, spy, br. split; [exact He|]. split; [exact Hspy|]. split; [exact Hbr|].
  assert (Qmin bear bull <= bear) by apply Q.le_min_l.
  assert (Qmin bear bull <= bull) by apply Q.le_min_r.
  assert (bear <= Qmax bear bull) by apply Q.le_max_l.
  assert (bull <= Qmax bear bull) by apply Q.le_max_r.
  assert (0 <= Qmin bear bull) by (apply Q.min_glb; lra).
  assert (Qmax bear bull <= 1) by (apply Q.max_lub; lra).
  assert (∀ b,
            clamp01 (bear + breadth_dial b * (bull - bear)) ==
            bear + breadth_dial b * (bull - bear)
            ∧ Qmin bear bull <= bear + breadth_dial b * (bull - bear) <= Qmax bear bull)
    as Hblend.
  { intros b. pose proof (clamp01_range ((b - BREADTH_LOW) /
        Py.max (1 # 1000000000) (BREADTH_HIGH - BREADTH_LOW))) as Hd.
    fold (breadth_dial b) in Hd. set (d := breadth_dial b) in *.
    assert (Qmin bear bull <= bear + d * (bull - bear) <= Qmax bear bull) as Hin.
    { destruct (Qlt_le_dec bull bear).
      - rewrite (Q.min_r bear bull), (Q.max_l bear bull) by lra. split; nra.
      - rewrite (Q.min_l bear bull), (Q.max_r bear bull) by lra. split; nra. }
    split; [|exact Hin]. apply clamp01_id. lra. }
  destruct (_should_rebalance_today h s) eqn:Hdue; cbn [negb].
  - destruct br as [b|].
    + destruct (Hblend b) as [Hid Hin].
      split; [rewrite Hid; lra|]. split; [by intros b' _ [= <-]|].
      split; [by intros [?|?]|]. split; [intros _; rewrite Hid; split; lra|].
      right. rewrite Hid. split; lra.
    + split; [destruct spy as [[]|]; lra|]. split; [done|]. split; [done|].
      split; [|destruct spy as [[]|]; [right; split; lra..|by left]].
      intros [Hs|[_ ?]]; [|done]. destruct spy as [[]|]; [split; lra..|done].
  - split; [destruct spy as [[]|]; lra|]. split; [done|]. split; [done|].
    split; [|destruct spy as [[]|]; [right; split; lra..|by left]].
    intros [Hs|[? _]]; [|done]. destruct spy as [[]|]; [split; lra..|done].
Qed.

Lemma risk_on_fraction_is_a_fraction_witness :
  (∃ e, result_of (_risk_on_fraction Scenario.breadth_host Scenario.breadth_state) = Ok e
        ∧ 20 # 100 <= e ∧ e <= 98 # 100)
  ∧ result_of (_risk_on_fraction RegimeScenario.dark_host Scenario.breadth_state) = Ok 1.
Proof.
  split.
  - destruct (risk_on_fraction_is_a_fraction Scenario.breadth_host Scenario.breadth_state)
      as (e & spy & br & He & Hspy & _ & _ & _ & _ & Hin & _).
    + vm_compute. split; discriminate.
    + vm_compute. split; discriminate.
    + exists e. split; [exact He|].
      assert (spy = Some true) as -> by (vm_compute in Hspy; congruence).
      destruct Hin as [Hlo Hhi]; [by left|].
      split; [exact Hlo|exact Hhi].
  - destruct (risk_on_fraction_is_a_fraction RegimeScenario.dark_host Scenario.breadth_state)
      as (e & spy & br & He & Hspy & Hbr & _ & _ & Hbase & _).
    + vm_compute. split; discriminate.
    + vm_compute. split; discriminate.
    + assert (spy = None) as -> by (vm_compute in Hspy; congruence).
      assert (br = None) as -> by (vm_compute in Hbr; congruence).
      rewrite He. f_equal. apply Hbase. by right.
Defined.

Lemma breadth_dial_monotone b b' : b <= b' → breadth_dial b <= breadth_dial b'.
Proof.
  intros Hb. unfold breadth_dial. rewrite !clamp01_Qmax.
  apply Q.max_le_compat_l, Q.min_le_compat_l.
  apply Qmult_le_compat_r; [lra|]. apply Qlt_le_weak, Qinv_lt_0_compat.
  pose proof (Py_max_ge_l (1 # 1000000000) (BREADTH_HIGH - BREADTH_LOW)). lra.
Qed.

Lemma breadth_dial_low b : b <= BREADTH_LOW → breadth_dial b == 0.
Proof.
  intros Hb. rewrite breadth_dial_formula, clamp01_Qmax.
  assert ((b - BREADTH_LOW) / (BREADTH_HIGH - BREADTH_LOW) <= 0) as Hneg.
  { unfold BREADTH_HIGH, BREADTH_LOW in *. apply Qle_shift_div_r; [reflexivity|]. lra. }
  rewrite Q.min_r by lra. by rewrite Q.max_l.
Qed.

Lemma breadth_dial_high b : BREADTH_HIGH <= b → breadth_dial b == 1.
Proof.
  intros Hb. rewrite breadth_dial_formula, clamp01_Qmax.
  assert (1 <= (b - BREADTH_LOW) / (BREADTH_HIGH - BREADTH_LOW)) as Hbig.
  { unfold BREADTH_HIGH, BREADTH_LOW in *. apply Qle_shift_div_l; [reflexivity|]. lra. }
  rewrite Q.min_l by lra. by rewrite Q.max_r.
Qed.

(** X7.  On a rebalance day the exposure grows with breadth and ignores the
    SPY trend: for two market snapshots with breadth readings [b <= b'] and a
    bull target not below the bear target, the exposure under [b] is at most
    the exposure under [b'].  A breadth at or below [BREADTH_LOW] gives the
    bear target, one at or above [BREADTH_HIGH] the bull target (each clamped
    to [0, 1]). *)
Theorem risk_on_fraction_monotone_in_breadth (h h' : Host) (s : EngineState) (b b' : Q) :
  _should_rebalance_today h s = true →
  _should_rebalance_today h' s = true →
  result_of (_breadth_fraction h (state_of (_spy_trend_bull h s))) = Ok (Some b) →
  result_of (_breadth_fraction h' (state_of (_spy_trend_bull h' s))) = Ok (Some b') →
  target_exposure_bear (profile s) <= target_exposure_bull (profile s) →
  b <= b' →
  ∃ e e',
    result_of (_risk_on_fraction h s) = Ok e
    ∧ result_of (_risk_on_fraction h' s) = Ok e'
    ∧ e <= e'
    ∧ (b <= BREADTH_LOW → e == clamp01 (target_exposure_bear (profile s)))
    ∧ (BREADTH_HIGH <= b → e == clamp01 (target_exposure_bull (profile s)))
    ∧ (b' <= BREADTH_LOW → e' == clamp01 (target_exposure_bear (profile s)))
    ∧ (BREADTH_HIGH <= b' → e' == clamp01 (target_exposure_bull (profile s))).
Proof.
  intros Hday Hday' Hb Hb' Hbb Hle.
  destruct (risk_on_fraction_run h s) as (spy & br & _ & Hbr & ->).
  destruct (risk_on_fraction_run h' s) as (spy' & br' & _ & Hbr' & ->). cbv zeta.
  rewrite Hday, Hday'. cbn [negb].
  rewrite Hb in Hbr. injection Hbr as <-. rewrite Hb' in Hbr'. injection Hbr' as <-.
  set (bear := target_exposure_bear (profile s)) in *.
  set (bull := target_exposure_bull (profile s)) in *.
  eexists _, _. split; [reflexivity|]. split; [reflexivity|].
  pose proof (breadth_dial_monotone b b' Hle) as Hd.
  split; [|split; [|split; [|split]]].
  - rewrite !clamp01_Qmax. apply Q.max_le_compat_l, Q.min_le_compat_l. nra.
  - intros Hlow. apply clamp01_proper. rewrite (breadth_dial_low b Hlow). ring.
  - intros Hhigh. apply clamp01_proper. rewrite (breadth_dial_high b Hhigh). ring.
  - intros Hlow. apply clamp01_proper. rewrite (breadth_dial_low b' Hlow). ring.
  - intros Hhigh. apply clamp01_proper. rewrite (breadth_dial_high b' Hhigh). ring.
Qed.

Lemma risk_on_fraction_monotone_in_breadth_witness :
  let s := Scenario.breadth_state in
  result_of (_spy_trend_bull RegimeScenario.weak_host s) = Ok (Some true)
  ∧ result_of (_spy_trend_bull RegimeScenario.strong_host s) = Ok (Some false)
  ∧ result_of (_breadth_fraction RegimeScenario.weak_host
                 (state_of (_spy_trend_bull RegimeScenario.weak_host s))) = Ok (Some (0 # 30))
  ∧ result_of (_breadth_fraction Scenario.breadth_host
                 (state_of (_spy_trend_bull Scenario.breadth_host s))) = Ok (Some (15 # 30))
  ∧ result_of (_breadth_fraction RegimeScenario.strong_host
                 (state_of (_spy_trend_bull RegimeScenario.strong_host s))) = Ok (Some (30 # 30))
  ∧ ∃ e0 e1 e2,
      result_of (_risk_on_fraction RegimeScenario.weak_host s) = Ok e0
      ∧ result_of (_risk_on_fraction Scenario.breadth_host s) = Ok e1
      ∧ result_of (_risk_on_fraction RegimeScenario.strong_host s) = Ok e2
      ∧ e0 <= e1 ∧ e1 <= e2
      ∧ e0 == 20 # 100 ∧ e2 == 98 # 100 ∧ e0 < e2.
Proof.
  cbv zeta.
  assert (result_of (_breadth_fraction RegimeScenario.weak_host
                       (state_of (_spy_trend_bull RegimeScenario.weak_host
                                    Scenario.breadth_state))) = Ok (Some (0 # 30))) as Hb0
    by (vm_compute; reflexivity).
  assert (result_of (_breadth_fraction Scenario.breadth_host
                       (state_of (_spy_trend_bull Scenario.breadth_host
                                    Scenario.breadth_state))) = Ok (Some (15 # 30))) as Hb1
    by (vm_compute; reflexivity).
  assert (result_of (_breadth_fraction RegimeScenario.strong_host
                       (state_of (_spy_trend_bull RegimeScenario.strong_host
                                    Scenario.breadth_state))) = Ok (Some (30 # 30))) as Hb2
    by (vm_compute; reflexivity).
  split; [vm_compute; reflexivity|]. split; [vm_compute; reflexivity|].
  split; [exact Hb0|]. split; [exact Hb1|]. split; [exact Hb2|].
  destruct (risk_on_fraction_monotone_in_breadth RegimeScenario.weak_host
              Scenario.breadth_host Scenario.breadth_state (0 # 30) (15 # 30)
              eq_refl eq_refl Hb0 Hb1)
    as (e0 & e1 & He0 & He1 & Hle01 & Hlow & _); [vm_compute; discriminate..|].
  destruct (risk_on_fraction_monotone_in_breadth Scenario.breadth_host
              RegimeScenario.strong_host Scenario.breadth_state (15 # 30) (30 # 30)
              eq_refl eq_refl Hb1 Hb2)
    as (e1' & e2 & He1' & He2 & Hle12 & _ & _ & _ & Hhigh); [vm_compute; discriminate..|].
  assert (e1' = e1) as -> by congruence.
  assert (e0 == 20 # 100) as H0.
  { rewrite Hlow by (vm_compute; discriminate). reflexivity. }
  assert (e2 == 98 # 100) as H2.
  { rewrite Hhigh by (vm_compute; discriminate). reflexivity. }
  exists e0, e1, e2. split; [exact He0|]. split; [exact He1|]. split; [exact He2|].
  split; [exact Hle01|]. split; [exact Hle12|]. split; [exact H0|]. split; [exact H2|].
  rewrite H0, H2. reflexivity.
Defined.

(** ** Ranking and selection *)

Lemma insert_desc_perm x l : insert_desc x l ≡ₚ x :: l.
Proof.
  induction l as [|y r IH]; cbn; [done|].
  destruct (Py.Qltb x.2 y.2); [|done]. rewrite IH. apply Permutation_swap.
Qed.

Lemma sort_desc_perm l : sort_desc l ≡ₚ l.
Proof.
  induction l as [|x l IH]; cbn; [done|].
  unfold sort_desc in *. by rewrite insert_desc_perm, IH.
Qed.

Lemma insert_desc_descending x l : descending l → descending (insert_desc x l).
Proof.
  induction l as [|y r IH]; cbn [insert_desc descending]; [by intros; split|].
  intros [Hy Hr]. destruct (Py.Qltb x.2 y.2) eqn:Hxy.
  - apply Qltb_true in Hxy. cbn [descending]. split; [|by apply IH].
    rewrite insert_desc_perm. constructor; [lra|done].
  - apply Qltb_false in Hxy. cbn [descending]. split; [|by split].
    constructor; [done|]. eapply Forall_impl; [exact Hy|]. intros z Hz. cbn in Hz. lra.
Qed.

Lemma sort_desc_descending l : descending (sort_desc l).
Proof.
  induction l as [|x l IH]; cbn; [done|]. by apply insert_desc_descending.
Qed.

Lemma with_score_insert_desc q x l :
  with_score q (insert_desc x l) = with_score q (x :: l).
Proof.
  unfold with_score. induction l as [|y r IH]; cbn [insert_desc]; [done|].
  destruct (Py.Qltb x.2 y.2) eqn:Hxy; [|done]. apply Qltb_true in Hxy.
  rewrite (filter_cons _ y), IH, !(filter_cons _ x), (filter_cons _ y).
  destruct (decide (Qeq_bool x.2 q = true)) as [Hx|Hx]; [|done].
  destruct (decide (Qeq_bool y.2 q = true)) as [Hy|Hy]; [|done].
  apply Qeq_bool_iff in Hx, Hy. lra.
Qed.

(** X8.  The ranking sort is a stable descending sort: the sorted list is a
    rearrangement of the scored list, no entry is followed by one with a
    higher score, and entries with equal scores keep the order in which the
    universe produced them. *)
Theorem sort_desc_stable_descending (l : list (string * Q)) :
  sort_desc l ≡ₚ l
  ∧ descending (sort_desc l)
  ∧ ∀ q, with_score q (sort_desc l) = with_score q l.
Proof.
  split; [apply sort_desc_perm|]. split; [apply sort_desc_descending|].
  intros q. induction l as [|x l IH]; [done|].
  change (sort_desc (x :: l)) with (insert_desc x (sort_desc l)).
  rewrite with_score_insert_desc. unfold with_score in *.
  by rewrite !(filter_cons _ x), IH.
Qed.





Lemma fallback_pass_NoDup max_pos ranked :
  ∀ selected, NoDup selected → NoDup (fallback_pass max_pos ranked selected).
Proof.
  induction ranked as [|sym rest IH]; intros sel Hnd; cbn [fallback_pass]; [done|].
  case_bool_decide as Hin; [by apply IH|].
  assert (NoDup (sel ++ [sym])) as Hnd'.
  { apply NoDup_app. split; [done|]. split; [|apply NoDup_singleton].
    intros x Hx ->%list_elem_of_singleton. done. }
  destruct (max_pos <=? _)%Z; [done|by apply IH].
Qed.

Lemma filter_ext_in {A} (P1 P2 : A → Prop) `{∀ x, Decision (P1 x)} `{∀ x, Decision (P2 x)}
    (l : list A) :
  (∀ x, x ∈ l → P1 x ↔ P2 x) → filter P1 l = filter P2 l.
Proof.
  induction l as [|x l IH]; intros Hl; [done|]. rewrite !filter_cons.
  rewrite IH by (intros y Hy; apply Hl; by apply list_elem_of_further).
  destruct (decide (P1 x)) as [H1|H1], (decide (P2 x)) as [H2|H2]; try done;
    exfalso; apply (Hl x (list_elem_of_here _ _)) in H1 || apply (Hl x (list_elem_of_here _ _)) in H2;
    done.
Qed.

Lemma fallback_pass_length max_pos ranked :
  ∀ selected,
    NoDup ranked → (len selected < max_pos)%Z →
    len (fallback_pass max_pos ranked selected)
    = Z.min max_pos (len selected + len (filter (λ x, x ∉ selected) ranked)).
Proof.
  induction ranked as [|sym rest IH]; intros sel Hnd Hlt; cbn [fallback_pass].
  - rewrite filter_nil. unfold len at 3. cbn. lia.
  - apply NoDup_cons in Hnd as [Hsym Hnd]. rewrite filter_cons.
    case_bool_decide as Hin.
    + rewrite decide_False by (by intros ?). by apply IH.
    + rewrite decide_True by done.
      assert (len (sel ++ [sym]) = len sel + 1)%Z as Hlen by (by rewrite len_app).
      assert (filter (λ x, x ∉ sel ++ [sym]) rest = filter (λ x, x ∉ sel) rest) as Hf.
      { apply filter_ext_in. intros x Hx. rewrite not_elem_of_app.
        split; [by intros [? _]|]. intros ?. split; [done|].
        intros ->%list_elem_of_singleton. done. }
      unfold len at 4. cbn [length]. fold (len (filter (λ x, x ∉ sel) rest)).
      destruct (max_pos <=? _)%Z eqn:Hstop.
      * apply Z.leb_le in Hstop. unfold len in *. lia.
      * apply Z.leb_gt in Hstop. rewrite IH by (done || lia). rewrite Hf.
        unfold len in *. lia.
Qed.

Lemma sublist_complement_length (first ranked : list string) :
  NoDup ranked → first `sublist_of` ranked →
  (len first + len (filter (λ x, x ∉ first) ranked) = len ranked)%Z.
Proof.
  intros Hnd Hsub.
  assert (first ++ filter (λ x, x ∉ first) ranked ≡ₚ ranked) as Hperm.
  { apply NoDup_Permutation; [|done|].
    - apply NoDup_app. split; [by eapply sublist_NoDup|].
      split; [|by apply NoDup_filter].
      intros x Hx [Hnot _]%list_elem_of_filter. done.
    - intros x. rewrite elem_of_app, list_elem_of_filter. split.
      + intros [Hx|[_ Hx]]; [|done]. by eapply elem_of_sublist.
      + intros Hx. destruct (decide (x ∈ first)); [by left|by right]. }
  apply Permutation_length in Hperm. rewrite length_app in Hperm. unfold len. lia.
Qed.

(** X10.  With [max_positions >= 1] and a ranking without repetitions the
    selector never leaves a slot empty that a ranked symbol could fill: it
    returns exactly [min(max_positions, len(ranked))] distinct ranked symbols,
    and the best-ranked symbol is always the first of them, whatever the
    sector caps. *)
Theorem select_with_sector_caps_fills_slots (s : EngineState) (ranked : list string) :
  (1 <= max_positions (profile s))%Z →
  NoDup ranked →
  let out := _select_with_sector_caps s ranked in
  len out = Z.min (max_positions (profile s)) (len ranked)
  ∧ NoDup out
  ∧ (∀ x, x ∈ out → x ∈ ranked)
  ∧ head out = head ranked.
Proof.
  intros Hpos Hnd out. subst out. unfold _select_with_sector_caps.
  destruct ranked as [|r0 rest] eqn:Hr; [by (repeat split; try done; unfold len; cbn; lia)|].
  rewrite <- Hr in Hnd |- *.
  set (max_pos := max_positions (profile s)) in *.
  set (cap := max_sector_positions (profile s)) in *.
  case_decide as Hmap.
  { rewrite slice_to_take by lia. split; [|split; [|split]].
    - unfold len. rewrite length_take. lia.
    - eapply sublist_NoDup; [done|apply sublist_take].
    - intros x Hx. eapply elem_of_sublist; [done|apply sublist_take].
    - rewrite Hr. destruct (Z.to_nat max_pos) eqn:Hn; [lia|done]. }
  assert (∃ first,
            capped_pass (_sector_by_symbol s) cap max_pos ranked ∅ [] = first
            ∧ first `sublist_of` ranked ∧ (len first <= max_pos)%Z)
    as (first & Hfirst & Hsub & Hlen).
  { destruct (decide (cap <= 0)%Z) as [Hc|Hc].
    - exists []. rewrite capped_pass_closed by done.
      split; [done|]. split; [apply sublist_nil_l|]. unfold len. cbn. lia.
    - destruct (capped_pass_spec (_sector_by_symbol s) cap max_pos ranked ∅ [])
        as (first & Hfirst & Hsub & _ & Hlen).
      { intros sec. unfold dict_get. by rewrite lookup_empty. }
      { intros sec. unfold sector_load, len. cbn. lia. }
      exists first. split; [done|]. split; [done|].
      apply Hlen. unfold len. cbn. lia. }
  assert (head (capped_pass (_sector_by_symbol s) cap max_pos ranked ∅ []) = Some r0
          ∨ capped_pass (_sector_by_symbol s) cap max_pos ranked ∅ [] = []) as Hhead.
  { rewrite Hr. cbn [capped_pass]. cbv zeta. rewrite !dict_get_empty.
    destruct (cap <=? 0)%Z eqn:Hc.
    - right. apply capped_pass_closed. lia.
    - left. cbn [app]. destruct (max_pos <=? _)%Z; [done|].
      match goal with
      | |- head (capped_pass ?a ?b ?c ?d ?e ?f) = _ =>
          by destruct (capped_pass_extends a b c d e f) as [extra ->]
      end. }
  rewrite Hfirst in Hhead |- *.
  assert (len first <= len ranked)%Z as Hle.
  { apply sublist_length in Hsub. unfold len. lia. }
  destruct (len first <? max_pos)%Z eqn:Hshort.
  - apply Z.ltb_lt in Hshort. split; [|split; [|split]].
    + rewrite fallback_pass_length by done.
      by rewrite sublist_complement_length.
    + apply fallback_pass_NoDup. by eapply sublist_NoDup.
    + intros x. destruct (fallback_pass_spec max_pos ranked first) as (extra & -> & Hsub' & _).
      intros [Hx|Hx]%elem_of_app; by eapply elem_of_sublist.
    + destruct Hhead as [Hhead| ->].
      * destruct (fallback_pass_spec max_pos ranked first) as (extra & -> & _).
        rewrite Hr. by destruct first.
      * rewrite Hr. cbn [fallback_pass]. rewrite bool_decide_eq_false_2 by apply not_elem_of_nil.
        cbn [app]. destruct (max_pos <=? _)%Z; [done|].
        by destruct (fallback_pass_spec max_pos rest [r0]) as (extra & -> & _).
  - apply Z.ltb_ge in Hshort. split; [lia|]. split; [by eapply sublist_NoDup|].
    split; [intros x Hx; by eapply elem_of_sublist|].
    destruct Hhead as [Hhead| ->]; [by rewrite Hr|]. unfold len in Hshort. cbn in Hshort. lia.
Qed.

Lemma select_with_sector_caps_fills_slots_witness :
  len (_select_with_sector_caps SelectorScenario.state SelectorScenario.ranked) = 3%Z.
Proof.
  apply (select_with_sector_caps_fills_slots SelectorScenario.state SelectorScenario.ranked).
  - vm_compute. discriminate.
  - apply (bool_decide_unpack _). vm_compute. exact I.
Defined.

(** ** Guards of the trading step *)

Lemma Qabs_pos_eq q : 0 < q → Qabs q = q.
Proof.
  destruct q as [n d]. unfold Qlt. cbn. intros H. f_equal. lia.
Qed.

Lemma get_daily_df_keeps_data h symbol length :
  keeps only_cache data_failure (_get_daily_df h symbol length).
Proof. unfold _get_daily_df. repeat keeps_step. Qed.

#[export] Hint Resolve get_daily_df_keeps_data : keeps.

Lemma atr_keeps_data h symbol : keeps only_cache data_failure (_atr h symbol).
Proof. unfold _atr. repeat keeps_step. Qed.

Lemma data_failure_trailing h e : data_failure e → trailing_exit h e.
Proof. by destruct e as [|[]]. Qed.

Lemma trailing_exit_exit h e : trailing_exit h e → exit_event h e.
Proof.
  destruct e as [o|[]]; try done. intros (pos & px & Hin & Hq & _ & _ & ->).
  exists pos. split; [done|]. split; [lra|].
  by rewrite (Qabs_pos_eq _ Hq), (closing_side_long _ Hq).
Qed.

Lemma atr_keeps_trailing h symbol :
  keeps only_cache_and_highs (trailing_exit h) (_atr h symbol).
Proof.
  eapply keeps_weaken; [apply only_cache_highs | apply data_failure_trailing |].
  apply atr_keeps_data.
Qed.

#[export] Hint Resolve atr_keeps_trailing : keeps.

Lemma keeps_for_each_in (P : EngineState → EngineState → Prop) (E : Event → Prop)
    {A} (xs : list A) (body : A → M unit) :
  (∀ s, P s s) → (∀ a b c, P a b → P b c → P a c) →
  (∀ x, x ∈ xs → keeps P E (body x)) → keeps P E (for_each xs body).
Proof.
  intros Hrefl Htrans. induction xs as [|x r IH]; intros Hb; cbn [for_each].
  - by apply keeps_ret.
  - apply keeps_bind; [done| |intros _].
    + apply Hb, list_elem_of_here.
    + apply IH. intros y Hy. by apply Hb, list_elem_of_further.
Qed.

Lemma trailing_stop_one_exit h pos :
  pos ∈ get_positions h →
  keeps only_cache_and_highs (trailing_exit h) (trailing_stop_one h pos).
Proof.
  intros Hin. unfold trailing_stop_one.
  destruct (Py.Qleb (pos_quantity pos) 0) eqn:Hq; [repeat keeps_step|].
  apply Qleb_false in Hq.
  destruct (get_last_price h (_src_symbol h (pos_symbol pos))) as [px|] eqn:Hpx;
    [|repeat keeps_step].
  destruct (Py.Qleb px 0) eqn:Hpos; [repeat keeps_step|]. apply Qleb_false in Hpos.
  repeat keeps_step.
  - apply keeps_emit; [apply only_cache_and_highs_refl|].
    exists pos, px. by rewrite (Qabs_pos_eq _ Hq).
  - unfold pop_highest_close. repeat keeps_step.
Qed.

Lemma apply_trailing_stops_exit h :
  keeps only_cache_and_highs (trailing_exit h) (_apply_trailing_stops h).
Proof.
  unfold _apply_trailing_stops.
  apply keeps_for_each_in; [apply only_cache_and_highs_refl | apply only_cache_and_highs_trans |].
  apply trailing_stop_one_exit.
Qed.

Lemma submitted_data_failure ev : Forall data_failure ev → submitted ev = [].
Proof.
  induction 1 as [|e ev He _ IH]; [done|]. unfold submitted in *. cbn.
  by destruct e as [|[]].
Qed.

Lemma submitted_length_app ev1 ev2 :
  length (submitted (ev1 ++ ev2)) = (length (submitted ev1) + length (submitted ev2))%nat.
Proof. by rewrite submitted_app, length_app. Qed.

Lemma trailing_stop_one_at_most_one h pos s :
  (length (submitted (events_of (trailing_stop_one h pos s))) <= 1)%nat.
Proof.
  unfold trailing_stop_one.
  destruct (Py.Qleb (pos_quantity pos) 0); [cbn; lia|].
  destruct (get_last_price h _) as [px|]; [|cbn; lia].
  destruct (Py.Qleb px 0); [cbn; lia|].
  rewrite bind_get_state, bind_modify.
  set (s1 := set_highest_close _ s).
  pose proof (atr_keeps_data h (pos_symbol pos) s1) as [_ Hev].
  apply submitted_data_failure in Hev.
  destruct (result_of (_atr h (pos_symbol pos) s1)) as [atr|] eqn:Ha.
  2:{ rewrite (bind_result_Raise _ _ _ Ha). cbn [events_of snd]. rewrite Hev. cbn. lia. }
  rewrite (bind_result_Ok _ _ _ _ Ha). cbn [events_of snd].
  rewrite submitted_length_app, Hev. cbn [length Nat.add].
  destruct atr as [atr|]; [|cbn; lia].
  rewrite bind_get_state. destruct (Py.Qleb px _); [|cbn; lia].
  unfold log_message, submit_order, pop_highest_close. rewrite !bind_emit. cbn. lia.
Qed.

Lemma for_each_submitted_bound {A} (xs : list A) (body : A → M unit) :
  (∀ x s, (length (submitted (events_of (body x s))) <= 1)%nat) →
  ∀ s, (length (submitted (events_of (for_each xs body s))) <= length xs)%nat.
Proof.
  intros Hb. induction xs as [|x r IH]; intros s; cbn [for_each]; [cbn; lia|].
  specialize (Hb x s).
  destruct (result_of (body x s)) as [[]|] eqn:Hx.
  - rewrite (bind_result_Ok _ _ _ _ Hx). cbn [events_of snd].
    rewrite submitted_length_app. specialize (IH (state_of (body x s))). cbn [length]. lia.
  - rewrite (bind_result_Raise _ _ _ Hx). cbn [events_of snd length]. lia.
Qed.

(** X11.  The trailing-stop loop only ever sells long positions: every order
    it submits is the sale, in full, of a position the host reports with a
    positive quantity and a known positive price; short and flat positions
    are never touched, there is at most one order per position, and besides
    the bar cache and the tracked highs the engine state is left alone. *)
Theorem apply_trailing_stops_only_sells_longs (h : Host) (s : EngineState) :
  let o := _apply_trailing_stops h s in
  (∀ ord, ord ∈ submitted (events_of o) →
     ∃ pos px, pos ∈ get_positions h ∧ 0 < pos_quantity pos
               ∧ get_last_price h (_src_symbol h (pos_symbol pos)) = Some px ∧ 0 < px
               ∧ ord = mkOrder (_src_symbol h (pos_symbol pos)) (pos_quantity pos) Sell)
  ∧ (length (submitted (events_of o)) <= length (get_positions h))%nat
  ∧ only_cache_and_highs s (state_of o).
Proof.
  intros o. destruct (apply_trailing_stops_exit h s) as [Hfr Hev]. fold o in Hfr, Hev.
  split; [|split; [|exact Hfr]].
  - intros ord Hin. apply elem_of_submitted in Hin.
    rewrite Forall_forall in Hev. exact (Hev _ Hin).
  - apply for_each_submitted_bound. intros x s'. apply trailing_stop_one_at_most_one.
Qed.

Lemma liquidate_one_exit h pos :
  pos ∈ get_positions h →
  keeps only_cache_and_highs (exit_event h) (liquidate_one h pos).
Proof.
  intros Hin. unfold liquidate_one, pop_highest_close.
  destruct (nonzero (pos_quantity pos)) eqn:Hq; [|repeat keeps_step].
  apply nonzero_true in Hq. repeat keeps_step.
  apply keeps_emit; [apply only_cache_and_highs_refl|]. by exists pos.
Qed.

Lemma liquidation_exit h s :
  only_cache_and_highs s (state_of (liquidation h s))
  ∧ Forall (exit_event h) (events_of (liquidation h s)).
Proof.
  apply (keeps_for_each_in only_cache_and_highs (exit_event h));
    [apply only_cache_and_highs_refl | apply only_cache_and_highs_trans |].
  apply liquidate_one_exit.
Qed.

Lemma highs_schedule s s' : only_cache_and_highs s s' → schedule_frame s s'.
Proof.
  unfold only_cache_and_highs, schedule_frame, config_frame. intros. destruct_and!.
  by repeat split.
Qed.

Lemma schedule_frame_trans a b c :
  schedule_frame a b → schedule_frame b c → schedule_frame a c.
Proof.
  unfold schedule_frame, config_frame. intros. destruct_and!. repeat split; congruence.
Qed.

(** The outcome of the breaker: it cannot fail, emits exits only, keeps the
    schedule, and either leaves the cooldown date alone (no breach) or sets it
    to [today + cooldown_days] (breach). *)
Lemma breaker_outcome h s :
  let b := _apply_drawdown_breaker h s in
  result_of b = Ok tt
  ∧ Forall (exit_event h) (events_of b)
  ∧ schedule_frame s (state_of b)
  ∧ ((¬ breach h s ∧ _cooldown_until (state_of b) = _cooldown_until s)
     ∨ (breach h s
        ∧ _cooldown_until (state_of b) = Some (get_date h + cooldown_days (profile s))%Z)).
Proof.
  intros b. split; [apply apply_drawdown_breaker_Ok|]. subst b.
  pose proof (breach_iff h s) as Hbreach.
  rewrite apply_drawdown_breaker_run. cbv zeta.
  destruct (_equity_peak s) as [peak|] eqn:Hpk.
  2:{ cbn. split; [constructor|]. split; [by repeat split|]. left. split; [|done].
      intros Hb. apply Hbreach in Hb as (? & ? & _). done. }
  destruct (Py.Qltb peak _) eqn:Hlt.
  { cbn. split; [constructor|]. split; [by repeat split|]. left. split; [|done].
    intros Hb. apply Hbreach in Hb as (? & [= <-] & ? & _). congruence. }
  destruct (Py.Qleb _ _) eqn:Hdd.
  - destruct (liquidation_exit h s) as [Hfr Hev]. cbn [events_of state_of fst snd].
    split; [by constructor|]. split.
    + apply highs_schedule in Hfr. destruct Hfr as [(? & ? & ?) ?]. by repeat split.
    + right. split; [apply Hbreach; eauto|]. done.
  - cbn. split; [constructor|]. split; [by repeat split|]. left. split; [|done].
    intros Hb. apply Hbreach in Hb as (? & [= <-] & ? & ?). congruence.
Qed.

(** The gate of [on_trading_iteration] when it is closed. *)
Lemma gate_closed h s :
  _in_cooldown h s = true ∨ _should_rebalance_today h s = false →
  gate_and_rebalance h s
  = (Ok tt, s, if _in_cooldown h s then [Log (LogCooldown (_cooldown_until s))] else []).
Proof.
  intros Hc. unfold gate_and_rebalance. rewrite bind_get_state.
  destruct (_in_cooldown h s); [reflexivity|].
  destruct Hc as [? | ->]; [done|]. reflexivity.
Qed.

(** A step whose gate is closed emits exits only and keeps the rebalance
    date; when the trailing stops complete it ends in the state the breaker
    left. *)
Lemma step_gate_closed h s :
  let t := _apply_trailing_stops h s in
  let b := _apply_drawdown_breaker h (state_of t) in
  let o := on_trading_iteration h s in
  (result_of t = Ok tt →
   _in_cooldown h (state_of b) = true ∨ _should_rebalance_today h (state_of b) = false) →
  Forall (exit_event h) (events_of o)
  ∧ schedule_frame s (state_of o)
  ∧ (result_of t = Ok tt →
     result_of o = Ok tt ∧ state_of o = state_of b
     ∧ events_of o = events_of t ++ events_of b
                     ++ (if _in_cooldown h (state_of b)
                         then [Log (LogCooldown (_cooldown_until (state_of b)))] else [])).
Proof.
  intros t b o Hgate. subst o.
  destruct (apply_trailing_stops_exit h s) as [Hfr Hev]. fold t in Hfr, Hev.
  apply highs_schedule in Hfr.
  assert (Forall (exit_event h) (events_of t)) as Hev'.
  { eapply Forall_impl; [exact Hev|]. apply trailing_exit_exit. }
  destruct (result_of t) as [[]|] eqn:Ht.
  - specialize (Hgate eq_refl).
    rewrite (on_trading_iteration_run h s Ht). cbv zeta. fold t b.
    rewrite (gate_closed h (state_of b) Hgate). cbn [result_of state_of events_of fst snd].
    destruct (breaker_outcome h (state_of t)) as (_ & Hbev & Hbfr & _). fold b in Hbev, Hbfr.
    split; [|split; [by eapply schedule_frame_trans|done]].
    apply Forall_app. split; [done|]. apply Forall_app. split; [done|].
    destruct (_in_cooldown h (state_of b)); by repeat constructor.
  - rewrite on_trading_iteration_unfold, (bind_result_Raise _ _ _ Ht). fold t.
    cbn [result_of state_of events_of fst snd]. done.
Qed.

(** X12.  A cooldown blocks the rebalance up to and including its end date:
    in a step dated on or before [_cooldown_until] (with a non-negative
    [cooldown_days]) nothing is ranked or selected and no position is
    entered; every order of the step closes a position the host holds, in
    full; the rebalance date stays;
    and a step that completes ends with the cooldown diagnostic, still in
    cooldown. *)
Theorem cooldown_blocks_rebalance (h : Host) (s : EngineState) (d : Z) :
  _cooldown_until s = Some d →
  (get_date h <= d)%Z →
  (0 <= cooldown_days (profile s))%Z →
  let o := on_trading_iteration h s in
  Forall (exit_event h) (events_of o)
  ∧ _last_rebalance_day (state_of o) = _last_rebalance_day s
  ∧ (result_of (_apply_trailing_stops h s) = Ok tt →
     result_of o = Ok tt
     ∧ _in_cooldown h (state_of o) = true
     ∧ last (events_of o) = Some (Log (LogCooldown (_cooldown_until (state_of o))))).
Proof.
  intros Hd Hle Hcd o. subst o.
  set (t := _apply_trailing_stops h s).
  set (b := _apply_drawdown_breaker h (state_of t)).
  assert (_in_cooldown h (state_of b) = true) as Hcool.
  { destruct (apply_trailing_stops_exit h s) as [(Hp & _ & _ & _ & Hc & _) _].
    fold t in Hp, Hc.
    destruct (breaker_outcome h (state_of t)) as (_ & _ & _ & [[_ Hb]|[_ Hb]]);
      fold b in Hb; unfold _in_cooldown; rewrite Hb.
    - rewrite Hc, Hd. lia.
    - rewrite Hp. lia. }
  destruct (step_gate_closed h s) as (Hev & [_ Hday] & Hok); [by left|].
  split; [exact Hev|]. split; [exact Hday|].
  intros Ht. destruct (Hok Ht) as (Hres & Hst & Hevs). fold t b in Hst, Hevs.
  split; [exact Hres|]. rewrite Hst. split; [exact Hcool|].
  rewrite Hevs, Hcool, !app_assoc. apply last_snoc.
Qed.

Lemma cooldown_blocks_rebalance_witness :
  let s := set_cooldown_until (Some 100%Z) StopScenario.state in
  submitted (events_of (on_trading_iteration (StopScenario.host 120) s)) = []
  ∧ _last_rebalance_day (state_of (on_trading_iteration (StopScenario.host 120) s)) = None.
Proof.
  cbv zeta.
  destruct (cooldown_blocks_rebalance (StopScenario.host 120)
              (set_cooldown_until (Some 100%Z) StopScenario.state) 100)
    as (_ & Hday & _).
  - reflexivity.
  - vm_compute. discriminate.
  - vm_compute. discriminate.
  - split; [vm_compute; reflexivity|exact Hday].
Defined.

(** X13.  The step in which the breaker fires does not rebalance: with a
    non-negative [cooldown_days] it ends right after the liquidation with the
    cooldown diagnostic for [today + cooldown_days]; all its orders close
    positions the host holds, no position is entered, and the rebalance date
    stays. *)
Theorem breaker_step_does_not_rebalance (h : Host) (s : EngineState) :
  result_of (_apply_trailing_stops h s) = Ok tt →
  breach h s →
  (0 <= cooldown_days (profile s))%Z →
  let o := on_trading_iteration h s in
  result_of o = Ok tt
  ∧ Forall (exit_event h) (events_of o)
  ∧ last (events_of o)
    = Some (Log (LogCooldown (Some (get_date h + cooldown_days (profile s))%Z)))
  ∧ _last_rebalance_day (state_of o) = _last_rebalance_day s.
Proof.
  intros Ht Hbreach Hcd o. subst o.
  set (t := _apply_trailing_stops h s) in *.
  set (b := _apply_drawdown_breaker h (state_of t)).
  destruct (apply_trailing_stops_exit h s) as [(Hp & _ & _ & Hpk & _) _].
  fold t in Hp, Hpk.
  assert (_cooldown_until (state_of b)
          = Some (get_date h + cooldown_days (profile s))%Z) as Huntil.
  { destruct (breaker_outcome h (state_of t)) as (_ & _ & _ & [[Hno _]|[_ Hb]]).
    - exfalso. apply Hno. by apply (breach_frame h s (state_of t)).
    - fold b in Hb. by rewrite Hb, Hp. }
  assert (_in_cooldown h (state_of b) = true) as Hcool.
  { unfold _in_cooldown. rewrite Huntil. lia. }
  destruct (step_gate_closed h s) as (Hev & [_ Hday] & Hok); [by left|].
  destruct (Hok Ht) as (Hres & Hst & Hevs). fold t b in Hst, Hevs.
  split; [exact Hres|]. split; [exact Hev|]. split; [|exact Hday].
  rewrite Hevs, Hcool, Huntil, !app_assoc. apply last_snoc.
Qed.

Lemma breaker_step_does_not_rebalance_witness :
  let s1 := state_of (on_trading_iteration BreakerScenario.day1 BreakerScenario.start) in
  last (events_of (on_trading_iteration BreakerScenario.day2 s1))
  = Some (Log (LogCooldown (Some 112%Z))).
Proof.
  cbv zeta.
  pose (s1 := state_of (on_trading_iteration BreakerScenario.day1 BreakerScenario.start)).
  assert (breach BreakerScenario.day2 s1) as Hbreach.
  { exists 100000. split; [reflexivity|]. split; vm_compute; discriminate. }
  destruct (breaker_step_does_not_rebalance BreakerScenario.day2 s1)
    as (_ & _ & Hlast & _).
  - vm_compute. reflexivity.
  - exact Hbreach.
  - vm_compute. discriminate.
  - etransitivity; [exact Hlast|]. vm_compute. reflexivity.
Defined.

(** X14.  Between rebalances the engine only exits: in a step dated fewer
    than [rebalance_every_days] days after the last rebalance nothing is
    ranked or selected and no position is entered; every order closes a
    position the host holds, in full, and the rebalance date stays, so the
    next rebalance is due [rebalance_every_days] days after the last one and
    not later. *)
Theorem no_rebalance_before_due (h : Host) (s : EngineState) (d : Z) :
  _last_rebalance_day s = Some d →
  (get_date h - d < rebalance_every_days (profile s))%Z →
  let o := on_trading_iteration h s in
  Forall (exit_event h) (events_of o)
  ∧ _last_rebalance_day (state_of o) = Some d
  ∧ (result_of (_apply_trailing_stops h s) = Ok tt → result_of o = Ok tt)
  ∧ ∀ h', _should_rebalance_today h' (state_of o)
          = (rebalance_every_days (profile s) <=? get_date h' - d)%Z.
Proof.
  intros Hd Hlt o. subst o.
  set (t := _apply_trailing_stops h s).
  set (b := _apply_drawdown_breaker h (state_of t)).
  assert (_should_rebalance_today h (state_of b) = false) as Hdue.
  { destruct (apply_trailing_stops_exit h s) as [Hfr _]. fold t in Hfr.
    apply highs_schedule in Hfr.
    destruct (breaker_outcome h (state_of t)) as (_ & _ & Hbfr & _). fold b in Hbfr.
    destruct (schedule_frame_trans _ _ _ Hfr Hbfr) as [(Hp & _) Hl].
    unfold _should_rebalance_today. rewrite Hl, Hd, Hp. lia. }
  destruct (step_gate_closed h s) as (Hev & [(Hp & _) Hday] & Hok); [by right|].
  split; [exact Hev|]. split; [by rewrite Hday|]. split.
  - intros Ht. by destruct (Hok Ht).
  - intros h'. unfold _should_rebalance_today. by rewrite Hday, Hd, Hp.
Qed.

Lemma no_rebalance_before_due_witness :
  let s := set_last_rebalance_day (Some 95%Z) StopScenario.state in
  _last_rebalance_day (state_of (on_trading_iteration (StopScenario.host 120) s))
  = Some 95%Z.
Proof.
  cbv zeta.
  apply (no_rebalance_before_due (StopScenario.host 120)
           (set_last_rebalance_day (Some 95%Z) StopScenario.state) 95).
  - reflexivity.
  - vm_compute. reflexivity.
Defined.

(** [_should_rebalance_today] and [_in_cooldown] read the schedule only. *)
Lemma should_rebalance_frame h s s' :
  profile s' = profile s → _last_rebalance_day s' = _last_rebalance_day s →
  _should_rebalance_today h s' = _should_rebalance_today h s.
Proof. intros Hp Hl. unfold _should_rebalance_today. by rewrite Hp, Hl. Qed.

(** X15.  A rebalance that completes consumes the day, whatever it bought:
    when a due step outside cooldown, without a breach, returns, it has
    written the selection diagnostic and stamped [_last_rebalance_day] with
    today (also when nothing was selected or sized), and the next step is due
    exactly when at least [rebalance_every_days] days have passed. *)
Theorem due_rebalance_stamps_the_day (h : Host) (s : EngineState) :
  _in_cooldown h s = false →
  ¬ breach h s →
  _should_rebalance_today h s = true →
  let o := on_trading_iteration h s in
  result_of o = Ok tt →
  _last_rebalance_day (state_of o) = Some (get_date h)
  ∧ (∃ selected exposure, Log (LogSelect selected exposure) ∈ events_of o)
  ∧ ∀ h', _should_rebalance_today h' (state_of o)
          = (rebalance_every_days (profile s) <=? get_date h' - get_date h)%Z.
Proof.
  intros Hcool Hno Hdue o Hres. subst o.
  assert (result_of (_apply_trailing_stops h s) = Ok tt) as Ht.
  { rewrite on_trading_iteration_unfold in Hres.
    apply bind_Ok_inv in Hres as ([] & Ht & _). exact Ht. }
  rewrite (on_trading_iteration_run h s Ht) in Hres |- *. cbv zeta in Hres |- *.
  set (t := _apply_trailing_stops h s) in *.
  set (b := _apply_drawdown_breaker h (state_of t)) in *.
  cbn [result_of state_of events_of fst snd] in Hres |- *.
  destruct (apply_trailing_stops_exit h s) as [(Hp & _ & Hl & Hpk & Hc & _) _].
  fold t in Hp, Hl, Hpk, Hc.
  destruct (breaker_outcome h (state_of t)) as (_ & _ & [(Hbp & _) Hbl] & Hb).
  fold b in Hbp, Hbl, Hb.
  destruct Hb as [[_ Hbc]|[Hyes _]].
  2:{ exfalso. apply Hno. by apply (breach_frame h s (state_of t)). }
  assert (_in_cooldown h (state_of b) = false) as Hcool'.
  { unfold _in_cooldown in *. by rewrite Hbc, Hc. }
  assert (_should_rebalance_today h (state_of b) = true) as Hdue'.
  { rewrite <- Hdue. apply should_rebalance_frame; congruence. }
  assert (∃ selected exposure s3 ev,
            gate_and_rebalance h (state_of b)
            = (Ok tt, set_last_rebalance_day (Some (get_date h)) s3, ev)
            ∧ profile s3 = profile (state_of b)
            ∧ Log (LogSelect selected exposure) ∈ ev) as (sel & e & s3 & ev & Hg & Hp3 & Hin).
  { destruct (gate_and_rebalance_keeps h (state_of b)) as [(Hgp & _) _].
    revert Hres Hgp. unfold gate_and_rebalance.
    rewrite bind_get_state, Hcool', Hdue'. cbn [negb]. intros Hres Hgp.
    apply bind_Ok_inv in Hres as (e & He & Hres).
    rewrite (bind_result_Ok _ _ _ _ He) in Hgp |- *.
    set (s1 := state_of (_risk_on_fraction h (state_of b))) in *.
    cbn [result_of state_of fst] in Hres, Hgp.
    apply bind_Ok_inv in Hres as (ranked & Hr & Hres).
    rewrite (bind_result_Ok _ _ _ _ Hr) in Hgp |- *.
    set (s2 := state_of (_rank_candidates h s1)) in *.
    cbn [result_of state_of fst] in Hres, Hgp.
    rewrite bind_get_state in Hres, Hgp |- *.
    unfold log_message in Hres, Hgp |- *. rewrite bind_emit in Hres, Hgp |- *.
    cbn [result_of state_of fst] in Hres, Hgp.
    apply bind_Ok_inv in Hres as ([] & Hreb & _).
    rewrite (bind_result_Ok _ _ _ _ Hreb) in Hgp |- *.
    cbn [result_of state_of events_of fst snd modify] in Hgp |- *.
    eexists _, _, _, _. split; [reflexivity|]. split; [exact Hgp|].
    apply elem_of_app. right. apply elem_of_app. right. apply list_elem_of_here. }
  rewrite Hg. cbn [state_of events_of fst snd]. split; [done|]. split.
  - exists sel, e. apply elem_of_app. right. apply elem_of_app. by right.
  - intros h'. unfold _should_rebalance_today. cbn. by rewrite Hp3, Hbp, Hp.
Qed.

Lemma due_rebalance_stamps_the_day_witness :
  _last_rebalance_day
    (state_of (on_trading_iteration SizingScenario.host SizingScenario.state))
  = Some 100%Z.
Proof.
  apply (due_rebalance_stamps_the_day SizingScenario.host SizingScenario.state).
  - reflexivity.
  - intros (peak & Hpk & _). discriminate Hpk.
  - reflexivity.
  - vm_compute. reflexivity.
Defined.

(** X16.  The equity peak is a high-water mark: after any step whose trailing
    stops complete, a peak is recorded, it is at least the portfolio value
    of the step and at least the peak recorded before, and it is one of the
    two; nothing else in the step (liquidation, cooldown, rebalance) moves
    it. *)
Theorem equity_peak_is_high_water_mark (h : Host) (s : EngineState) :
  result_of (_apply_trailing_stops h s) = Ok tt →
  let o := on_trading_iteration h s in
  ∃ p, _equity_peak (state_of o) = Some p
       ∧ get_portfolio_value h <= p
       ∧ (∀ old, _equity_peak s = Some old → old <= p)
       ∧ (p = get_portfolio_value h ∨ _equity_peak s = Some p).
Proof.
  intros Ht o. subst o. rewrite (on_trading_iteration_run h s Ht). cbv zeta.
  set (t := _apply_trailing_stops h s) in *.
  set (b := _apply_drawdown_breaker h (state_of t)).
  cbn [state_of fst snd].
  destruct (gate_and_rebalance_keeps h (state_of b)) as [(_ & -> & _) _].
  destruct (apply_trailing_stops_exit h s) as [(_ & _ & _ & Hpk & _) _]. fold t in Hpk.
  subst b. rewrite apply_drawdown_breaker_run. cbv zeta. rewrite Hpk.
  destruct (_equity_peak s) as [peak|].
  2:{ cbn. exists (get_portfolio_value h). split; [done|]. split; [lra|].
      split; [done|by left]. }
  destruct (Py.Qltb peak _) eqn:Hlt.
  - apply Qltb_true in Hlt. cbn. exists (get_portfolio_value h).
    split; [done|]. split; [lra|]. split; [|by left]. intros old [= <-]. lra.
  - apply Qltb_false in Hlt.
    assert (_equity_peak (state_of (liquidation h (state_of t))) = Some peak) as Hliq.
    { destruct (liquidation_exit h (state_of t)) as [(_ & _ & _ & -> & _) _].
      by rewrite Hpk. }
    exists peak. destruct (Py.Qleb _ _); cbn [state_of fst snd];
      (split; [by rewrite ?Hliq, ?Hpk|]); (split; [done|]);
      (split; [|by right]); intros old [= <-]; lra.
Qed.

Lemma equity_peak_is_high_water_mark_witness :
  ∃ p, _equity_peak (state_of (on_trading_iteration BreakerScenario.day1
                                 BreakerScenario.start)) = Some p
       ∧ get_portfolio_value BreakerScenario.day1 <= p.
Proof.
  destruct (equity_peak_is_high_water_mark BreakerScenario.day1 BreakerScenario.start)
    as (p & Hp & Hle & _).
  - vm_compute. reflexivity.
  - exists p. by split.
Defined.

Lemma config_frame_refl s : config_frame s s.
Proof. by repeat split. Qed.

Lemma config_frame_trans a b c : config_frame a b → config_frame b c → config_frame a c.
Proof. unfold config_frame. intros. destruct_and!. repeat split; congruence. Qed.

Lemma highs_config s s' : only_cache_and_highs s s' → config_frame s s'.
Proof. intros H. by destruct (highs_schedule _ _ H). Qed.

Lemma on_trading_iteration_config h s :
  config_frame s (state_of (on_trading_iteration h s)).
Proof.
  destruct (apply_trailing_stops_exit h s) as [Hfr _]. apply highs_config in Hfr.
  destruct (result_of (_apply_trailing_stops h s)) as [[]|] eqn:Ht.
  - rewrite (on_trading_iteration_run h s Ht). cbv zeta. cbn [state_of fst snd].
    set (t := _apply_trailing_stops h s) in *.
    set (b := _apply_drawdown_breaker h (state_of t)).
    destruct (breaker_outcome h (state_of t)) as (_ & _ & [Hb _] & _). fold b in Hb.
    eapply config_frame_trans; [exact Hfr|]. eapply config_frame_trans; [exact Hb|].
    unfold gate_and_rebalance. rewrite bind_get_state.
    destruct (_in_cooldown h (state_of b)); [apply config_frame_refl|].
    destruct (negb _); [apply config_frame_refl|].
    set (P := config_frame). set (E := λ _ : Event, True).
    assert (∀ A (m : M A), keeps only_cache quiet m → keeps P E m) as Hc.
    { intros A m. apply keeps_weaken; [|done]. intros ? ? ?. by apply highs_config, only_cache_highs. }
    assert (∀ A (m : M A), keeps only_cache_and_highs not_breaker m → keeps P E m) as Hh.
    { intros A m. apply keeps_weaken; [|done]. apply highs_config. }
    match goal with |- P ?s0 (state_of (?m ?s0)) => enough (keeps P E m) as Hk by apply Hk end.
    apply keeps_bind; [apply config_frame_trans | |intros e].
    { apply Hc, risk_on_fraction_keeps. }
    apply keeps_bind; [apply config_frame_trans | |intros ranked].
    { apply Hc, rank_candidates_keeps. }
    apply keeps_bind; [apply config_frame_trans | |intros s2].
    { apply keeps_get_state, config_frame_refl. }
    apply keeps_bind; [apply config_frame_trans | |intros _].
    { by apply keeps_emit; [apply config_frame_refl|]. }
    apply keeps_bind; [apply config_frame_trans | |intros _].
    { apply Hh, rebalance_keeps. }
    apply keeps_modify. intros s3. by repeat split.
  - rewrite on_trading_iteration_unfold, (bind_result_Raise _ _ _ Ht). exact Hfr.
Qed.

(** X17.  The configuration is fixed by [initialize]: over a whole run of
    trading steps, failing or not, the profile, the universe and the sector
    map of every state the engine passes through are those of the initial
    state. *)
Theorem run_keeps_configuration (hs : list Host) (s : EngineState) (i : nat)
    (o : Exc unit * EngineState * list Event) :
  run hs s !! i = Some o →
  profile (state_of o) = profile s
  ∧ universe (state_of o) = universe s
  ∧ _sector_by_symbol (state_of o) = _sector_by_symbol s.
Proof.
  revert s i. induction hs as [|h hs IH]; intros s i Hi; [done|].
  cbn [run] in Hi. pose proof (on_trading_iteration_config h s) as Hstep.
  destruct (result_of (on_trading_iteration h s)) as [[]|].
  - destruct i as [|i]; [injection Hi as <-; exact Hstep|].
    cbn in Hi. apply IH in Hi. eapply (config_frame_trans s); [exact Hstep|exact Hi].
  - destruct i as [|i]; [injection Hi as <-; exact Hstep|]. done.
Qed.

Lemma run_keeps_configuration_witness :
  ∃ o, run BreakerScenario.days BreakerScenario.start !! 2%nat = Some o
       ∧ profile (state_of o) = balanced.
Proof.
  assert (∃ o, run BreakerScenario.days BreakerScenario.start !! 2%nat = Some o)
    as [o Ho] by (vm_compute; eexists; reflexivity).
  exists o. split; [exact Ho|].
  exact (proj1 (run_keeps_configuration BreakerScenario.days BreakerScenario.start 2 o Ho)).
Defined.

(** ** Orders of the rebalance *)

Lemma realized_vol_keeps_data h symbol :
  keeps only_cache data_failure (_realized_vol h symbol).
Proof. unfold _realized_vol. repeat keeps_step. Qed.

Lemma submit_delta_keeps_delta h sym target :
  keeps only_cache_and_highs (delta_event h sym target) (submit_delta h (sym, target)).
Proof.
  unfold submit_delta.
  set (cur := match get_position h (_src_symbol h sym) with
              | Some pos => Py.int (pos_quantity pos)
              | None => 0%Z
              end).
  destruct (target - cur =? 0)%Z eqn:Hz; [repeat keeps_step|]. apply Z.eqb_neq in Hz.
  destruct (get_last_price h (_src_symbol h sym)) as [px|] eqn:Hpx; [|repeat keeps_step].
  destruct (Py.Qleb px 0) eqn:Hpos; [repeat keeps_step|]. apply Qleb_false in Hpos.
  destruct (Py.Qltb _ MIN_ORDER_DOLLARS) eqn:Hmin; [repeat keeps_step|].
  apply Qltb_false in Hmin.
  destruct (0 <? target - cur)%Z eqn:Hsign.
  - apply Z.ltb_lt in Hsign. rewrite Z.abs_eq in Hmin by lia.
    apply keeps_bind; [apply only_cache_and_highs_trans| |intros _].
    + apply keeps_emit; [apply only_cache_and_highs_refl|].
      exists cur, (target - cur)%Z, px. repeat split; try done. left. split; [done|lia].
    + cbn [default from_option id]. repeat keeps_step.
  - apply Z.ltb_ge in Hsign.
    apply keeps_bind; [apply only_cache_and_highs_trans| |intros _].
    + apply keeps_emit; [apply only_cache_and_highs_refl|].
      exists cur, (Z.abs (target - cur)), px. repeat split; try done; [lia|].
      right. split; [done|lia].
    + unfold pop_highest_close. repeat keeps_step.
Qed.

Lemma submit_delta_at_most_one h st s :
  (length (submitted (events_of (submit_delta h st s))) <= 1)%nat.
Proof.
  destruct st as [sym target]. unfold submit_delta.
  destruct (_ =? 0)%Z; [cbn; lia|].
  destruct (get_last_price h _) as [px|]; [|cbn; lia]. cbn [default from_option id].
  destruct (Py.Qleb px 0); [cbn; lia|]. destruct (Py.Qltb _ MIN_ORDER_DOLLARS); [cbn; lia|].
  unfold submit_order, pop_highest_close.
  destruct (0 <? _)%Z; rewrite bind_emit; cbn [events_of snd].
  - destruct (Py.Qltb 0 px); cbn; lia.
  - destruct (_ <=? 0)%Z; cbn; lia.
Qed.

(** X18.  A delta order moves the holding exactly to its target and is never
    small: whatever [submit_delta] submits for a target is a single order, a
    buy of [target - cur] or a sale of [cur - target] whole shares where
    [cur] is the truncated current holding, at a known positive last price,
    and worth at least [MIN_ORDER_DOLLARS] at that price; it cannot fail and
    touches only the tracked highs. *)
Theorem submit_delta_moves_to_target (h : Host) (s : EngineState)
    (sym : string) (target : Z) :
  let o := submit_delta h (sym, target) s in
  result_of o = Ok tt
  ∧ (length (submitted (events_of o)) <= 1)%nat
  ∧ (∀ ord, ord ∈ submitted (events_of o) → delta_order h sym target ord)
  ∧ only_cache_and_highs s (state_of o).
Proof.
  intros o. subst o. split; [|split; [|split]].
  - destruct (submit_delta_total h (sym, target) s) as [[] Hr]. exact Hr.
  - apply submit_delta_at_most_one.
  - intros ord Hin. apply elem_of_submitted in Hin.
    destruct (submit_delta_keeps_delta h sym target s) as [_ Hev].
    rewrite Forall_forall in Hev. exact (Hev _ Hin).
  - by destruct (submit_delta_keeps_delta h sym target s).
Qed.

Lemma keeps_bind_result (P : EngineState → EngineState → Prop) (E : Event → Prop)
    {A B} (m : M A) (k : A → M B) :
  (∀ a b c, P a b → P b c → P a c) →
  keeps P E m →
  (∀ a, (∃ s, result_of (m s) = Ok a) → keeps P E (k a)) →
  keeps P E (bind m k).
Proof.
  intros Htrans Hm Hk s. specialize (Hm s). unfold bind.
  destruct (m s) as [[[a|] s1] e1] eqn:Hms; cbn in *; [|done].
  assert (∃ s, result_of (m s) = Ok a) as Ha by (exists s; by rewrite Hms).
  specialize (Hk a Ha s1). destruct (k a s1) as [[r s2] e2]; cbn in *.
  destruct Hm, Hk. split; [by eapply Htrans | by apply Forall_app].
Qed.

Lemma collect_vols_selected h selected s vols :
  result_of (for_fold selected [] (collect_vol h) s) = Ok vols →
  ∀ k, k ∈ map fst vols → k ∈ selected.
Proof.
  intros Hr.
  refine (for_fold_invariant (λ _, True)
            (λ pre (vols : list (string * Q)), ∀ k, k ∈ map fst vols → k ∈ pre)
            (collect_vol h) _ _ selected [] [] s vols I _ Hr).
  - intros pre x acc s' r _ HI Hres k Hk. apply elem_of_app.
    destruct (collect_vol_cases _ _ _ _ _ Hres) as [->|(v & _ & ->)]; [left; by apply HI|].
    rewrite dict_set_keys in Hk. case_decide; [left; by apply HI|].
    apply elem_of_app in Hk as [Hk|Hk]; [left; by apply HI|by right].
  - done.
  - intros k Hk. by apply elem_of_nil in Hk.
Qed.

Lemma sized_symbols_weighted h pv e weights s desired_qty invested :
  result_of (for_fold weights ([], 0) (size_one h pv e) s) = Ok (desired_qty, invested) →
  ∀ k n, (k, n) ∈ desired_qty → k ∈ map fst weights ∧ (0 < n)%Z.
Proof.
  intros Hr.
  refine (for_fold_invariant (λ _, True)
            (λ pre (acc : list (string * Z) * Q),
               ∀ k n, (k, n) ∈ acc.1 → k ∈ map fst pre ∧ (0 < n)%Z)
            (size_one h pv e) _ _ weights [] ([], 0) s (desired_qty, invested) I _ Hr).
  - intros pre [sym w] [dq inv] s' r _ HI Hres k n Hk. cbn [fst snd] in *.
    rewrite map_app, elem_of_app.
    destruct (size_one_cases _ _ _ _ _ _ _ _ _ Hres) as [->|(px & atr & _ & _ & _ & Hn & ->)];
      cbn [fst] in Hk.
    + destruct (HI _ _ Hk). by split; [left|].
    + apply dict_set_elem in Hk as [[= -> ->]|Hk].
      * split; [right; apply list_elem_of_here|done].
      * destruct (HI _ _ Hk). by split; [left|].
  - done.
  - intros k n Hk. by apply elem_of_nil in Hk.
Qed.

Lemma sell_unselected_one_rebalance h selected pos :
  pos ∈ get_positions h →
  keeps only_cache_and_highs (rebalance_event h selected)
    (sell_unselected_one h selected pos).
Proof.
  intros Hin. unfold sell_unselected_one, pop_highest_close.
  destruct (nonzero (pos_quantity pos)) eqn:Hq; cbn [andb]; [|repeat keeps_step].
  apply nonzero_true in Hq. case_bool_decide as Hsel; cbn [negb]; [repeat keeps_step|].
  repeat keeps_step.
  apply keeps_emit; [apply only_cache_and_highs_refl|]. left. by exists pos.
Qed.

Lemma data_failure_rebalance h selected e : data_failure e → rebalance_event h selected e.
Proof. by destruct e as [|[]]. Qed.

Lemma keeps_data_to_rebalance h selected {A} (m : M A) :
  keeps only_cache data_failure m →
  keeps only_cache_and_highs (rebalance_event h selected) m.
Proof. apply keeps_weaken; [apply only_cache_highs | apply data_failure_rebalance]. Qed.

Lemma rebalance_keeps_orders h selected exposure :
  keeps only_cache_and_highs (rebalance_event h selected) (_rebalance h selected exposure).
Proof.
  unfold _rebalance. destruct selected as [|x sel] eqn:Hs; [repeat keeps_step|].
  rewrite <- Hs. clear Hs.
  pose proof only_cache_and_highs_refl as Hrefl.
  pose proof only_cache_and_highs_trans as Htrans.
  apply keeps_bind; [done| |intros _].
  { apply keeps_for_each_in; [done|done|]. apply sell_unselected_one_rebalance. }
  apply keeps_bind_result; [done| |intros vols [s1 Hvols]].
  { apply keeps_for_fold; [done|done|]. intros vols sym. unfold collect_vol.
    apply keeps_bind; [done| |intros v].
    - apply keeps_data_to_rebalance, realized_vol_keeps_data.
    - repeat keeps_step. }
  pose proof (collect_vols_selected _ _ _ _ Hvols) as Hkeys.
  destruct vols as [|v0 vols'] eqn:Hv; [repeat keeps_step|]. rewrite <- Hv in *. clear Hv.
  apply keeps_bind_result; [done| |intros [desired_qty invested] [s2 Hsize]].
  { apply keeps_for_fold; [done|done|]. intros [dq inv] [sym w]. unfold size_one.
    destruct (get_last_price h _) as [px|]; [|repeat keeps_step].
    destruct (Py.Qleb px 0); [repeat keeps_step|].
    apply keeps_bind; [done| |intros atr].
    - apply keeps_data_to_rebalance, atr_keeps_data.
    - repeat keeps_step. }
  pose proof (sized_symbols_weighted _ _ _ _ _ _ _ Hsize) as Hsized.
  destruct desired_qty as [|d0 dq'] eqn:Hd; [repeat keeps_step|]. rewrite <- Hd in *. clear Hd.
  apply keeps_bind; [done| |intros _].
  - apply keeps_for_each_in; [done|done|]. intros [sym target] Hin.
    destruct (Hsized _ _ Hin) as [Hw Hn]. rewrite inverse_vol_weights_keys in Hw.
    eapply keeps_weaken; [| |apply submit_delta_keeps_delta]; [done|].
    intros [o|m]; [|done]. intros Ho. right. exists sym, target. split; [by apply Hkeys|done].
  - repeat keeps_step.
Qed.

(** X19.  Every order of a rebalance is accounted for: it is either the
    closing order, in full, of a held position whose symbol is not selected,
    or a delta order for a selected symbol with a positive target, worth at
    least [MIN_ORDER_DOLLARS]; a held position whose symbol is selected is
    never closed outright, and nothing outside the cache and the tracked
    highs changes. *)
Theorem rebalance_orders_accounted_for (h : Host) (s : EngineState)
    (selected : list string) (exposure : Q) (ord : Order) :
  ord ∈ submitted (events_of (_rebalance h selected exposure s)) →
  (∃ pos, pos ∈ get_positions h ∧ ¬ pos_quantity pos == 0
          ∧ (pos_symbol pos ∉ selected)
          ∧ ord = mkOrder (_src_symbol h (pos_symbol pos)) (Qabs (pos_quantity pos))
                          (closing_side (pos_quantity pos)))
  ∨ (∃ sym target, sym ∈ selected ∧ (0 < target)%Z ∧ delta_order h sym target ord).
Proof.
  intros Hin. apply elem_of_submitted in Hin.
  destruct (rebalance_keeps_orders h selected exposure s) as [_ Hev].
  rewrite Forall_forall in Hev. exact (Hev _ Hin).
Qed.

Lemma rebalance_orders_accounted_for_witness :
  ∃ sym target, sym ∈ SizingScenario.selected ∧ (0 < target)%Z
                ∧ delta_order SizingScenario.host sym target (mkOrder "AAA" 74 Buy).
Proof.
  destruct (rebalance_orders_accounted_for SizingScenario.host SizingScenario.state
              SizingScenario.selected 1 (mkOrder "AAA" 74 Buy)) as [Hclose|Hdelta].
  - vm_compute. apply list_elem_of_here.
  - destruct Hclose as (pos & Hpos & _). vm_compute in Hpos. by apply elem_of_nil in Hpos.
  - exact Hdelta.
Defined.

(** ** Failure of a step *)

#[export] Hint Resolve atr_keeps_data realized_vol_keeps_data : keeps.

Lemma collect_vol_total h vols sym : never_raises (collect_vol h vols sym).
Proof. unfold collect_vol. repeat total_step. Qed.

Lemma collect_vol_keeps_data h vols sym :
  keeps only_cache data_failure (collect_vol h vols sym).
Proof. unfold collect_vol. repeat keeps_step. Qed.

Lemma size_one_keeps_data h pv e acc sw :
  keeps only_cache data_failure (size_one h pv e acc sw).
Proof. unfold size_one. repeat keeps_step. Qed.

(** *** Where a loop fails *)

Lemma for_each_cons_Ok {A} (x : A) (xs : list A) (body : A → M unit) s :
  result_of (body x s) = Ok tt →
  result_of (for_each (x :: xs) body s) = result_of (for_each xs body (state_of (body x s)))
  ∧ state_of (for_each (x :: xs) body s) = state_of (for_each xs body (state_of (body x s))).
Proof. intros Hb. cbn [for_each]. by rewrite (bind_result_Ok _ _ _ _ Hb). Qed.

Lemma for_fold_cons_Ok {A S} (x : A) (xs : list A) (acc acc' : S) (body : S → A → M S) s :
  result_of (body acc x s) = Ok acc' →
  result_of (for_fold (x :: xs) acc body s)
  = result_of (for_fold xs acc' body (state_of (body acc x s)))
  ∧ state_of (for_fold (x :: xs) acc body s)
    = state_of (for_fold xs acc' body (state_of (body acc x s))).
Proof. intros Hb. cbn [for_fold]. by rewrite (bind_result_Ok _ _ _ _ Hb). Qed.

(** A loop fails exactly when its body fails at some item after the items
    before it were processed, in the state they left. *)
Lemma for_each_Raise_trace {A} (xs : list A) (body : A → M unit) s :
  result_of (for_each xs body s) = Raise
  ↔ ∃ pre x post,
      xs = pre ++ x :: post
      ∧ result_of (for_each pre body s) = Ok tt
      ∧ result_of (body x (state_of (for_each pre body s))) = Raise.
Proof.
  revert s. induction xs as [|x xs IH]; intros s.
  { split; [done|]. intros (pre & ? & ? & H & _). by destruct pre. }
  destruct (result_of (body x s)) as [[]|] eqn:Hb.
  - destruct (for_each_cons_Ok x xs body s Hb) as [-> _]. rewrite IH. split.
    + intros (pre & y & post & -> & Hpre & Hy). exists (x :: pre), y, post.
      destruct (for_each_cons_Ok x pre body s Hb) as [-> ->]. done.
    + intros (pre & y & post & Hsplit & Hpre & Hy).
      destruct pre as [|x' pre]; cbn [app] in Hsplit; simplify_eq.
      { cbn in Hy. congruence. }
      destruct (for_each_cons_Ok x' pre body s Hb) as [Hr Hs].
      rewrite Hr in Hpre. rewrite Hs in Hy. by exists pre, y, post.
  - split.
    + intros _. by exists [], x, xs.
    + intros _. cbn [for_each]. by rewrite (bind_result_Raise _ _ _ Hb).
Qed.

Lemma for_fold_Raise_trace {A S} (xs : list A) (acc0 : S) (body : S → A → M S) s :
  result_of (for_fold xs acc0 body s) = Raise
  ↔ ∃ pre x post acc,
      xs = pre ++ x :: post
      ∧ result_of (for_fold pre acc0 body s) = Ok acc
      ∧ result_of (body acc x (state_of (for_fold pre acc0 body s))) = Raise.
Proof.
  revert acc0 s. induction xs as [|x xs IH]; intros acc0 s.
  { split; [done|]. intros (pre & ? & ? & ? & H & _). by destruct pre. }
  destruct (result_of (body acc0 x s)) as [acc1|] eqn:Hb.
  - destruct (for_fold_cons_Ok x xs acc0 acc1 body s Hb) as [-> _]. rewrite IH. split.
    + intros (pre & y & post & acc & -> & Hpre & Hy). exists (x :: pre), y, post, acc.
      destruct (for_fold_cons_Ok x pre acc0 acc1 body s Hb) as [-> ->]. done.
    + intros (pre & y & post & acc & Hsplit & Hpre & Hy).
      destruct pre as [|x' pre]; cbn [app] in Hsplit; simplify_eq.
      { cbn in Hpre, Hy. injection Hpre as <-. congruence. }
      destruct (for_fold_cons_Ok x' pre acc0 acc1 body s Hb) as [Hr Hs].
      rewrite Hr in Hpre. rewrite Hs in Hy. by exists pre, y, post, acc.
  - split.
    + intros _. by exists [], x, xs, acc0.
    + intros _. cbn [for_fold]. by rewrite (bind_result_Raise _ _ _ Hb).
Qed.

(** One turn of the sizing loop fails exactly when the symbol has a positive
    price and its ATR computation fails. *)
Lemma size_one_Raise_iff h pv e acc sym w s :
  result_of (size_one h pv e acc (sym, w) s) = Raise
  ↔ ∃ px, get_last_price h (_src_symbol h sym) = Some px ∧ 0 < px
          ∧ result_of (_atr h sym s) = Raise.
Proof.
  destruct acc as [dq inv]. unfold size_one.
  destruct (get_last_price h _) as [px|]; [|split; [done|by intros (? & [=] & _)]].
  destruct (Py.Qleb px 0) eqn:Hpx.
  { apply Qleb_true in Hpx. split; [done|]. intros (? & [= <-] & ? & _). lra. }
  apply Qleb_false in Hpx.
  destruct (result_of (_atr h sym s)) as [atr|] eqn:Ha.
  - rewrite (bind_result_Ok _ _ _ _ Ha). cbn [result_of fst].
    split; [|by intros (? & _ & _ & [=])].
    destruct atr as [atr|]; [|done]. rewrite bind_get_state.
    destruct (_ <=? 0)%Z; [done|]. by destruct (Py.Qltb _ MIN_ORDER_DOLLARS).
  - rewrite (bind_result_Raise _ _ _ Ha). split; [|done]. intros _. by exists px.
Qed.

(** One turn of the trailing-stop pass fails exactly when the position is
    long, has a positive price, and its ATR computation fails after the
    running high was recorded. *)
Lemma trailing_stop_one_Raise_iff h pos s :
  result_of (trailing_stop_one h pos s) = Raise
  ↔ 0 < pos_quantity pos
    ∧ ∃ px, get_last_price h (_src_symbol h (pos_symbol pos)) = Some px ∧ 0 < px
            ∧ result_of (_atr h (pos_symbol pos) (stop_atr_state s (pos_symbol pos) px))
              = Raise.
Proof.
  unfold trailing_stop_one.
  destruct (Py.Qleb (pos_quantity pos) 0) eqn:Hq.
  { apply Qleb_true in Hq. split; [done|]. intros [? _]. lra. }
  apply Qleb_false in Hq.
  destruct (get_last_price h _) as [px|]; [|split; [done|by intros (_ & ? & [=] & _)]].
  destruct (Py.Qleb px 0) eqn:Hpx.
  { apply Qleb_true in Hpx. split; [done|]. intros (_ & ? & [= <-] & ? & _). lra. }
  apply Qleb_false in Hpx.
  rewrite bind_get_state, bind_modify. fold (stop_atr_state s (pos_symbol pos) px).
  destruct (result_of (_atr h (pos_symbol pos) (stop_atr_state s (pos_symbol pos) px)))
    as [atr|] eqn:Ha.
  - rewrite (bind_result_Ok _ _ _ _ Ha). cbn [result_of fst].
    split; [|intros (_ & ? & [= <-] & _ & H); congruence].
    destruct atr as [atr|]; [|done]. rewrite bind_get_state.
    destruct (Py.Qleb px _); [|done].
    unfold log_message, submit_order, pop_highest_close. by rewrite !bind_emit.
  - rewrite (bind_result_Raise _ _ _ Ha). split; [|done]. intros _.
    split; [done|]. by exists px.
Qed.

Lemma apply_trailing_stops_Raise_iff h s :
  result_of (_apply_trailing_stops h s) = Raise ↔ stops_atr_failure h s.
Proof.
  unfold _apply_trailing_stops, stops_atr_failure. rewrite for_each_Raise_trace. split.
  - intros (pre & pos & post & Hsplit & Hpre & Hraise).
    apply trailing_stop_one_Raise_iff in Hraise as (Hq & px & Hpx & Hpos & Ha).
    by exists pre, pos, post, px.
  - intros (pre & pos & post & px & Hsplit & Hpre & Hq & Hpx & Hpos & Ha).
    exists pre, pos, post. split; [done|]. split; [done|].
    apply trailing_stop_one_Raise_iff. split; [done|]. by exists px.
Qed.

Lemma sizing_loop_Raise_iff h pv e s weights :
  result_of (for_fold weights ([], 0) (size_one h pv e) s) = Raise
  ↔ sizing_atr_failure h pv e s weights.
Proof.
  unfold sizing_atr_failure. rewrite for_fold_Raise_trace. split.
  - intros (pre & [sym w] & post & acc & Hsplit & Hpre & Hraise).
    apply size_one_Raise_iff in Hraise as (px & Hpx & Hpos & Ha).
    exists pre, sym, w, post, px. eauto 10.
  - intros (pre & sym & w & post & px & Hsplit & [acc Hpre] & Hpx & Hpos & Ha).
    exists pre, (sym, w), post, acc. split; [done|]. split; [done|].
    apply size_one_Raise_iff. by exists px.
Qed.

(** [_rebalance], up to its sizing loop: it fails exactly when the sizing
    loop does, and returns whenever the sizing loop returns. *)
Lemma rebalance_Raise_iff h selected exposure s :
  result_of (_rebalance h selected exposure s) = Raise
  ↔ rebalance_atr_failure h selected exposure s.
Proof.
  unfold rebalance_atr_failure. cbv zeta.
  destruct selected as [|x sel] eqn:Hs.
  { split; [done|]. by intros [? _]. }
  unfold _rebalance. cbv iota. rewrite <- Hs. 
  assert (selected ≠ []) as Hne by (by rewrite Hs). clear Hs.
  destruct (never_raises_for_each (get_positions h) (sell_unselected_one h selected)
              (sell_unselected_one_total h selected) s) as [[] Hsell].
  rewrite (bind_result_Ok _ _ _ _ Hsell).
  set (s1 := state_of (for_each (get_positions h) (sell_unselected_one h selected) s)).
  cbn [result_of fst].
  destruct (never_raises_for_fold selected [] (collect_vol h) (collect_vol_total h) s1)
    as [vols Hvols].
  rewrite (bind_result_Ok _ _ _ _ Hvols).
  set (s2 := state_of (for_fold selected [] (collect_vol h) s1)).
  cbn [result_of fst].
  pose proof (collect_vols_positive _ _ _ _ Hvols) as [Hpos Hnd].
  destruct vols as [|v0 vols'] eqn:Hv.
  { split; [done|]. intros (_ & vols0 & Hv0 & Hne0 & _). congruence. }
  rewrite <- Hv in *.
  assert (vols ≠ []) as Hvne by (by rewrite Hv). clear Hv.
  set (pv := get_portfolio_value h). set (e := clamp01 exposure).
  destruct (result_of (for_fold (inverse_vol_weights vols) ([], 0) (size_one h pv e) s2))
    as [[desired_qty invested]|] eqn:Hsize.
  - rewrite (bind_result_Ok _ _ _ _ Hsize). cbn [result_of fst].
    split.
    2:{ intros (_ & vols0 & Hv0 & _ & Hf). rewrite Hvols in Hv0. injection Hv0 as <-.
        apply sizing_loop_Raise_iff in Hf. fold pv e in Hf. congruence. }
    intros Hres. exfalso.
    destruct (sizing_loop_invariant _ _ _ _ _ _ _ Hsize) as (_ & _ & Hc).
    { by rewrite inverse_vol_weights_keys. }
    { by apply inverse_vol_weights_pos. }
    cbn [fst snd] in Hc.
    destruct desired_qty as [|d0 dq'] eqn:Hd; [done|]. rewrite <- Hd in *.
    destruct Hc as [[Hnil _]|(_ & Hpe & _)]; [by subst|].
    destruct (never_raises_for_each desired_qty (submit_delta h) (submit_delta_total h)
                (state_of (for_fold (inverse_vol_weights vols) ([], 0) (size_one h pv e) s2)))
      as [[] Hsub].
    rewrite (bind_result_Ok _ _ _ _ Hsub) in Hres. cbn [result_of fst] in Hres.
    destruct (Qeq_bool pv 0) eqn:Hz; [|done].
    apply Qeq_bool_iff in Hz. rewrite Hz in Hpe. lra.
  - rewrite (bind_result_Raise _ _ _ Hsize). cbn [result_of fst].
    split; [|done]. intros _. split; [done|]. exists vols.
    split; [done|]. split; [done|]. by apply sizing_loop_Raise_iff.
Qed.

(** When [_rebalance] fails, the only orders out are those of its first
    loop. *)
Lemma rebalance_Raise_orders h selected exposure s :
  result_of (_rebalance h selected exposure s) = Raise →
  submitted (events_of (_rebalance h selected exposure s))
  = submitted (events_of (for_each (get_positions h) (sell_unselected_one h selected) s)).
Proof.
  intros Hres. destruct selected as [|x sel] eqn:Hs; [done|].
  unfold _rebalance in Hres |- *. cbv iota in Hres |- *. rewrite <- Hs in *. clear Hs.
  destruct (never_raises_for_each (get_positions h) (sell_unselected_one h selected)
              (sell_unselected_one_total h selected) s) as [[] Hsell].
  rewrite (bind_result_Ok _ _ _ _ Hsell) in Hres |- *.
  set (s1 := state_of (for_each (get_positions h) (sell_unselected_one h selected) s)) in *.
  cbn [result_of events_of fst snd] in Hres |- *.
  destruct (never_raises_for_fold selected [] (collect_vol h) (collect_vol_total h) s1)
    as [vols Hvols].
  rewrite (bind_result_Ok _ _ _ _ Hvols) in Hres |- *.
  set (s2 := state_of (for_fold selected [] (collect_vol h) s1)) in *.
  cbn [result_of events_of fst snd] in Hres |- *.
  assert (submitted (events_of (for_fold selected [] (collect_vol h) s1)) = []) as Hq1.
  { apply submitted_data_failure.
    apply (keeps_for_fold only_cache data_failure only_cache_refl only_cache_trans).
    intros a y. apply collect_vol_keeps_data. }
  rewrite !submitted_app, Hq1. cbn [app].
  pose proof (collect_vols_positive _ _ _ _ Hvols) as [Hpos Hnd].
  destruct vols as [|v0 vols'] eqn:Hv; [done|]. rewrite <- Hv in *. clear Hv.
  set (pv := get_portfolio_value h) in *. set (e := clamp01 exposure) in *.
  assert (submitted (events_of (for_fold (inverse_vol_weights vols) ([], 0)
                                  (size_one h pv e) s2)) = []) as Hq2.
  { apply submitted_data_failure.
    apply (keeps_for_fold only_cache data_failure only_cache_refl only_cache_trans).
    intros a y. apply size_one_keeps_data. }
  destruct (result_of (for_fold (inverse_vol_weights vols) ([], 0) (size_one h pv e) s2))
    as [[desired_qty invested]|] eqn:Hsize.
  - exfalso. rewrite (bind_result_Ok _ _ _ _ Hsize) in Hres. cbn [result_of fst] in Hres.
    destruct (sizing_loop_invariant _ _ _ _ _ _ _ Hsize) as (_ & _ & Hc).
    { by rewrite inverse_vol_weights_keys. }
    { by apply inverse_vol_weights_pos. }
    cbn [fst snd] in Hc.
    destruct desired_qty as [|d0 dq'] eqn:Hd; [done|]. rewrite <- Hd in *.
    destruct Hc as [[Hnil _]|(_ & Hpe & _)]; [by subst|].
    destruct (never_raises_for_each desired_qty (submit_delta h) (submit_delta_total h)
                (state_of (for_fold (inverse_vol_weights vols) ([], 0) (size_one h pv e) s2)))
      as [[] Hsub].
    rewrite (bind_result_Ok _ _ _ _ Hsub) in Hres. cbn [result_of fst] in Hres.
    destruct (Qeq_bool pv 0) eqn:Hz; [|done].
    apply Qeq_bool_iff in Hz. rewrite Hz in Hpe. lra.
  - rewrite (bind_result_Raise _ _ _ Hsize). cbn [events_of snd].
    by rewrite Hq2, app_nil_r.
Qed.

(** X20.  A rebalance fails exactly when an ATR computation of its sizing
    loop fails: the selection is not empty, the volatility loop has returned
    at least one reading, and at some weighted symbol with a positive price,
    reached after the weights before it were processed, [_atr] raises in the
    state the loop reads it in.  In particular its closing report never
    divides by a zero portfolio value: whenever the sizing loop returns, so
    does the rebalance.  When it fails it has already submitted the closing
    orders of the unselected positions and nothing else: no delta order is
    out. *)
Theorem rebalance_fails_only_through_atr (h : Host) (s : EngineState)
    (selected : list string) (exposure : Q) :
  let pv := get_portfolio_value h in
  let e := clamp01 exposure in
  let s1 := state_of (for_each (get_positions h) (sell_unselected_one h selected) s) in
  let s2 := state_of (for_fold selected [] (collect_vol h) s1) in
  (result_of (_rebalance h selected exposure s) = Raise
   ↔ selected ≠ []
     ∧ ∃ vols,
         result_of (for_fold selected [] (collect_vol h) s1) = Ok vols
         ∧ vols ≠ []
         ∧ ∃ pre sym w post px,
             inverse_vol_weights vols = pre ++ (sym, w) :: post
             ∧ (∃ acc, result_of (for_fold pre ([], 0) (size_one h pv e) s2) = Ok acc)
             ∧ get_last_price h (_src_symbol h sym) = Some px ∧ 0 < px
             ∧ result_of (_atr h sym (sizing_state h pv e s2 pre)) = Raise)
  ∧ (∀ vols r,
       result_of (for_fold selected [] (collect_vol h) s1) = Ok vols →
       result_of (for_fold (inverse_vol_weights vols) ([], 0) (size_one h pv e) s2) = Ok r →
       result_of (_rebalance h selected exposure s) = Ok tt)
  ∧ (result_of (_rebalance h selected exposure s) = Raise →
     submitted (events_of (_rebalance h selected exposure s))
     = submitted (events_of (for_each (get_positions h)
                               (sell_unselected_one h selected) s))).
Proof.
  cbv zeta. split; [exact (rebalance_Raise_iff h selected exposure s)|].
  split; [|apply rebalance_Raise_orders].
  intros vols r Hvols Hsize.
  destruct (result_of (_rebalance h selected exposure s)) as [[]|] eqn:Hres; [done|].
  apply rebalance_Raise_iff in Hres as (_ & vols' & Hvols' & _ & Hfail).
  rewrite Hvols in Hvols'. injection Hvols' as <-.
  apply sizing_loop_Raise_iff in Hfail. congruence.
Qed.

Lemma rebalance_fails_only_through_atr_witness :
  let h := FailureScenario.host in
  let s := FailureScenario.state in
  result_of (_rebalance h ["BBB"] 1 s) = Raise
  ∧ ∃ vols pre w post px,
      inverse_vol_weights vols = pre ++ ("BBB", w) :: post
      ∧ get_last_price h (_src_symbol h "BBB") = Some px
      ∧ result_of (_atr h "BBB"
                     (sizing_state h (get_portfolio_value h) (clamp01 1)
                        (state_of (for_fold ["BBB"] [] (collect_vol h)
                           (state_of (for_each (get_positions h)
                                        (sell_unselected_one h ["BBB"]) s))))
                        pre)) = Raise.
Proof.
  cbv zeta.
  assert (result_of (_rebalance FailureScenario.host ["BBB"] 1 FailureScenario.state) = Raise)
    as Hres by (vm_compute; reflexivity).
  split; [exact Hres|].
  destruct (rebalance_fails_only_through_atr FailureScenario.host FailureScenario.state
              ["BBB"] 1) as (Hiff & _).
  apply Hiff in Hres as (_ & vols & Hvols & _ & pre & sym & w & post & px & Hsplit & _
                          & Hpx & _ & Hatr).
  assert (vols = [("BBB", 1 # 5)]) as -> by (vm_compute in Hvols; congruence).
  assert (sym = "BBB") as ->.
  { vm_compute in Hsplit. destruct pre as [|? [|? ?]]; by simplify_eq. }
  by exists [("BBB", 1 # 5)], pre, w, post, px.
Defined.

Lemma never_raises_lift_exc_Ok {A} (r : Exc A) : (∃ a, r = Ok a) → never_raises (lift_exc r).
Proof. intros [a ->]. apply never_raises_ret. Qed.

Lemma mom_total close last_close lb : (0 < lb)%Z → ∃ r, mom close last_close lb = Ok r.
Proof.
  intros Hlb. unfold mom. destruct (len close <=? lb)%Z eqn:Hlen; [eauto|].
  apply Z.leb_gt in Hlen. unfold iloc.
  replace (0 <=? - lb)%Z with false by lia.
  replace (0 <=? len close + - lb)%Z with true by lia.
  destruct (close !! Z.to_nat (len close + - lb)) as [past|] eqn:Hp.
  - destruct (Py.Qleb past 0); eauto.
  - apply lookup_ge_None in Hp. unfold len in *. lia.
Qed.

Lemma rank_one_total h needed acc sym :
  (1 <= needed - 5)%Z → never_raises (rank_one h needed acc sym).
Proof.
  intros Hneeded. unfold rank_one. destruct acc as [scored passed_trend].
  apply never_raises_bind; [apply never_raises_get_state|intros s].
  apply never_raises_bind; [apply get_daily_df_total|intros df].
  destruct df as [df|]; [|apply never_raises_ret].
  destruct (negb _ || _) eqn:Hg; [apply never_raises_ret|].
  apply orb_false_iff in Hg as [_ Hlen]. apply Z.ltb_ge in Hlen.
  assert (closes df ≠ []) as Hne.
  { unfold closes. destruct (rows df); [|done]. unfold len in Hlen. cbn in Hlen. lia. }
  destruct (iloc_last_Ok _ Hne) as (x & -> & _).
  destruct (rolling_mean_last_Ok TREND_SMA_DAYS (closes df)) as [r ->]; [done|done|].
  cbn [lift_exc].
  repeat first
    [ apply never_raises_lift_exc_Ok, mom_total; reflexivity
    | apply realized_vol_total
    | total_step ].
Qed.

Lemma rank_candidates_total h : never_raises (_rank_candidates h).
Proof.
  unfold _rank_candidates.
  apply never_raises_bind; [apply never_raises_get_state|intros s].
  apply never_raises_bind; [|intros [scored n]; repeat total_step].
  apply never_raises_for_fold. intros a x. apply rank_one_total. by vm_compute.
Qed.

(** [_atr] fails exactly when the frame it reads has the three price columns
    and no row, or the period is negative. *)
Lemma atr_of_frame_Raise period df :
  atr_of_frame period df = Raise ↔ (period < 0)%Z ∨ rows df = [].
Proof.
  unfold atr_of_frame, rolling_mean_last.
  destruct (period <? 0)%Z eqn:Hp.
  { apply Z.ltb_lt in Hp. split; [by left|done]. }
  apply Z.ltb_ge in Hp.
  destruct (rows df) as [|b r]; cbn [true_range].
  { split; [by right|done]. }
  destruct (_ || _).
  - split; [done|]. intros [?|?]; [lia|done].
  - destruct (Py.Qleb _ 0); (split; [done|]); intros [?|?]; (lia || done).
Qed.

(** X21.  [_atr] has exactly one way to fail: it raises if and only if the
    frame it reads carries the high, low and close columns and either has no
    row at all (an empty or all-NaN answer of the data source, which
    [_get_daily_df] caches like any other) or the ATR period is negative. *)
Theorem atr_fails_exactly_on_empty_frame (h : Host) (s : EngineState) (symbol : string) :
  result_of (_atr h symbol s) = Raise
  ↔ ∃ df, result_of (_get_daily_df h symbol (atr_length (profile s)) s) = Ok (Some df)
          ∧ has_column "high" df && has_column "low" df && has_column "close" df = true
          ∧ ((atr_period (profile s) < 0)%Z ∨ rows df = []).
Proof.
  unfold _atr. rewrite bind_get_state.
  destruct (get_daily_df_total h symbol (atr_length (profile s)) s) as [df Hdf].
  rewrite (bind_result_Ok _ _ _ _ Hdf), Hdf. cbn [result_of fst].
  destruct df as [df|].
  2:{ split; [done|]. by intros (? & [=] & _). }
  destruct (has_column "high" df && has_column "low" df && has_column "close" df) eqn:Hc;
    cbn [negb].
  2:{ split; [done|]. intros (? & [= <-] & ? & _). congruence. }
  pose proof (atr_of_frame_Raise (atr_period (profile s)) df) as Hiff.
  destruct (atr_of_frame _ df) as [a|]; cbn [lift_exc].
  - split; [done|]. intros (? & [= <-] & _ & H). by apply Hiff in H.
  - split; [|done]. intros _. exists df. split; [done|]. split; [done|]. by apply Hiff.
Qed.

(** A trading step fails in its trailing stops or, when they complete, in
    the rebalance it has decided on. *)
Lemma on_trading_iteration_Raise_iff h s :
  result_of (on_trading_iteration h s) = Raise
  ↔ stops_atr_failure h s ∨ step_rebalance_failure h s.
Proof.
  rewrite on_trading_iteration_unfold. unfold step_rebalance_failure, gate_state. cbv zeta.
  rewrite <- apply_trailing_stops_Raise_iff.
  destruct (result_of (_apply_trailing_stops h s)) as [[]|] eqn:Ht.
  2:{ rewrite (bind_result_Raise _ _ _ Ht). split; [by left|done]. }
  rewrite (bind_result_Ok _ _ _ _ Ht). cbn [result_of fst].
  rewrite (bind_result_Ok _ _ _ _ (apply_drawdown_breaker_Ok h _)).
  cbn [result_of fst].
  set (sb := state_of (_apply_drawdown_breaker h _)).
  unfold gate_and_rebalance. rewrite bind_get_state.
  destruct (_in_cooldown h sb); [split; [done|by intros [?|(_ & ? & _)]]|].
  destruct (_should_rebalance_today h sb); cbn [negb];
    [|split; [done|by intros [?|(_ & _ & ? & _)]]].
  destruct (risk_on_fraction_total h sb) as [e He].
  rewrite (bind_result_Ok _ _ _ _ He). cbn [result_of fst].
  set (sr := state_of (_risk_on_fraction h sb)).
  destruct (rank_candidates_total h sr) as [ranked Hr].
  rewrite (bind_result_Ok _ _ _ _ Hr). cbn [result_of fst].
  rewrite bind_get_state. unfold log_message. rewrite bind_emit. cbn [result_of fst].
  set (s2 := state_of (_rank_candidates h sr)).
  rewrite He, Hr.
  destruct (result_of (_rebalance h (_select_with_sector_caps s2 ranked) e s2))
    as [[]|] eqn:Hreb.
  - rewrite (bind_result_Ok _ _ _ _ Hreb). cbn [result_of fst]. split; [done|].
    intros [?|(_ & _ & _ & e' & ranked' & [= <-] & [= <-] & Hf)]; [done|].
    apply rebalance_Raise_iff in Hf. congruence.
  - rewrite (bind_result_Raise _ _ _ Hreb). cbn [result_of fst]. split; [|done].
    intros _. right. split; [done|]. split; [done|]. split; [done|].
    exists e, ranked. split; [done|]. split; [done|]. by apply rebalance_Raise_iff.
Qed.

(** X22.  The whole trading step fails exactly when an ATR computation
    fails in one of two places.  Either the trailing-stop pass reaches a long
    position with a positive price, after the positions before it were
    processed, and [_atr] raises in the state in which the pass reads it
    (the running high recorded).  Or the trailing stops complete, the step
    is outside the cooldown and a rebalance is due after the breaker, and
    [_rebalance], called with the exposure, the ranking and the selection the
    step computed, fails in the ATR computation of its sizing loop.  The
    regime dial, the ranking, the selection, the breaker and every order
    submission cannot fail. *)
Theorem step_fails_only_through_atr (h : Host) (s : EngineState) :
  let sb := state_of (_apply_drawdown_breaker h (state_of (_apply_trailing_stops h s))) in
  let sr := state_of (_risk_on_fraction h sb) in
  let s2 := state_of (_rank_candidates h sr) in
  (result_of (on_trading_iteration h s) = Raise
   ↔ (∃ pre pos post px,
        get_positions h = pre ++ pos :: post
        ∧ result_of (for_each pre (trailing_stop_one h) s) = Ok tt
        ∧ 0 < pos_quantity pos
        ∧ get_last_price h (_src_symbol h (pos_symbol pos)) = Some px ∧ 0 < px
        ∧ result_of (_atr h (pos_symbol pos)
                       (stop_atr_state (stops_state h s pre) (pos_symbol pos) px)) = Raise)
     ∨ (result_of (_apply_trailing_stops h s) = Ok tt
        ∧ _in_cooldown h sb = false
        ∧ _should_rebalance_today h sb = true
        ∧ ∃ e ranked,
            result_of (_risk_on_fraction h sb) = Ok e
            ∧ result_of (_rank_candidates h sr) = Ok ranked
            ∧ result_of (_rebalance h (_select_with_sector_caps s2 ranked) e s2) = Raise
            ∧ rebalance_atr_failure h (_select_with_sector_caps s2 ranked) e s2))
  ∧ (∃ e ranked, result_of (_risk_on_fraction h sb) = Ok e
                 ∧ result_of (_rank_candidates h sr) = Ok ranked)
  ∧ result_of (_apply_drawdown_breaker h (state_of (_apply_trailing_stops h s))) = Ok tt.
Proof.
  cbv zeta. split; [|split].
  - rewrite on_trading_iteration_Raise_iff.
    unfold stops_atr_failure, step_rebalance_failure, gate_state. cbv zeta.
    split.
    + intros [?|(Ht & Hc & Hd & e & ranked & He & Hr & Hf)]; [by left|right].
      split; [done|]. split; [done|]. split; [done|]. exists e, ranked.
      split; [done|]. split; [done|]. split; [by apply rebalance_Raise_iff|done].
    + intros [?|(Ht & Hc & Hd & e & ranked & He & Hr & _ & Hf)]; [by left|right].
      split; [done|]. split; [done|]. split; [done|]. by exists e, ranked.
  - destruct (risk_on_fraction_total h
                (state_of (_apply_drawdown_breaker h (state_of (_apply_trailing_stops h s)))))
      as [e He].
    destruct (rank_candidates_total h
                (state_of (_risk_on_fraction h
                   (state_of (_apply_drawdown_breaker h
                      (state_of (_apply_trailing_stops h s)))))))
      as [ranked Hr].
    by exists e, ranked.
  - apply apply_drawdown_breaker_Ok.
Qed.

Lemma step_fails_only_through_atr_witness :
  let h := FailureScenario.host in
  let s := FailureScenario.state in
  result_of (on_trading_iteration h s) = Raise
  ∧ ∃ pre pos post px,
      get_positions h = pre ++ pos :: post
      ∧ pos = StopScenario.position
      ∧ get_last_price h (_src_symbol h (pos_symbol pos)) = Some px
      ∧ result_of (_atr h (pos_symbol pos)
                     (stop_atr_state (stops_state h s pre) (pos_symbol pos) px)) = Raise.
Proof.
  cbv zeta.
  assert (result_of (on_trading_iteration FailureScenario.host FailureScenario.state) = Raise)
    as Hres by (vm_compute; reflexivity).
  split; [exact Hres|].
  destruct (step_fails_only_through_atr FailureScenario.host FailureScenario.state)
    as (Hiff & _).
  apply Hiff in Hres as [(pre & pos & post & px & Hsplit & _ & _ & Hpx & _ & Hatr)|(Ht & _)].
  - exists pre, pos, post, px. split; [exact Hsplit|].
    split; [|split; [exact Hpx|exact Hatr]].
    change (get_positions FailureScenario.host) with [StopScenario.position] in Hsplit.
    destruct pre as [|? [|? ?]]; cbn in Hsplit; by simplify_eq.
  - vm_compute in Ht. discriminate Ht.
Defined.

(** X23.  A failing trailing-stop pass skips the drawdown breaker: the step
    fails with it, before the breaker is evaluated, so even under a breach
    nothing is liquidated, no breaker diagnostic is written, and the equity
    peak, the cooldown date and the rebalance date stay as they were. *)
Theorem failed_stops_skip_the_breaker (h : Host) (s : EngineState) :
  result_of (_apply_trailing_stops h s) = Raise →
  let o := on_trading_iteration h s in
  result_of o = Raise
  ∧ dd_logs (events_of o) = []
  ∧ Forall (trailing_exit h) (events_of o)
  ∧ _equity_peak (state_of o) = _equity_peak s
  ∧ _cooldown_until (state_of o) = _cooldown_until s
  ∧ _last_rebalance_day (state_of o) = _last_rebalance_day s.
Proof.
  intros Ht o. subst o.
  rewrite on_trading_iteration_unfold, (bind_result_Raise _ _ _ Ht).
  cbn [result_of state_of events_of fst snd].
  destruct (apply_trailing_stops_exit h s) as [(_ & _ & Hl & Hpk & Hc & _) Hev].
  split; [done|]. split; [|by repeat split].
  apply dd_logs_not_breaker. eapply Forall_impl; [exact Hev|].
  intros [o|m]; [done|]. by destruct m.
Qed.

Lemma failed_stops_skip_the_breaker_witness :
  result_of (on_trading_iteration FailureScenario.host
               (set_equity_peak (Some 200000) FailureScenario.state)) = Raise
  ∧ dd_logs (events_of (on_trading_iteration FailureScenario.host
                          (set_equity_peak (Some 200000) FailureScenario.state))) = [].
Proof.
  destruct (failed_stops_skip_the_breaker FailureScenario.host
              (set_equity_peak (Some 200000) FailureScenario.state))
    as (Hres & Hdd & _).
  - vm_compute. reflexivity.
  - by split.
Defined.

(** ** Liquidation *)

Lemma liquidate_one_run h pos s :
  liquidate_one h pos s
  = (Ok tt, set_highest_close (delete (pos_symbol pos) (_highest_close s)) s,
     match closing_order h pos with Some o => [Submit o] | None => [] end).
Proof.
  unfold liquidate_one, closing_order, pop_highest_close, submit_order.
  by destruct (nonzero (pos_quantity pos)).
Qed.

Lemma liquidation_run h positions s :
  let o := for_each positions (liquidate_one h) s in
  result_of o = Ok tt
  ∧ events_of o = map Submit (omap (closing_order h) positions)
  ∧ _highest_close (state_of o)
    = foldl (λ m pos, delete (pos_symbol pos) m) (_highest_close s) positions.
Proof.
  revert s. induction positions as [|pos r IH]; intros s; [done|].
  cbn [for_each].
  assert (result_of (liquidate_one h pos s) = Ok tt) as Hone
    by (by rewrite liquidate_one_run).
  rewrite (bind_result_Ok _ _ _ _ Hone), liquidate_one_run.
  cbn [result_of state_of events_of fst snd].
  destruct (IH (set_highest_close (delete (pos_symbol pos) (_highest_close s)) s))
    as (Hr & He & Hh).
  split; [exact Hr|]. rewrite He, Hh. cbn [omap foldl].
  split; [|done]. destruct (closing_order h pos) eqn:Hc; cbn; by rewrite Hc.
Qed.

Lemma foldl_delete_lookup (positions : list Position) (m : gmap string Q) sym :
  foldl (λ m pos, delete (pos_symbol pos) m) m positions !! sym
  = if bool_decide (sym ∈ map pos_symbol positions) then None else m !! sym.
Proof.
  revert m. induction positions as [|pos r IH]; intros m; cbn [foldl map].
  - by rewrite bool_decide_eq_false_2 by apply not_elem_of_nil.
  - rewrite IH. destruct (decide (sym = pos_symbol pos)) as [->|Hne].
    + rewrite (bool_decide_eq_true_2 (_ ∈ _ :: _)) by apply list_elem_of_here.
      rewrite lookup_delete_eq. by case_bool_decide.
    + rewrite lookup_delete_ne by done.
      case_bool_decide as Hin.
      * by rewrite bool_decide_eq_true_2 by (by apply list_elem_of_further).
      * rewrite bool_decide_eq_false_2; [done|].
        by intros [?|?]%elem_of_cons.
Qed.

Lemma submitted_map_Submit l : submitted (map Submit l) = l.
Proof. induction l as [|o l IH]; [done|]. unfold submitted in *. cbn. by rewrite IH. Qed.

(** X24.  A firing breaker liquidates exactly: after its diagnostic it
    submits one closing order per position of non-zero quantity, in the
    host's order and nothing else (a sale for a long, a buy for a short
    position, always the full quantity); it forgets the tracked high of
    every symbol the host holds and of no other symbol. *)
Theorem breaker_liquidates_exactly (h : Host) (s : EngineState) :
  breach h s →
  let b := _apply_drawdown_breaker h s in
  submitted (events_of b) = omap (closing_order h) (get_positions h)
  ∧ (∃ dd, events_of b = Log (LogDDBreaker dd)
                         :: map Submit (omap (closing_order h) (get_positions h)))
  ∧ ∀ sym, _highest_close (state_of b) !! sym
           = if bool_decide (sym ∈ map pos_symbol (get_positions h)) then None
             else _highest_close s !! sym.
Proof.
  intros Hbreach b. subst b. apply breach_iff in Hbreach as (peak & Hpk & Hlt & Hdd).
  rewrite apply_drawdown_breaker_run. cbv zeta. rewrite Hpk, Hlt, Hdd.
  destruct (liquidation_run h (get_positions h) s) as (_ & Hev & Hh).
  fold (liquidation h s) in Hev, Hh. cbn [events_of state_of fst snd].
  rewrite Hev. split; [|split].
  - change (submitted (map Submit (omap (closing_order h) (get_positions h)))
            = omap (closing_order h) (get_positions h)).
    apply submitted_map_Submit.
  - by eexists.
  - intros sym. cbn. rewrite Hh. apply foldl_delete_lookup.
Qed.

Lemma breaker_liquidates_exactly_witness :
  let s1 := state_of (on_trading_iteration BreakerScenario.day1 BreakerScenario.start) in
  submitted (events_of (_apply_drawdown_breaker BreakerScenario.day2 s1))
  = [mkOrder "AAA" 10 Sell].
Proof.
  cbv zeta.
  pose (s1 := state_of (on_trading_iteration BreakerScenario.day1 BreakerScenario.start)).
  assert (breach BreakerScenario.day2 s1) as Hbreach.
  { exists 100000. split; [reflexivity|]. split; vm_compute; discriminate. }
  destruct (breaker_liquidates_exactly BreakerScenario.day2 s1 Hbreach) as (Hsub & _).
  etransitivity; [exact Hsub|]. vm_compute. reflexivity.
Defined.

(** ** Weights, volatility and sizing *)

Lemma elem_le_sum (l : list Q) x : x ∈ l → Forall (λ y, 0 <= y) l → x <= Py.sum l.
Proof.
  induction l as [|y l IH]; intros Hin Hall; [by apply elem_of_nil in Hin|].
  apply Forall_cons in Hall as [Hy Hl]. rewrite sum_cons.
  pose proof (sum_nonneg l Hl).
  apply elem_of_cons in Hin as [->|Hin]; [lra|]. specialize (IH Hin Hl). lra.
Qed.

(** X25.  The rebalance weights are inverse-volatility weights: for a
    non-empty dictionary of positive volatilities they keep its keys and
    order, each weight is positive and at most one, the weights sum to one,
    and weight times volatility is the same for every symbol, so a calmer
    symbol always gets the larger weight. *)
Theorem inverse_vol_weights_inverse_proportional (vols : list (string * Q)) :
  vols ≠ [] →
  Forall (λ sv, 0 < sv.2) vols →
  let weights := inverse_vol_weights vols in
  map fst weights = map fst vols
  ∧ Py.sum (map snd weights) == 1
  ∧ ∃ c, 0 < c
         ∧ Forall2 (λ sv sw, sw.1 = sv.1 ∧ sw.2 * sv.2 == c ∧ 0 < sw.2 <= 1) vols weights.
Proof.
  intros Hne Hpos weights. subst weights.
  split; [apply inverse_vol_weights_keys|]. split; [by apply inverse_vol_weights_sum|].
  pose proof (inverse_sum_pos vols Hne Hpos) as HS.
  unfold inverse_vol_weights.
  set (inv := map (λ sv : string * Q, (sv.1, 1 / sv.2)) vols) in *.
  set (S := Py.sum (map snd inv)) in *.
  exists (1 / S). split; [apply Qlt_shift_div_l; lra|].
  subst inv. rewrite map_map. apply Forall2_fmap_r, Forall_Forall2_diag.
  apply Forall_forall. intros [k v] Hin. cbv beta. cbn [fst snd].
  rewrite Forall_forall in Hpos. pose proof (Hpos _ Hin) as Hv. cbn in Hv.
  assert (0 < 1 / v) as Hinv by (apply Qlt_shift_div_l; lra).
  assert (1 / v <= S) as Hle.
  { apply elem_le_sum.
    - rewrite map_map. cbn. apply list_elem_of_fmap. by exists (k, v).
    - rewrite map_map, Forall_map. apply Forall_forall. intros [k' v'] Hin'. cbn.
      pose proof (Hpos _ Hin') as Hv'. cbn in Hv'.
      apply Qlt_le_weak, Qlt_shift_div_l; lra. }
  split; [done|]. cbn [fst snd]. split; [field; split; lra|]. split.
  - apply Qlt_shift_div_l; lra.
  - apply Qle_shift_div_r; lra.
Qed.

Lemma inverse_vol_weights_inverse_proportional_witness :
  Py.sum (map snd (inverse_vol_weights [("AAA", 1 # 5); ("BBB", 2 # 5)])) == 1.
Proof.
  apply (inverse_vol_weights_inverse_proportional [("AAA", 1 # 5); ("BBB", 2 # 5)]).
  - discriminate.
  - repeat constructor.
Defined.

Lemma pct_change_length prev cs : length (pct_change prev cs) = length cs.
Proof. revert prev. induction cs as [|c r IH]; intros prev; cbn; [done|]. by rewrite IH. Qed.

Lemma returns_length cs : length (returns cs) = (length cs - 1)%nat.
Proof. destruct cs as [|c r]; cbn; [done|]. rewrite pct_change_length. lia. Qed.

(** X26.  A volatility reading needs history and is positive: whenever
    [_realized_vol] answers with a value, the frame it read has a close
    column and at least 26 rows (25 returns), the value is the annualised
    deviation of the last [VOL_LOOKBACK] returns as pandas computes it, and
    it is strictly positive; and the function never fails. *)
Theorem realized_vol_needs_history (h : Host) (s : EngineState) (symbol : string) (v : Q) :
  result_of (_realized_vol h symbol s) = Ok (Some v) →
  0 < v
  ∧ ∃ df, result_of (_get_daily_df h symbol 120 s) = Ok (Some df)
          ∧ has_column "close" df = true
          ∧ (26 <= len (rows df))%Z
          ∧ pandas_std_annualized h (Py.tail 63 (returns (closes df))) = Some v.
Proof.
  unfold _realized_vol. change (Z.max (VOL_LOOKBACK + 10) 120) with 120%Z.
  destruct (get_daily_df_total h symbol 120 s) as [df Hdf].
  rewrite (bind_result_Ok _ _ _ _ Hdf), Hdf. cbn [result_of fst].
  destruct df as [df|]; [|done].
  destruct (has_column "close" df) eqn:Hc; cbn [negb]; [|done].
  destruct (len (returns (closes df)) <? 25)%Z eqn:Hlen; [done|]. apply Z.ltb_ge in Hlen.
  change (Z.to_nat VOL_LOOKBACK) with 63%nat.
  destruct (pandas_std_annualized h _) as [vol|] eqn:Hstd; [|done].
  destruct (Py.Qleb vol 0) eqn:Hpos; [done|]. apply Qleb_false in Hpos.
  intros [= <-]. split; [done|]. exists df. repeat split; try done.
  unfold len, closes in *. rewrite returns_length, length_map in Hlen. lia.
Qed.

Lemma realized_vol_needs_history_witness : 0 < 1 # 5.
Proof.
  apply (realized_vol_needs_history SizingScenario.host SizingScenario.state "AAA" (1 # 5)).
  vm_compute. reflexivity.
Defined.

Lemma size_one_cases_min h pv e dq inv sym w s r :
  result_of (size_one h pv e (dq, inv) (sym, w) s) = Ok r →
  r = (dq, inv)
  ∨ ∃ px n,
      get_last_price h (_src_symbol h sym) = Some px ∧ 0 < px
      ∧ (0 < n)%Z ∧ MIN_ORDER_DOLLARS <= inject_Z n * px
      ∧ r = (Py.dict_set sym n dq, inv + inject_Z n * px).
Proof.
  unfold size_one.
  destruct (get_last_price h (_src_symbol h sym)) as [px|]; [|intros [= <-]; by left].
  destruct (Py.Qleb px 0) eqn:Hpx; [intros [= <-]; by left|].
  apply Qleb_false in Hpx.
  destruct (result_of (_atr h sym s)) as [atr|] eqn:Ha.
  2:{ by rewrite (bind_result_Raise _ _ _ Ha). }
  rewrite (bind_result_Ok _ _ _ _ Ha). cbn [result_of fst].
  destruct atr as [atr|]; [|intros [= <-]; by left].
  rewrite bind_get_state.
  destruct (_ <=? 0)%Z eqn:Hn; [intros [= <-]; by left|]. apply Z.leb_gt in Hn.
  destruct (Py.Qltb _ MIN_ORDER_DOLLARS) eqn:Hmin; intros [= <-]; [by left|].
  apply Qltb_false in Hmin. right. eexists px, _. repeat split; try done.
Qed.

(** X27.  The sizing loop keeps no small target: every symbol it sizes has a
    known positive last price, a whole positive share count worth at least
    [MIN_ORDER_DOLLARS] at that price, and is one of the weighted symbols;
    each symbol is sized at most once. *)
Theorem sizing_keeps_no_small_target (h : Host) (s : EngineState) (pv e : Q)
    (weights : list (string * Q)) (desired_qty : list (string * Z)) (invested : Q) :
  result_of (for_fold weights ([], 0) (size_one h pv e) s) = Ok (desired_qty, invested) →
  NoDup (map fst desired_qty)
  ∧ ∀ sym n, (sym, n) ∈ desired_qty →
      sym ∈ map fst weights
      ∧ (0 < n)%Z
      ∧ ∃ px, get_last_price h (_src_symbol h sym) = Some px ∧ 0 < px
              ∧ MIN_ORDER_DOLLARS <= inject_Z n * px.
Proof.
  intros Hr.
  refine (for_fold_invariant (λ _, True)
            (λ pre (acc : list (string * Z) * Q),
               NoDup (map fst acc.1)
               ∧ ∀ sym n, (sym, n) ∈ acc.1 →
                   sym ∈ map fst pre ∧ (0 < n)%Z
                   ∧ ∃ px, get_last_price h (_src_symbol h sym) = Some px ∧ 0 < px
                           ∧ MIN_ORDER_DOLLARS <= inject_Z n * px)
            (size_one h pv e) _ _ weights [] ([], 0) s (desired_qty, invested) I _ Hr).
  - intros pre [sym w] [dq inv] s' r _ [Hnd HI] Hres. cbn [fst snd] in *.
    destruct (size_one_cases_min _ _ _ _ _ _ _ _ _ Hres)
      as [->|(px & n & Hpx & Hpos & Hn & Hmin & ->)]; cbn [fst].
    + split; [done|]. intros k m Hk. destruct (HI _ _ Hk) as (? & ? & ?).
      rewrite map_app, elem_of_app. by split; [left|].
    + split; [by apply dict_set_NoDup|]. intros k m Hk.
      rewrite map_app, elem_of_app.
      apply dict_set_elem in Hk as [[= -> ->]|Hk].
      * split; [right; apply list_elem_of_here|]. split; [done|]. by exists px.
      * destruct (HI _ _ Hk) as (? & ? & ?). by split; [left|].
  - done.
  - split; [apply NoDup_nil_2|]. intros k n Hk. by apply elem_of_nil in Hk.
Qed.

Lemma sizing_keeps_no_small_target_witness :
  NoDup (map fst [("AAA", 74%Z); ("BBB", 74%Z)]).
Proof.
  apply (sizing_keeps_no_small_target SizingScenario.host SizingScenario.state
           (get_portfolio_value SizingScenario.host) (clamp01 1)
           (inverse_vol_weights [("AAA", 1 # 5); ("BBB", 1 # 5)])
           [("AAA", 74%Z); ("BBB", 74%Z)] 14800).
  vm_compute. reflexivity.
Defined.

Lemma stop_distance_pos p atr : 0 < stop_distance p atr.
Proof.
  unfold stop_distance. pose proof (Py_max_ge_l (1 # 100) (atr_mult_trail p * atr)). lra.
Qed.

(** A positive share count costs, at its stop, at most the risk dollars of
    its symbol. *)
Lemma target_shares_risk p pv e w px atr :
  (0 < target_shares p pv e w px atr)%Z →
  inject_Z (target_shares p pv e w px atr) * stop_distance p atr <= risk_dollars p pv w
  ∧ 0 < risk_dollars p pv w.
Proof.
  intros Hn. set (n := target_shares p pv e w px atr) in *.
  pose proof (stop_distance_pos p atr) as Hstop. set (d := stop_distance p atr) in *.
  assert (n <= shares_by_risk p pv w atr)%Z as Hrisk by (unfold n, target_shares in *; lia).
  rewrite Zle_Qle in Hrisk. unfold shares_by_risk, Py.floordiv in Hrisk. fold d in Hrisk.
  set (R := risk_dollars p pv w) in *.
  pose proof (Qfloor_le (R / d)) as Hfl.
  assert (inject_Z n <= R / d) as Hle by lra.
  assert (1 <= inject_Z n) as Hone.
  { change 1 with (inject_Z 1). rewrite <- Zle_Qle. lia. }
  assert (R / d * d == R) as Hdiv by (field; lra).
  assert (inject_Z n * d <= R / d * d) as Hmul by (apply Qmult_le_compat_r; lra).
  split; [lra|]. nra.
Qed.

Lemma planned_risk_snoc plan x :
  planned_risk (plan ++ [x]) == planned_risk plan + inject_Z x.1.2 * x.2.
Proof.
  unfold planned_risk. rewrite map_app, sum_app. cbn [map]. rewrite sum_cons, sum_nil. lra.
Qed.


Lemma plan_entry_snoc h p pv e s pre sw x :
  plan_entry h p pv e s pre x → plan_entry h p pv e s (pre ++ [sw]) x.
Proof.
  intros (pre1 & w & post1 & atr & -> & Hrest).
  exists pre1, w, (post1 ++ [sw]), atr. split; [|exact Hrest]. by rewrite <- app_assoc.
Qed.

Lemma risk_loop_invariant h pv e weights s desired_qty invested :
  NoDup (map fst weights) →
  Forall (λ sw : string * Q, 0 < sw.2) weights →
  result_of (for_fold weights ([], 0) (size_one h pv e) s) = Ok (desired_qty, invested) →
  risk_invariant h (profile s) pv e s weights (desired_qty, invested).
Proof.
  intros Hnd Hpos Hr. set (p := profile s).
  refine (for_fold_prefix_invariant (risk_invariant h p pv e s) (size_one h pv e)
            ([], 0) s weights (desired_qty, invested) _ _ Hr).
  { split; [intros k Hk; by apply elem_of_nil in Hk|].
    exists []. split; [done|]. split; [constructor|]. done. }
  intros pre [sym w] post [dq inv] acc' Hxs Hpre (Hkeys & plan & Hplan & Hall & Hsum) Hone.
  cbn [fst snd] in Hkeys, Hplan, Hsum. fold (sizing_state h pv e s pre) in Hone.
  assert (sym ∉ map fst pre) as Hfresh.
  { rewrite Hxs, map_app in Hnd. apply NoDup_app in Hnd as (_ & Hf & _).
    intros Hin. apply (Hf sym Hin). cbn. apply list_elem_of_here. }
  assert (0 < w ∧ Forall (λ sw : string * Q, 0 < sw.2) pre) as [Hw Hpre_pos].
  { rewrite Hxs in Hpos. apply Forall_app in Hpos as [? Hrest].
    apply Forall_cons in Hrest as [? _]. done. }
  assert (0 <= Py.sum (map snd pre)) as Hsumpre.
  { apply sum_nonneg. rewrite Forall_map. eapply Forall_impl; [exact Hpre_pos|].
    intros [? ?] ?. cbn in *. lra. }
  pose proof (sum_snd_snoc pre sym w) as Hsnoc.
  assert (Forall (plan_entry h p pv e s (pre ++ [(sym, w)])) plan) as Hall'.
  { eapply Forall_impl; [exact Hall|]. intros x. apply plan_entry_snoc. }
  destruct (size_one_cases _ _ _ _ _ _ _ _ _ Hone)
    as [->|(px & atr & Hpx & Hpxpos & Hatr & Hn & ->)]; cbn [fst snd].
  - split.
    { intros k Hk. rewrite map_app, elem_of_app. left. by apply Hkeys. }
    exists plan. split; [done|]. split; [done|]. intros Hne.
    destruct (Hsum Hne) as [Hb Hle]. split; [done|]. rewrite Hsnoc.
    set (B := pv * total_risk_budget p) in *.
    assert (0 <= B * w) by (apply Qmult_le_0_compat; lra). lra.
  - rewrite sizing_state_profile in *. fold p in Hn |- *.
    set (n := target_shares p pv e w px atr) in *.
    assert (sym ∉ map fst dq) as Hnew by (intros Hin; by apply Hfresh, Hkeys).
    rewrite (dict_set_fresh _ _ _ Hnew).
    destruct (target_shares_risk p pv e w px atr Hn) as [Hcost Hrpos]. fold n in Hcost.
    unfold risk_dollars in Hcost, Hrpos.
    pose proof (Py_min_le_l (pv * total_risk_budget p * w) (pv * risk_per_entry_cap p)) as Hl.
    pose proof (Py_min_le_r (pv * total_risk_budget p * w) (pv * risk_per_entry_cap p)) as Hr'.
    set (B := pv * total_risk_budget p) in *.
    assert (0 < B) as HB.
    { destruct (Qlt_le_dec 0 B) as [?|Hneg]; [done|].
      assert (0 <= (- B) * w) by (apply Qmult_le_0_compat; lra). lra. }
    assert (0 <= B * Py.sum (map snd pre)) as HBs by (apply Qmult_le_0_compat; lra).
    split.
    { intros k Hk. cbn [fst snd] in Hk.
      rewrite map_app, elem_of_app in Hk. rewrite map_app, elem_of_app.
      destruct Hk as [Hk|Hk]; [left; by apply Hkeys|right; exact Hk]. }
    exists (plan ++ [((sym, n), stop_distance p atr)]).
    split; [by rewrite map_app, Hplan|]. split.
    + apply Forall_app. split; [done|]. rewrite Forall_singleton.
      exists pre, w, [], atr. cbn [fst snd]. split; [done|]. split; [done|].
      split; [done|]. lra.
    + intros _. split; [done|]. rewrite planned_risk_snoc, Hsnoc. cbn [fst snd]. fold B.
      destruct (decide (dq = [])) as [->|Hne].
      * destruct plan; [|done]. unfold planned_risk. cbn [map]. rewrite sum_nil. lra.
      * destruct (Hsum Hne) as [_ Hle]. lra.
Qed.

(** X28.  The sizing keeps the planned loss at the stops within the risk
    budget: every sized symbol has the stop distance
    [max(0.01, atr_mult_trail * atr)] of the ATR the sizing loop read for it
    (in the state in which the loop reached it), shares times stop distance
    is at most [pv * risk_per_entry_cap] for each symbol, and summed over all
    sized symbols it is at most [pv * total_risk_budget]. *)
Theorem sizing_stays_within_risk_budget (h : Host) (s : EngineState) (pv e : Q)
    (vols : list (string * Q)) (desired_qty : list (string * Z)) (invested : Q) :
  vols ≠ [] →
  positive_vols vols →
  result_of (for_fold (inverse_vol_weights vols) ([], 0) (size_one h pv e) s)
    = Ok (desired_qty, invested) →
  NoDup (map fst (inverse_vol_weights vols))
  ∧ ∃ plan : list (string * Z * Q),
      map fst plan = desired_qty
      ∧ Forall (λ x, ∃ pre w post atr,
                  inverse_vol_weights vols = pre ++ (x.1.1, w) :: post
                  ∧ result_of (_atr h x.1.1 (sizing_state h pv e s pre)) = Ok (Some atr)
                  ∧ x.2 = stop_distance (profile s) atr
                  ∧ inject_Z x.1.2 * x.2 <= pv * risk_per_entry_cap (profile s)) plan
      ∧ (desired_qty ≠ [] → planned_risk plan <= pv * total_risk_budget (profile s)).
Proof.
  intros Hne [Hpos Hnd] Hsize.
  assert (NoDup (map fst (inverse_vol_weights vols))) as Hndw
    by (by rewrite inverse_vol_weights_keys).
  split; [exact Hndw|].
  destruct (risk_loop_invariant _ _ _ _ _ _ _ Hndw (inverse_vol_weights_pos _ Hpos) Hsize)
    as (_ & plan & Hplan & Hall & Hsum).
  cbn [fst snd] in Hplan, Hsum.
  exists plan. split; [done|]. split; [exact Hall|]. intros Hdq.
  destruct (Hsum Hdq) as [_ Hle].
  rewrite (inverse_vol_weights_sum vols Hne Hpos) in Hle. lra.
Qed.

Lemma sizing_stays_within_risk_budget_witness :
  let h := SizingScenario.host in
  let s := SizingScenario.state in
  let pv := get_portfolio_value h in
  ∃ plan : list (string * Z * Q),
    map fst plan = [("AAA", 74%Z); ("BBB", 74%Z)]
    ∧ Forall (λ x, ∃ pre w post atr,
                inverse_vol_weights [("AAA", 1 # 5); ("BBB", 1 # 5)]
                = pre ++ (x.1.1, w) :: post
                ∧ result_of (_atr h x.1.1 (sizing_state h pv (clamp01 1) s pre))
                  = Ok (Some atr)
                ∧ x.2 = stop_distance (profile s) atr) plan
    ∧ planned_risk plan <= 100000 * (7 # 100).
Proof.
  cbv zeta.
  destruct (sizing_stays_within_risk_budget SizingScenario.host SizingScenario.state
              (get_portfolio_value SizingScenario.host) (clamp01 1)
              [("AAA", 1 # 5); ("BBB", 1 # 5)] [("AAA", 74%Z); ("BBB", 74%Z)] 14800)
    as (_ & plan & Hplan & Hall & Hsum).
  - discriminate.
  - split; [repeat constructor|]. apply (bool_decide_unpack _). vm_compute. exact I.
  - vm_compute. reflexivity.
  - exists plan. split; [exact Hplan|]. split; [|apply Hsum; discriminate].
    eapply Forall_impl; [exact Hall|].
    intros x (pre & w & post & atr & Hsplit & Hatr & Hstop & _).
    exists pre, w, post, atr. split; [exact Hsplit|]. split; [exact Hatr|exact Hstop].
Defined.

(** ** Start-up and stops without data *)

Lemma apply_overrides_structure o p :
  max_positions (apply_overrides o p) = max_positions p
  ∧ max_sector_positions (apply_overrides o p) = max_sector_positions p
  ∧ atr_period (apply_overrides o p) = atr_period p
  ∧ cooldown_days (apply_overrides o p) = cooldown_days p
  ∧ min_price (apply_overrides o p) = min_price p.
Proof. by destruct o as [[?|] [?|] [?|] [?|] [?|] [?|] [?|] [?|]]. Qed.

Lemma PROFILES_get name :
  dict_get PROFILES name balanced = balanced ∨ dict_get PROFILES name balanced = max_return.
Proof.
  unfold dict_get, PROFILES.
  destruct (decide (name = "balanced")) as [->|H1]; [by left|].
  rewrite lookup_insert_ne by done.
  destruct (decide (name = "max_return")) as [->|H2]; [by right|].
  rewrite lookup_insert_ne by done. by left.
Qed.

(** X29.  [initialize] cannot fail and always leaves an engine that is ready
    to trade: whatever the profile name and the overrides, the profile is a
    preset with only the eight overridable fields replaced, so that
    [max_positions >= 1], [max_sector_positions >= 1], [atr_period = 14] and
    [cooldown_days >= 0]; no rebalance date, peak, cooldown or tracked high is
    set, so the first trading step is due and outside cooldown; and the
    universe is the explicit non-empty list as given, or else at most
    [MAX_UNIVERSE_FOR_SPEED] tickers of the repository. *)
Theorem initialize_leaves_engine_ready (repo : Repo) (name : option string)
    (u : option (list string)) (o : Overrides) (h : Host) :
  ∃ s ev,
    initialize repo name u o = Ok (s, ev)
    ∧ (profile s = apply_overrides o balanced ∨ profile s = apply_overrides o max_return)
    ∧ (1 <= max_positions (profile s))%Z
    ∧ (1 <= max_sector_positions (profile s))%Z
    ∧ atr_period (profile s) = 14%Z
    ∧ (0 <= cooldown_days (profile s))%Z
    ∧ _should_rebalance_today h s = true
    ∧ _in_cooldown h s = false
    ∧ _equity_peak s = None
    ∧ _highest_close s = ∅
    ∧ (u = Some (universe s)
       ∨ (universe s = Py.slice_to MAX_UNIVERSE_FOR_SPEED (csv_tickers repo)
          ∧ (len (universe s) <= MAX_UNIVERSE_FOR_SPEED)%Z)).
Proof.
  unfold initialize, subscript.
  replace (PROFILES !! "balanced") with (Some balanced) by reflexivity.
  eexists _, _. split; [reflexivity|]. cbn [profile universe _equity_peak _highest_close].
  destruct (apply_overrides_structure o (dict_get PROFILES (profile_key name) balanced))
    as (H1 & H2 & H3 & H4 & _).
  rewrite H1, H2, H3, H4.
  split; [destruct (PROFILES_get (profile_key name)) as [-> | ->]; [by left | by right]|].
  destruct (PROFILES_get (profile_key name)) as [-> | ->];
    (repeat (split; [by vm_compute|]));
    (destruct u as [[|x r]|]; [right|by left|right]);
    (split; [done|apply len_slice_to_le; by vm_compute]).
Qed.

(** X30.  Without an ATR reading there is no stop: for a long position with
    a positive price whose ATR is unavailable (missing data, too few bars, a
    flat series), the trailing-stop turn submits nothing, whatever the price
    has done; it only records the running high, which is at least the
    current price and at least the high tracked before. *)
Theorem trailing_stop_needs_atr (h : Host) (s : EngineState) (pos : Position) (px : Q) :
  0 < pos_quantity pos →
  get_last_price h (_src_symbol h (pos_symbol pos)) = Some px →
  0 < px →
  let sym := pos_symbol pos in
  let high := running_high s sym px in
  result_of (_atr h sym (set_highest_close (<[sym := high]> (_highest_close s)) s))
    = Ok None →
  let o := trailing_stop_one h pos s in
  result_of o = Ok tt
  ∧ submitted (events_of o) = []
  ∧ _highest_close (state_of o) !! sym = Some high
  ∧ px <= high
  ∧ (∀ old, _highest_close s !! sym = Some old → old <= high).
Proof.
  intros Hq Hpx Hpos sym high Hatr o. subst o. unfold trailing_stop_one.
  apply Qleb_false in Hq as ->. rewrite Hpx. fold sym.
  pose proof Hpos as Hpos'. apply Qleb_false in Hpos' as ->.
  rewrite bind_get_state, bind_modify. fold high.
  set (s1 := set_highest_close (<[sym := high]> (_highest_close s)) s) in *.
  rewrite (bind_result_Ok _ _ _ _ Hatr). cbn [result_of state_of events_of fst snd ret].
  destruct (atr_keeps_data h sym s1) as [(_ & _ & _ & Hh & _) Hev].
  split; [done|]. split; [|split; [|split]].
  - rewrite app_nil_r. by apply submitted_data_failure.
  - rewrite Hh. cbn. apply lookup_insert_eq.
  - unfold high, running_high. cbv zeta. destruct (Py.Qltb _ px) eqn:Hlt; [lra|].
    by apply Qltb_false in Hlt.
  - intros old Hold. unfold high, running_high, dict_get. cbv zeta. rewrite Hold.
    cbn [default from_option id].
    destruct (Py.Qltb old px) eqn:Hlt; [|lra]. apply Qltb_true in Hlt. lra.
Qed.

Lemma trailing_stop_needs_atr_witness :
  submitted (events_of (trailing_stop_one
                          (BarScenario.host 100 BarScenario.three_bars 100000
                             [StopScenario.position] (Some 50%Q))
                          StopScenario.position StopScenario.state)) = [].
Proof.
  apply (trailing_stop_needs_atr
           (BarScenario.host 100 BarScenario.three_bars 100000
              [StopScenario.position] (Some 50%Q))
           StopScenario.state StopScenario.position 50).
  - reflexivity.
  - reflexivity.
  - reflexivity.
  - vm_compute. reflexivity.
Defined.
